(** * ATen/native/TensorCompare.cpp: a shallow embedding

    Clamping, closeness predicates, set membership ([isin]) and ordered
    reductions of [aten/src/ATen/native/TensorCompare.cpp], with the
    properties the specification states about them.

    Layout: the model first (one module per component of the source file),
    then the lemmas and theorems. *)

From Stdlib Require Import ZArith Lia Bool.
From Stdlib Require Import Floats.SpecFloat.
From Stdlib Require Reals Lra.
From stdpp Require Import base list sorting strings.

Local Open Scope Z_scope.

(** ** Scalar types, scalars and errors (c10)

    Modelled from the spec: the declarations of [c10] the source file relies
    on.  Their code is outside this file; the model follows section 3 and
    section 7 of the specification. *)
Module c10.

(** The element types of an array. *)
Inductive ScalarType :=
  | Byte | Char | Short | Int | Long
  | Half | Float | Double
  | ComplexHalf | ComplexFloat | ComplexDouble
  | Bool
  | QInt8 | QUInt8 | QInt32
  | BFloat16
  | Undefined.

#[export] Instance ScalarType_eq_dec : EqDecision ScalarType.
Proof. solve_decision. Defined.

Definition isFloatingType (t : ScalarType) : bool :=
  match t with Double | Float | Half | BFloat16 => true | _ => false end.

Definition isComplexType (t : ScalarType) : bool :=
  match t with ComplexHalf | ComplexFloat | ComplexDouble => true | _ => false end.

Definition isIntegralType (t : ScalarType) (includeBool : bool) : bool :=
  match t with
  | Byte | Char | Int | Long | Short => true
  | Bool => includeBool
  | _ => false
  end.

Definition isQIntType (t : ScalarType) : bool :=
  match t with QInt8 | QUInt8 | QInt32 => true | _ => false end.

(** A double is a [spec_float], compared with IEEE 754 semantics. *)
Definition double : Type := spec_float.

Definition quiet_NaN : double := S754_nan.
Definition double_eq (a b : double) : bool := SFeqb a b.
Definition double_ne (a b : double) : bool := negb (SFeqb a b).
Definition double_ge (a b : double) : bool := SFleb b a.
Definition double_zero : double := S754_zero false.

(** [static_cast<double>] of an integer: round to nearest, ties to even. *)
Definition double_of_Z (z : Z) : double := binary_normalize 53 1024 z 0 false.

(** [c10::Scalar]: a tagged numeric value. *)
Inductive Scalar :=
  | HAS_d (d : double)
  | HAS_i (i : Z)
  | HAS_z (re im : double)
  | HAS_b (b : bool).

Definition Scalar_type (s : Scalar) : ScalarType :=
  match s with
  | HAS_d _ => Double
  | HAS_i _ => Long
  | HAS_z _ _ => ComplexDouble
  | HAS_b _ => Bool
  end.

Definition Scalar_isComplex (s : Scalar) : bool :=
  match s with HAS_z _ _ => true | _ => false end.

(** The failures of section 7 of the specification, and the kinds of the
    checks it does not name: a device type or a layout an operation does not
    support, shapes that do not broadcast, a scalar conversion that loses an
    imaginary part, and a failed internal assertion. *)
Inductive ErrorKind :=
  | InvalidArgument | UnsupportedType | DtypeMismatch | DeviceMismatch
  | UnsafeCast | IndexOutOfRange | EmptyReductionDim | NotYetImplemented
  | UnsupportedDevice | UnsupportedLayout | ShapeMismatch
  | ConversionOverflow | InternalAssert.

Inductive DeviceType := CPU | CUDA | XLA | Meta.

#[export] Instance DeviceType_eq_dec : EqDecision DeviceType.
Proof. solve_decision. Defined.

Record Device := { device_type : DeviceType; device_index : Z }.

#[export] Instance Device_eq_dec : EqDecision Device.
Proof. solve_decision. Defined.

Definition is_cpu (d : Device) : bool := bool_decide (device_type d = CPU).
Definition is_cuda (d : Device) : bool := bool_decide (device_type d = CUDA).

Inductive Layout := Strided | Sparse | SparseCsr | Mkldnn.

#[export] Instance Layout_eq_dec : EqDecision Layout.
Proof. solve_decision. Defined.

End c10.

(** ** Tensors, failures and the dispatch trace *)
Module ATen.
Import c10.

(** A call either returns or raises. *)
Inductive Except (A : Type) :=
  | Ok (a : A)
  | Err (e : ErrorKind).
Arguments Ok {A} a.
Arguments Err {A} e.

#[export] Instance Except_ret : MRet Except := @Ok.
#[export] Instance Except_bind : MBind Except := λ A B f m,
  match m with
  | Ok a => f a
  | Err e => Err e
  end.

(** The monad the operations run in: the outcome, and the trace of the
    kernels and tensor operations dispatched so far, oldest first.  Checks
    and scalar conversions leave no trace. *)
Record M (A : Type) := mkM { outcome : Except A; trace : list string }.
Arguments mkM {A} outcome trace.
Arguments outcome {A} m.
Arguments trace {A} m.

Definition ret {A} (a : A) : M A := mkM (Ok a) [].
#[export] Instance M_ret : MRet M := @ret.
#[export] Instance M_bind : MBind M := λ A B f m,
  match outcome m with
  | Ok a => mkM (outcome (f a)) (trace m ++ trace (f a))
  | Err e => mkM (Err e) (trace m)
  end.

(** [TORCH_CHECK(cond, ...)], with the kind of failure the specification
    gives the check. *)
Definition TORCH_CHECK (cond : bool) (kind : ErrorKind) : M unit :=
  if cond then ret () else mkM (Err kind) [].

(** A dispatched kernel or tensor operation: it is recorded, then runs. *)
Definition call {A} (name : string) (result : Except A) : M A :=
  mkM result [name].

Definition lift {A} (result : Except A) : M A := mkM result [].

(** [Scalar::toDouble()]: a complex scalar converts only when its imaginary
    part is zero. *)
Definition toDouble (s : Scalar) : Except double :=
  match s with
  | HAS_d d => Ok d
  | HAS_i i => Ok (double_of_Z i)
  | HAS_b b => Ok (double_of_Z (Z.b2z b))
  | HAS_z re im => if double_eq im double_zero then Ok re else Err ConversionOverflow
  end.

(** An array: the identity of its implementation object (what [is_same]
    compares), its shape, element type, device, layout, and its elements in
    row-major order.  An element is held as a [Scalar] of the tag of its
    type. *)
Record Tensor := {
  unsafeGetTensorImpl : nat;
  sizes : list nat;
  scalar_type : ScalarType;
  device : Device;
  layout : Layout;
  is_quantized : bool;
  data : list Scalar
}.

Definition numel_of (shape : list nat) : nat := foldr Nat.mul 1%nat shape.
Definition numel (t : Tensor) : nat := numel_of (sizes t).
Definition dim (t : Tensor) : nat := length (sizes t).
Definition is_same (a b : Tensor) : bool :=
  bool_decide (unsafeGetTensorImpl a = unsafeGetTensorImpl b).
Definition is_floating_point (t : Tensor) : bool := isFloatingType (scalar_type t).
Definition is_complex (t : Tensor) : bool := isComplexType (scalar_type t).

(** [maybe_get_output().defined()]. *)
Definition defined (t : option Tensor) : bool := bool_decide (is_Some t).

Definition with_data (t : Tensor) (d : list Scalar) : Tensor :=
  {| unsafeGetTensorImpl := unsafeGetTensorImpl t; sizes := sizes t;
     scalar_type := scalar_type t; device := device t; layout := layout t;
     is_quantized := is_quantized t; data := d |}.

Definition with_sizes (t : Tensor) (s : list nat) (d : list Scalar) : Tensor :=
  {| unsafeGetTensorImpl := unsafeGetTensorImpl t; sizes := s;
     scalar_type := scalar_type t; device := device t; layout := layout t;
     is_quantized := is_quantized t; data := d |}.

(** The elements of an array have the tag of its element type. *)
Definition has_type (t : ScalarType) (v : Scalar) : Prop :=
  match v with
  | HAS_d _ => isFloatingType t = true
  | HAS_z _ _ => isComplexType t = true
  | HAS_i _ => isIntegralType t false = true ∨ isQIntType t = true
  | HAS_b _ => t = Bool
  end.

Record well_formed (t : Tensor) : Prop := {
  wf_numel : length (data t) = numel t;
  wf_type : Forall (has_type (scalar_type t)) (data t)
}.

(** *** Element conversions *)

(** Modelled from the spec: the significand width and the exponent bound of
    the floating-point element types. *)
Definition prec_of (t : ScalarType) : Z :=
  match t with Half => 11 | BFloat16 => 8 | Float | ComplexFloat => 24 | _ => 53 end.
Definition emax_of (t : ScalarType) : Z :=
  match t with Half => 16 | BFloat16 | Float | ComplexFloat => 128 | _ => 1024 end.

Definition round_to (t : ScalarType) (d : double) : double :=
  match d with
  | S754_finite s m e =>
      binary_normalize (prec_of t) (emax_of t) (cond_Zopp s (Zpos m)) e s
  | _ => d
  end.

Definition real_part (v : Scalar) : double :=
  match v with
  | HAS_d d => d
  | HAS_i i => double_of_Z i
  | HAS_b b => double_of_Z (Z.b2z b)
  | HAS_z re _ => re
  end.

Definition imag_part (v : Scalar) : double :=
  match v with HAS_z _ im => im | _ => double_zero end.

(** The integer a double truncates to; the conversion of a NaN or an
    infinity is undefined in C++, the model returns 0 there. *)
Definition trunc_double (d : double) : Z :=
  match d with
  | S754_finite s m e => cond_Zopp s (Z.shiftl (Zpos m) e)
  | _ => 0
  end.

Definition integer_part (v : Scalar) : Z :=
  match v with
  | HAS_i i => i
  | HAS_b b => Z.b2z b
  | HAS_d d => trunc_double d
  | HAS_z re _ => trunc_double re
  end.

Definition is_nonzero_value (v : Scalar) : bool :=
  match v with
  | HAS_i i => negb (i =? 0)
  | HAS_b b => b
  | HAS_d d => double_ne d double_zero
  | HAS_z re im => double_ne re double_zero || double_ne im double_zero
  end.

(** Bit width and signedness of the integral element types. *)
Definition wrap_integer (t : ScalarType) (z : Z) : Z :=
  match t with
  | Byte => z mod 2 ^ 8
  | Char => (z + 2 ^ 7) mod 2 ^ 8 - 2 ^ 7
  | Short => (z + 2 ^ 15) mod 2 ^ 16 - 2 ^ 15
  | Int => (z + 2 ^ 31) mod 2 ^ 32 - 2 ^ 31
  | _ => (z + 2 ^ 63) mod 2 ^ 64 - 2 ^ 63
  end.

(** Modelled from the spec: the conversion of a value to the element type
    [t], as [fill_], [copy_] and [to] perform it. *)
Definition cast_to (t : ScalarType) (v : Scalar) : Scalar :=
  if isFloatingType t then HAS_d (round_to t (real_part v))
  else if isComplexType t then HAS_z (round_to t (real_part v)) (round_to t (imag_part v))
  else if bool_decide (t = Bool) then HAS_b (is_nonzero_value v)
  else HAS_i (wrap_integer t (integer_part v)).

(** A value that already has the element type is stored as it is. *)
Definition convert (from to : ScalarType) (v : Scalar) : Scalar :=
  if bool_decide (from = to) then v else cast_to to v.

(** *** Elementwise comparison of values of one element type *)

Definition value_eq (x y : Scalar) : bool :=
  match x, y with
  | HAS_d a, HAS_d b => double_eq a b
  | HAS_i a, HAS_i b => a =? b
  | HAS_b a, HAS_b b => eqb a b
  | HAS_z ar ai, HAS_z br bi => double_eq ar br && double_eq ai bi
  | _, _ => false
  end.

Definition value_ne (x y : Scalar) : bool := negb (value_eq x y).

Definition truth (v : Scalar) : bool := is_nonzero_value v.

(** *** Broadcasting

    Modelled from the spec (glossary, "Broadcasting"): two shapes are aligned
    at their last dimension, a dimension of size 1 is repeated.  The
    iteration engine itself is outside the source file. *)
Definition pad_to (n : nat) (shape : list nat) : list nat :=
  replicate (n - length shape) 1%nat ++ shape.

Fixpoint infer_size_aligned (a b : list nat) : option (list nat) :=
  match a, b with
  | [], [] => Some []
  | x :: a', y :: b' =>
      s ← infer_size_aligned a' b';
      if decide (x = y) then Some (x :: s)
      else if decide (x = 1%nat) then Some (y :: s)
      else if decide (y = 1%nat) then Some (x :: s)
      else None
  | _, _ => None
  end.

Definition infer_size (a b : list nat) : option (list nat) :=
  let n := (length a `max` length b)%nat in
  infer_size_aligned (pad_to n a) (pad_to n b).

(** The row-major position, in an array of shape [shape], of the element that
    position [i] of its expansion to [target] shows. *)
Fixpoint source_index (shape target : list nat) (i : nat) : nat :=
  match shape, target with
  | x :: shape', y :: target' =>
      let inner := numel_of target' in
      ((if decide (x = 1) then 0 else i / inner) * numel_of shape'
       + source_index shape' target' (i `mod` inner))%nat
  | _, _ => 0%nat
  end.

Definition expand {A} (shape target : list nat) (d : list A) : option (list A) :=
  mapM (λ i, d !! source_index (pad_to (length target) shape) target i)
       (seq 0 (numel_of target)).

Definition broadcast2 {A B} (a : list nat * list A) (b : list nat * list B)
  : Except (list nat * list A * list B) :=
  match infer_size a.1 b.1 with
  | None => Err ShapeMismatch
  | Some shape =>
      match expand a.1 shape a.2, expand b.1 shape b.2 with
      | Some da, Some db => Ok (shape, da, db)
      | _, _ => Err InternalAssert
      end
  end.

(** *** The external collaborators

    What the source file calls and does not define: type promotion
    ([ATen/native/TypeProperties.h]), the iterator builder
    ([ATen/TensorIterator.h]), the reduction helpers
    ([ATen/native/ReduceOpsUtils.h], [ATen/native/Resize.h]), allocation, and
    the per-device kernels behind the dispatch stubs.  The operations of the
    source file are defined for every implementation of them. *)

(** Modelled from the spec: the result-type accumulator, folded over the
    operands and read once, and the default floating-point element type. *)
Class TypeProperties := {
  ResultTypeState : Type;
  ResultTypeState_init : ResultTypeState;
  update_result_type_state : Tensor → ResultTypeState → ResultTypeState;
  update_result_type_state_Scalar : Scalar → ResultTypeState → ResultTypeState;
  result_type_of_state : ResultTypeState → ScalarType;
  get_default_dtype : ScalarType
}.

(** The iterator the meta step builds and the impl step runs a kernel on. *)
Record TensorIteratorBase := {
  output : Tensor;
  inputs : list Tensor;
  common_dtype : ScalarType
}.

(** [TensorIteratorConfig], with the options the source file sets. *)
Record TensorIteratorConfig := {
  check_mem_overlap : bool;
  config_output : option Tensor;
  config_inputs : list Tensor;
  promote_inputs_to_common_dtype : bool;
  cast_common_dtype_to_outputs : bool;
  enforce_safe_casting_to_output : bool
}.

Definition add_input (t : Tensor) (c : TensorIteratorConfig) : TensorIteratorConfig :=
  {| check_mem_overlap := check_mem_overlap c;
     config_output := config_output c;
     config_inputs := config_inputs c ++ [t];
     promote_inputs_to_common_dtype := promote_inputs_to_common_dtype c;
     cast_common_dtype_to_outputs := cast_common_dtype_to_outputs c;
     enforce_safe_casting_to_output := enforce_safe_casting_to_output c |}.

(** Modelled from the spec: allocation, the builders, the helpers and the
    kernels.  A fresh array has the requested shape, element type and device
    and unspecified contents; a resized array has the requested shape and
    keeps its element type. *)
Class Backend := {
  empty : list nat → ScalarType → Device → Tensor;
  empty_sizes s t d : sizes (empty s t d) = s;
  empty_scalar_type s t d : scalar_type (empty s t d) = t;
  empty_device s t d : device (empty s t d) = d;
  empty_numel s t d : length (data (empty s t d)) = numel_of s;
  resize_output : Tensor → list nat → Except Tensor;
  resize_output_sizes t s t' : resize_output t s = Ok t' → sizes t' = s;
  resize_output_scalar_type t s t' :
    resize_output t s = Ok t' → scalar_type t' = scalar_type t;
  (* TensorIterator *)
  build : TensorIteratorConfig → Except TensorIteratorBase;
  build_unary_op : option Tensor → Tensor → Except TensorIteratorBase;
  build_borrowing_unary_op : option Tensor → Tensor → Except TensorIteratorBase;
  build_borrowing_binary_op :
    option Tensor → Tensor → Tensor → Except TensorIteratorBase;
  (* ReduceOpsUtils *)
  zero_numel_check_dims : Tensor → Z → Except unit;
  get_zero_numel_tensor_size : Tensor → Z → bool → Except (list nat);
  _dimreduce_return_trivial_no_ident :
    Tensor → Tensor → Z → bool → Except (bool * Tensor);
  (* kernels *)
  clamp_kernel : TensorIteratorBase → Except Tensor;
  clamp_scalar_kernel : TensorIteratorBase → Scalar → Scalar → Except Tensor;
  clamp_min_scalar_kernel : TensorIteratorBase → Scalar → Except Tensor;
  clamp_max_scalar_kernel : TensorIteratorBase → Scalar → Except Tensor;
  maximum_kernel : TensorIteratorBase → Except Tensor;
  minimum_kernel : TensorIteratorBase → Except Tensor;
  max_kernel : Tensor → Tensor → Tensor → Z → bool → Except (Tensor * Tensor);
  min_kernel : Tensor → Tensor → Tensor → Z → bool → Except (Tensor * Tensor);
  mode_kernel : Tensor → Tensor → Tensor → Z → bool → Except (Tensor * Tensor);
  (* elementwise arithmetic, on values of the element type given first *)
  abs_value : ScalarType → Scalar → Scalar;
  mul_value : ScalarType → Scalar → Scalar → Scalar;
  add_value : ScalarType → Scalar → Scalar → Scalar;
  sub_value : ScalarType → Scalar → Scalar → Scalar;
  le_value : ScalarType → Scalar → Scalar → bool
}.

Section Operations.
Context `{TypeProperties} `{Backend}.

(** [at::native::result_type(tensor, scalar)] and
    [at::native::result_type(tensor, tensor)]: the accumulator folded over the
    two operands. *)
Definition result_type_Tensor_Scalar (t : Tensor) (s : Scalar) : ScalarType :=
  result_type_of_state
    (update_result_type_state_Scalar s
       (update_result_type_state t ResultTypeState_init)).

Definition result_type_Tensor_Tensor (a b : Tensor) : ScalarType :=
  result_type_of_state
    (update_result_type_state b
       (update_result_type_state a ResultTypeState_init)).

(** The dispatch stubs: the call is recorded, then the kernel runs. *)
Definition clamp_stub (it : TensorIteratorBase) : M Tensor :=
  call "clamp_stub" (clamp_kernel it).
Definition clamp_scalar_stub (it : TensorIteratorBase) (min max : Scalar) : M Tensor :=
  call "clamp_scalar_stub" (clamp_scalar_kernel it min max).
Definition clamp_min_scalar_stub (it : TensorIteratorBase) (min : Scalar) : M Tensor :=
  call "clamp_min_scalar_stub" (clamp_min_scalar_kernel it min).
Definition clamp_max_scalar_stub (it : TensorIteratorBase) (max : Scalar) : M Tensor :=
  call "clamp_max_scalar_stub" (clamp_max_scalar_kernel it max).
Definition maximum_stub (it : TensorIteratorBase) : M Tensor :=
  call "maximum_stub" (maximum_kernel it).
Definition minimum_stub (it : TensorIteratorBase) : M Tensor :=
  call "minimum_stub" (minimum_kernel it).
Definition max_stub (values indices self : Tensor) (dim : Z) (keepdim : bool)
  : M (Tensor * Tensor) :=
  call "max_stub" (max_kernel values indices self dim keepdim).
Definition min_stub (values indices self : Tensor) (dim : Z) (keepdim : bool)
  : M (Tensor * Tensor) :=
  call "min_stub" (min_kernel values indices self dim keepdim).
Definition mode_stub (values indices self : Tensor) (dim : Z) (keepdim : bool)
  : M (Tensor * Tensor) :=
  call "mode_stub" (mode_kernel values indices self dim keepdim).

(** *** Tensor operations the source file uses *)

(** [t.fill_(v)] with a scalar: every element becomes [v], converted to the
    element type of [t]. *)
Definition at_fill_ (t : Tensor) (v : Scalar) : M Tensor :=
  call "fill_"
    (Ok (with_data t (replicate (numel t) (convert (Scalar_type v) (scalar_type t) v)))).

(** [t.fill_(value)] with a zero-dimensional array. *)
Definition at_fill_Tensor (t value : Tensor) : M Tensor :=
  call "fill_"
    (match data value with
     | [v] =>
         if bool_decide (dim value = 0%nat)
         then Ok (with_data t
                    (replicate (numel t) (convert (scalar_type value) (scalar_type t) v)))
         else Err InvalidArgument
     | _ => Err InvalidArgument
     end).

(** [t.to(dtype)]: the array itself when it has the element type already, a
    converted copy otherwise. *)
Definition at_to (t : Tensor) (dtype : ScalarType) : M Tensor :=
  if bool_decide (scalar_type t = dtype) then ret t
  else call "to"
         (Ok (with_data (empty (sizes t) dtype (device t))
                (cast_to dtype <$> data t))).

(** An elementwise operation of one array, and of two broadcast arrays, into
    a fresh array of element type [dtype]. *)
Definition unary_op (name : string) (f : Scalar → Scalar) (dtype : ScalarType)
    (a : Tensor) : M Tensor :=
  call name (Ok (with_data (empty (sizes a) dtype (device a)) (f <$> data a))).

Definition binary_op (name : string) (f : Scalar → Scalar → Scalar)
    (dtype : ScalarType) (a b : Tensor) : M Tensor :=
  call name
    (match broadcast2 (sizes a, data a) (sizes b, data b) with
     | Ok (shape, da, db) =>
         Ok (with_data (empty shape dtype (device a)) (zip_with f da db))
     | Err e => Err e
     end).

(** An in-place elementwise operation: the result is written to [self], whose
    shape the broadcast must not change. *)
Definition binary_op_ (name : string) (f : Scalar → Scalar → Scalar)
    (self other : Tensor) : M Tensor :=
  call name
    (match broadcast2 (sizes self, data self) (sizes other, data other) with
     | Ok (shape, da, db) =>
         if bool_decide (shape = sizes self)
         then Ok (with_data self (zip_with f da db))
         else Err ShapeMismatch
     | Err e => Err e
     end).

Definition at_eq (a b : Tensor) : M Tensor :=
  binary_op "eq" (λ x y, HAS_b (value_eq x y)) Bool a b.
Definition at_ne (a b : Tensor) : M Tensor :=
  binary_op "ne" (λ x y, HAS_b (value_ne x y)) Bool a b.
Definition at_ne_Scalar (a : Tensor) (s : Scalar) : M Tensor :=
  unary_op "ne"
    (λ x, HAS_b (value_ne x (convert (Scalar_type s) (scalar_type a) s))) Bool a.
Definition at_le (a b : Tensor) : M Tensor :=
  let t := result_type_Tensor_Tensor a b in
  binary_op "le" (λ x y, HAS_b (le_value t x y)) Bool a b.
Definition __ior__ (self other : Tensor) : M Tensor :=
  binary_op_ "__ior__" (λ x y, HAS_b (truth x || truth y)) self other.
Definition __iand__ (self other : Tensor) : M Tensor :=
  binary_op_ "__iand__" (λ x y, HAS_b (truth x && truth y)) self other.
Definition at_abs (a : Tensor) : M Tensor :=
  unary_op "abs" (abs_value (scalar_type a)) (scalar_type a) a.
Definition at_mul (a b : Tensor) : M Tensor :=
  let t := result_type_Tensor_Tensor a b in
  binary_op "mul" (mul_value t) t a b.
Definition at_sub (a b : Tensor) : M Tensor :=
  let t := result_type_Tensor_Tensor a b in
  binary_op "sub" (sub_value t) t a b.
Definition at_mul_Scalar (s : Scalar) (a : Tensor) : M Tensor :=
  let t := result_type_Tensor_Scalar a s in
  unary_op "mul" (mul_value t s) t a.
Definition at_add_Scalar (s : Scalar) (a : Tensor) : M Tensor :=
  let t := result_type_Tensor_Scalar a s in
  unary_op "add" (add_value t s) t a.
Definition at_ones_like (a : Tensor) (dtype : ScalarType) : M Tensor :=
  call "ones_like"
    (Ok (with_data (empty (sizes a) dtype (device a))
           (replicate (numel a) (cast_to dtype (HAS_i 1))))).

(** [at::real] and [at::imag] of a complex array. *)
Definition toRealValueType (t : ScalarType) : ScalarType :=
  match t with
  | ComplexHalf => Half | ComplexFloat => Float | ComplexDouble => Double
  | _ => t
  end.
Definition at_real (a : Tensor) : M Tensor :=
  unary_op "real" (λ x, HAS_d (real_part x)) (toRealValueType (scalar_type a)) a.
Definition at_imag (a : Tensor) : M Tensor :=
  unary_op "imag" (λ x, HAS_d (imag_part x)) (toRealValueType (scalar_type a)) a.

End Operations.

(** Modelled from the spec: the builders and the kernels behind the stubs of
    [where], [isposinf] and [isneginf].  The iterator of a forced-boolean
    unary operation writes a boolean output of the shape of its input;
    [build_where out condition self other] stands for
    [TensorIteratorConfig().check_all_same_dtype(false).add_output(out)
    .add_input(condition).add_input(self).add_input(other).build()]. *)
Class Kernels := {
  build_borrowing_unary_force_boolean_op :
    option Tensor → Tensor → Except TensorIteratorBase;
  build_borrowing_unary_force_boolean_op_output out self it :
    build_borrowing_unary_force_boolean_op out self = Ok it →
    sizes (output it) = sizes self ∧ scalar_type (output it) = Bool;
  build_where : Tensor → Tensor → Tensor → Tensor → Except TensorIteratorBase;
  where_kernel : TensorIteratorBase → Except Tensor;
  isposinf_kernel : TensorIteratorBase → Except Tensor;
  isneginf_kernel : TensorIteratorBase → Except Tensor
}.

Section FurtherOperations.
Context `{TypeProperties} `{Backend} `{Kernels}.

Definition where_stub (it : TensorIteratorBase) : M Tensor :=
  call "where_kernel" (where_kernel it).
Definition isposinf_stub (it : TensorIteratorBase) : M Tensor :=
  call "isposinf_stub" (isposinf_kernel it).
Definition isneginf_stub (it : TensorIteratorBase) : M Tensor :=
  call "isneginf_stub" (isneginf_kernel it).

(** [TORCH_WARN_ONCE]: the warning is not part of the outcome. *)
Definition TORCH_WARN_ONCE : M unit := ret ().

Definition at_zeros_like (a : Tensor) (dtype : ScalarType) : M Tensor :=
  call "zeros_like"
    (Ok (with_data (empty (sizes a) dtype (device a))
           (replicate (numel a) (cast_to dtype (HAS_i 0))))).

(** [a == s] with a scalar: the scalar is compared in the element type of
    [a]. *)
Definition at_eq_Scalar (a : Tensor) (s : Scalar) : M Tensor :=
  unary_op "eq"
    (λ x, HAS_b (value_eq x (convert (Scalar_type s) (scalar_type a) s))) Bool a.

(** [at::scalar_tensor(s, options)]: an array of rank 0 holding [s]. *)
Definition at_scalar_tensor (s : Scalar) (dtype : ScalarType) (dev : Device)
  : M Tensor :=
  call "scalar_tensor"
    (Ok (with_data (empty [] dtype dev) [convert (Scalar_type s) dtype s])).

(** [t.all()]: the conjunction of the truth values of all elements, as an
    array of rank 0; the result is boolean, except for a byte input. *)
Definition at_all (t : Tensor) : M Tensor :=
  let dtype := if bool_decide (scalar_type t = Byte) then Byte else Bool in
  call "all"
    (Ok (with_data (empty [] dtype (device t))
           [cast_to dtype (HAS_b (forallb truth (data t)))])).

(** [t.item<uint8_t>()]: the only element of [t], as a byte. *)
Definition item_uint8 (t : Tensor) : M Z :=
  call "item"
    (match data t with
     | [v] => Ok (wrap_integer Byte (integer_part v))
     | _ => Err InvalidArgument
     end).

End FurtherOperations.

End ATen.

(** ** The meta functions (namespace [at::meta], source lines 17-205)

    A meta function validates the operands and builds the iterator; it takes
    [maybe_get_output()] as an argument: no array for the functional
    variant, [self] for the in-place variant, the caller's buffer for the
    [out=] variant. *)
Module meta.
Import c10 ATen.

Section meta.
Context `{TypeProperties} `{Backend}.

Definition is_same_output (maybe_get_output : option Tensor) (self : Tensor) : bool :=
  match maybe_get_output with
  | Some out => is_same out self
  | None => false
  end.

(** [if (bound) { state = update_result_type_state(bound.get(), state); }] *)
Definition update_if_present (bound : option Scalar) (state : ResultTypeState)
  : ResultTypeState :=
  match bound with
  | Some b => update_result_type_state_Scalar b state
  | None => state
  end.

(** [TORCH_META_FUNC(clamp)], source lines 28-59. *)
Definition clamp (self : Tensor) (min max : option Scalar)
    (maybe_get_output : option Tensor) : M TensorIteratorBase :=
  (if negb (bool_decide (is_Some min)) && negb (bool_decide (is_Some max))
   then TORCH_CHECK false InvalidArgument else ret ());;
  (* Manual type promotion, since scalars have to participate in it *)
  let result_type := scalar_type self in
  TORCH_CHECK (negb (isComplexType result_type)) UnsupportedType;;
  (* Floating is the highest supported *)
  result_type ←
    (if negb (isFloatingType result_type) then
       let state := ResultTypeState_init in
       let state := update_result_type_state self state in
       let state := update_if_present min state in
       let state := update_if_present max state in
       let result_type := result_type_of_state state in
       (* disallow type promoting inplace op *)
       TORCH_CHECK
         (bool_decide (result_type = scalar_type self)
          || (negb (defined maybe_get_output)
              || negb (is_same_output maybe_get_output self)))
         UnsafeCast;;
       ret result_type
     else ret result_type);
  (* make sure scalars weren't complex *)
  TORCH_CHECK (negb (isComplexType result_type)) UnsupportedType;;
  self' ← at_to self result_type;
  lift (build_unary_op maybe_get_output self').

(** [CLAMP_CONFIG()], source lines 67-74. *)
Definition CLAMP_CONFIG (maybe_get_output : option Tensor) (self : Tensor)
  : TensorIteratorConfig :=
  {| check_mem_overlap := true;
     config_output := maybe_get_output;
     config_inputs := [self];
     promote_inputs_to_common_dtype := true;
     cast_common_dtype_to_outputs := true;
     enforce_safe_casting_to_output := true |}.

(** [TORCH_META_FUNC2(clamp, Tensor)], source lines 61-83.  The last case is
    not reached: the first check has failed there. *)
Definition clamp_Tensor (self : Tensor) (min max : option Tensor)
    (maybe_get_output : option Tensor) : M TensorIteratorBase :=
  TORCH_CHECK (bool_decide (is_Some min) || bool_decide (is_Some max))
    InvalidArgument;;
  TORCH_CHECK (negb (isComplexType (scalar_type self))) UnsupportedType;;
  match min, max with
  | Some min, Some max =>
      lift (build (add_input max (add_input min (CLAMP_CONFIG maybe_get_output self))))
  | Some min, None =>
      lift (build (add_input min (CLAMP_CONFIG maybe_get_output self)))
  | None, Some max =>
      lift (build (add_input max (CLAMP_CONFIG maybe_get_output self)))
  | None, None => lift (Err InvalidArgument)
  end.

(** [TORCH_META_FUNC(clamp_max)], source lines 86-107. *)
Definition clamp_max (self : Tensor) (max : Scalar)
    (maybe_get_output : option Tensor) : M TensorIteratorBase :=
  let result_type := scalar_type self in
  TORCH_CHECK (negb (isComplexType result_type)) UnsupportedType;;
  TORCH_CHECK (negb (Scalar_isComplex max)) UnsupportedType;;
  (* Floating is the highest supported *)
  if negb (isFloatingType result_type) then
    let result_type := result_type_Tensor_Scalar self max in
    TORCH_CHECK
      (bool_decide (result_type = scalar_type self)
       || (negb (defined maybe_get_output)
           || negb (is_same_output maybe_get_output self)))
      UnsafeCast;;
    self' ← at_to self result_type;
    lift (build_unary_op maybe_get_output self')
  else lift (build_borrowing_unary_op maybe_get_output self).


(** [TORCH_META_FUNC(clamp_min)], source lines 117-135. *)
Definition clamp_min (self : Tensor) (min : Scalar)
    (maybe_get_output : option Tensor) : M TensorIteratorBase :=
  let result_type := scalar_type self in
  TORCH_CHECK (negb (isComplexType result_type)) UnsupportedType;;
  TORCH_CHECK (negb (Scalar_isComplex min)) UnsupportedType;;
  (* Floating is the highest supported *)
  if negb (isFloatingType result_type) then
    let result_type := result_type_Tensor_Scalar self min in
    TORCH_CHECK
      (bool_decide (result_type = scalar_type self)
       || negb (defined maybe_get_output)
       || negb (is_same_output maybe_get_output self))
      UnsafeCast;;
    self' ← at_to self result_type;
    lift (build_unary_op maybe_get_output self')
  else lift (build_borrowing_unary_op maybe_get_output self).


(** [check_unsupported_complex], source lines 182-184. *)
Definition check_unsupported_complex (self : Tensor) : M unit :=
  TORCH_CHECK (negb (is_complex self)) UnsupportedType.

(** Modelled from the spec: [maybe_wrap_dim], the normalisation of a
    dimension index against the rank (a scalar counts as rank 1). *)
Definition maybe_wrap_dim (dim : Z) (dim_post_expr : nat) : M Z :=
  let dim_post_expr := if Z.of_nat dim_post_expr <=? 0 then 1 else Z.of_nat dim_post_expr in
  TORCH_CHECK ((- dim_post_expr <=? dim) && (dim <=? dim_post_expr - 1))
    IndexOutOfRange;;
  ret (if dim <? 0 then dim + dim_post_expr else dim).

(** Modelled from the spec: the shape of a reduction result, the input shape
    with the reduced dimension removed, or of size 1 under [keepdim]. *)
Definition get_reduction_shape (self : Tensor) (dim : Z) (keepdim : bool) : list nat :=
  if keepdim then <[Z.to_nat dim := 1%nat]> (sizes self)
  else delete (Z.to_nat dim) (sizes self).

(** Modelled from the spec: [set_output] of a structured operation.  A
    missing output is allocated; a buffer of the caller must have the element
    type and the device of the result and is resized to its shape. *)
Definition set_output (maybe_get_output : option Tensor) (shape : list nat)
    (dtype : ScalarType) (dev : Device) : M Tensor :=
  match maybe_get_output with
  | None => ret (empty shape dtype dev)
  | Some out =>
      TORCH_CHECK (bool_decide (scalar_type out = dtype)) DtypeMismatch;;
      TORCH_CHECK (bool_decide (device out = dev)) DeviceMismatch;;
      lift (resize_output out shape)
  end.

(** Modelled from the spec: [resize_reduction_with_indices]; the values have
    the element type [out_dtype], the indices are 64-bit signed integers. *)
Definition resize_reduction_with_indices (outputs : option Tensor * option Tensor)
    (self : Tensor) (dim : Z) (keepdim : bool) (out_dtype : ScalarType)
  : M (Tensor * Tensor) :=
  let shape := get_reduction_shape self dim keepdim in
  values ← set_output outputs.1 shape out_dtype (device self);
  indices ← set_output outputs.2 shape Long (device self);
  ret (values, indices).

(** [TORCH_PRECOMPUTE_META_FUNC2(max, dim)] and
    [TORCH_PRECOMPUTE_META_FUNC2(min, dim)], source lines 186-203: the
    normalised dimension and the two outputs. *)
Definition max_dim (self : Tensor) (dim : Z) (keepdim : bool)
    (outputs : option Tensor * option Tensor) : M (Z * (Tensor * Tensor)) :=
  dim ← maybe_wrap_dim dim (ATen.dim self);
  lift (zero_numel_check_dims self dim);;
  check_unsupported_complex self;;
  out ← resize_reduction_with_indices outputs self dim keepdim (scalar_type self);
  dim ← maybe_wrap_dim dim (ATen.dim self);
  ret (dim, out).

Definition min_dim (self : Tensor) (dim : Z) (keepdim : bool)
    (outputs : option Tensor * option Tensor) : M (Z * (Tensor * Tensor)) :=
  dim ← maybe_wrap_dim dim (ATen.dim self);
  lift (zero_numel_check_dims self dim);;
  check_unsupported_complex self;;
  out ← resize_reduction_with_indices outputs self dim keepdim (scalar_type self);
  dim ← maybe_wrap_dim dim (ATen.dim self);
  ret (dim, out).

Context {further_kernels : Kernels}.

(** [check_for_unsupported_isin_dtype], source lines 19-26. *)
Definition check_for_unsupported_isin_dtype (type : ScalarType) : M unit :=
  (* Bail out for dtypes unsupported by the sorting algorithm to keep the
     interface consistent. *)
  TORCH_CHECK
    (negb (bool_decide (type = Bool)) &&
     negb (bool_decide (type = BFloat16)) &&
     negb (bool_decide (type = ComplexFloat)) &&
     negb (bool_decide (type = ComplexDouble)))
    UnsupportedType.

(** [TORCH_META_FUNC2(isin, Tensor_Tensor)], source lines 144-150; the result
    is the output that [set_output_raw_strided] defines. *)
Definition isin_Tensor_Tensor (elements test_elements : Tensor)
    (assume_unique invert : bool) (maybe_get_output : option Tensor) : M Tensor :=
  check_for_unsupported_isin_dtype (scalar_type elements);;
  check_for_unsupported_isin_dtype (scalar_type test_elements);;
  set_output maybe_get_output (sizes elements) Bool (device elements).

(** [TORCH_META_FUNC2(isin, Tensor_Scalar)], source lines 152-158. *)
Definition isin_Tensor_Scalar (elements : Tensor) (test_elements : Scalar)
    (assume_unique invert : bool) (maybe_get_output : option Tensor) : M Tensor :=
  check_for_unsupported_isin_dtype (scalar_type elements);;
  check_for_unsupported_isin_dtype (Scalar_type test_elements);;
  set_output maybe_get_output (sizes elements) Bool (device elements).

(** [TORCH_META_FUNC2(isin, Scalar_Tensor)], source lines 160-166. *)
Definition isin_Scalar_Tensor (elements : Scalar) (test_elements : Tensor)
    (assume_unique invert : bool) (maybe_get_output : option Tensor) : M Tensor :=
  check_for_unsupported_isin_dtype (Scalar_type elements);;
  check_for_unsupported_isin_dtype (scalar_type test_elements);;
  set_output maybe_get_output [0%nat] Bool (device test_elements).

(** [maybe_get_output().defined() ? maybe_get_output().dtype() == at::kBool
    : true] *)
Definition output_is_boolean (maybe_get_output : option Tensor) : bool :=
  match maybe_get_output with
  | Some out => bool_decide (scalar_type out = Bool)
  | None => true
  end.

(** [TORCH_META_FUNC(isposinf)], source lines 168-173. *)
Definition isposinf (self : Tensor) (maybe_get_output : option Tensor)
  : M TensorIteratorBase :=
  TORCH_CHECK (negb (is_complex self)) UnsupportedType;;
  TORCH_CHECK (output_is_boolean maybe_get_output) DtypeMismatch;;
  lift (build_borrowing_unary_force_boolean_op maybe_get_output self).

(** [TORCH_META_FUNC(isneginf)], source lines 175-180. *)
Definition isneginf (self : Tensor) (maybe_get_output : option Tensor)
  : M TensorIteratorBase :=
  TORCH_CHECK (negb (is_complex self)) UnsupportedType;;
  TORCH_CHECK (output_is_boolean maybe_get_output) DtypeMismatch;;
  lift (build_borrowing_unary_force_boolean_op maybe_get_output self).

End meta.
End meta.

(** ** The operations (namespace [at::native], source lines 207-730) *)
Module native.
Import c10 ATen.

Section native.
Context `{TypeProperties} `{Backend}.

(** [isnan], source lines 290-292. *)
Definition isnan (self : Tensor) : M Tensor := at_ne self self.

Definition infinity : double := S754_infinity false.

(** The floating-point case of [isfinite], source lines 332-334; the dispatch
    macro raises for any other element type. *)
Definition isfinite_floating (self : Tensor) : M Tensor :=
  TORCH_CHECK (isFloatingType (scalar_type self)) UnsupportedType;;
  e ← at_eq self self;
  a ← at_abs self;
  n ← at_ne_Scalar a (HAS_d infinity);
  at_mul e n.

(** [isfinite], source lines 321-335.  The two recursive calls of the complex
    case are on real arrays and take the floating-point case. *)
Definition isfinite (self : Tensor) : M Tensor :=
  (* Note: Integral tensor values are always finite *)
  if isIntegralType (scalar_type self) true then at_ones_like self Bool
  (* Note: a complex value is finite iff both parts are finite *)
  else if is_complex self then
    re ← at_real self;
    finite_re ← isfinite_floating re;
    im ← at_imag self;
    finite_im ← isfinite_floating im;
    __iand__ finite_re finite_im
  else isfinite_floating self.

(** [isclose], source lines 238-288. *)
Definition isclose (self other : Tensor) (rtol atol : double) (equal_nan : bool)
  : M Tensor :=
  TORCH_CHECK (bool_decide (scalar_type self = scalar_type other)) DtypeMismatch;;
  TORCH_CHECK (negb (is_quantized self || is_quantized other)) UnsupportedType;;
  (* Checks that rtol and atol are non-negative *)
  TORCH_CHECK (double_ge rtol double_zero) InvalidArgument;;
  TORCH_CHECK (double_ge atol double_zero) InvalidArgument;;
  (* Computes equality closeness *)
  close ← at_eq self other;
  close ←
    (if equal_nan && (is_floating_point self || is_complex self) then
       self_nan ← isnan self;
       other_nan ← isnan other;
       both_nan ← __iand__ self_nan other_nan;
       __ior__ close both_nan
     else ret close);
  (* In case of zero tolerances the closeness inequality degenerates to an
     equality check. *)
  if double_eq rtol double_zero && double_eq atol double_zero then ret close
  else
    (* Computes allowed and actual error *)
    cast_self ←
      (if bool_decide (scalar_type self = Bool)
       then at_to self get_default_dtype else ret self);
    cast_other ←
      (if isIntegralType (scalar_type self) true
       then at_to other get_default_dtype else ret other);
    scaled ← at_mul_Scalar (HAS_d rtol) cast_other;
    scaled ← at_abs scaled;
    allowed_error ← at_add_Scalar (HAS_d atol) scaled;
    difference ← at_sub cast_self cast_other;
    actual_error ← at_abs difference;
    (* Computes finite closeness *)
    finite ← isfinite actual_error;
    within ← at_le actual_error allowed_error;
    finite_within ← __iand__ finite within;
    __ior__ close finite_within.

(** [mode_out], source lines 456-495.  Names are not modelled. *)
Definition mode_out (self : Tensor) (dim : Z) (keepdim : bool)
    (values indices : Tensor) : M (Tensor * Tensor) :=
  TORCH_CHECK (is_cpu (device self) || is_cuda (device self)) UnsupportedDevice;;
  TORCH_CHECK (bool_decide (layout self = Strided)) UnsupportedLayout;;
  TORCH_CHECK (bool_decide (device self = device values)) DeviceMismatch;;
  TORCH_CHECK (bool_decide (device self = device indices)) DeviceMismatch;;
  TORCH_CHECK (bool_decide (scalar_type self = scalar_type values)) DtypeMismatch;;
  TORCH_CHECK (bool_decide (scalar_type indices = Long)) DtypeMismatch;;
  dim ← meta.maybe_wrap_dim dim (ATen.dim self);
  if bool_decide (numel self = 0%nat) then
    sizes ← lift (get_zero_numel_tensor_size self dim keepdim);
    values ← lift (resize_output values sizes);
    indices ← lift (resize_output indices sizes);
    ret (values, indices)
  else
    '(trivial, values) ←
      lift (_dimreduce_return_trivial_no_ident values self dim keepdim);
    if trivial : bool then
      TORCH_CHECK (bool_decide (ATen.dim values = 0%nat)) InternalAssert;;
      indices ← lift (resize_output indices []);
      indices ← at_fill_ indices (HAS_i 0);
      ret (values, indices)
    else mode_stub values indices self dim keepdim.

(** [minmax_out_impl], source lines 497-514. *)
Definition minmax_out_impl (self : Tensor) (dim : Z) (keepdim : bool)
    (values indices : Tensor)
    (stub : Tensor → Tensor → Tensor → Z → bool → M (Tensor * Tensor))
  : M (Tensor * Tensor) :=
  if bool_decide (0 < numel self)%nat then
    if bool_decide (numel self = 1%nat) && bool_decide (ATen.dim self = 0%nat) then
      values ← at_fill_Tensor values self;
      indices ← at_fill_ indices (HAS_i 0);
      ret (values, indices)
    else stub values indices self dim keepdim
  else ret (values, indices).

(** [TORCH_IMPL_FUNC(max_out)] and [TORCH_IMPL_FUNC(min_out)], source lines
    516-532. *)
Definition max_out (self : Tensor) (dim : Z) (keepdim : bool)
    (values indices : Tensor) : M (Tensor * Tensor) :=
  minmax_out_impl self dim keepdim values indices max_stub.

Definition min_out (self : Tensor) (dim : Z) (keepdim : bool)
    (values indices : Tensor) : M (Tensor * Tensor) :=
  minmax_out_impl self dim keepdim values indices min_stub.

(** [x.toDouble() != x.toDouble()] *)
Definition toDouble_ne_itself (x : Scalar) : M bool :=
  a ← lift (toDouble x);
  b ← lift (toDouble x);
  ret (double_ne a b).

(** [TORCH_IMPL_FUNC(clamp_out)], source lines 558-577; [it] is the iterator
    of the meta step.  The second test of the disjunction is evaluated only
    when the first is false. *)
Definition clamp_out (it : TensorIteratorBase) (self : Tensor)
    (min max : option Scalar) (result : Tensor) : M Tensor :=
  match min, max with
  | Some min, Some max =>
      min_is_nan ← toDouble_ne_itself min;
      is_nan ← (if min_is_nan : bool then ret true else toDouble_ne_itself max);
      if is_nan : bool then at_fill_ result (HAS_d quiet_NaN)
      else clamp_scalar_stub it min max
  | None, Some max => clamp_max_scalar_stub it max
  | Some min, None => clamp_min_scalar_stub it min
  | None, None => ret result
  end.

(** [TORCH_IMPL_FUNC(clamp_Tensor_out)], source lines 579-589. *)
Definition clamp_Tensor_out (it : TensorIteratorBase) (self : Tensor)
    (min max : option Tensor) (result : Tensor) : M Tensor :=
  match min, max with
  | Some _, Some _ => clamp_stub it
  | Some _, None => maximum_stub it
  | None, Some _ => minimum_stub it
  | None, None => ret result
  end.

(** Modelled from the spec: [wrapped_scalar_tensor], the scalar as an array
    of rank 0. *)
Definition wrapped_scalar_tensor (s : Scalar) : Tensor :=
  with_data (empty [] (Scalar_type s) {| device_type := CPU; device_index := 0 |}) [s].

(** [TORCH_IMPL_FUNC(clamp_max_out)], source lines 591-601. *)
Definition clamp_max_out (it : TensorIteratorBase) (self : Tensor)
    (max : Scalar) (result : Tensor) : M Tensor :=
  is_nan ← toDouble_ne_itself max;
  if is_nan : bool then at_fill_Tensor result (wrapped_scalar_tensor max)
  else clamp_max_scalar_stub it max.


(** [TORCH_IMPL_FUNC(clamp_min_out)], source lines 608-615. *)
Definition clamp_min_out (it : TensorIteratorBase) (self : Tensor)
    (min : Scalar) (result : Tensor) : M Tensor :=
  is_nan ← toDouble_ne_itself min;
  if is_nan : bool then at_fill_ result min
  else clamp_min_scalar_stub it min.


(** *** The public entry points

    Modelled from the spec (section 2, control flow): a public entry point
    runs the meta step of the operation on its operands and on the output
    the variant designates (none: functional; [self]: in place; the buffer of
    the caller: [out=]), then the impl step on the iterator and the output
    the meta step produced. *)
Definition at_clamp_structured (maybe_get_output : option Tensor)
    (self : Tensor) (min max : option Scalar) : M Tensor :=
  it ← meta.clamp self min max maybe_get_output;
  clamp_out it self min max (output it).

Definition at_clamp (self : Tensor) (min max : option Scalar) : M Tensor :=
  at_clamp_structured None self min max.
Definition at_clamp_ (self : Tensor) (min max : option Scalar) : M Tensor :=
  at_clamp_structured (Some self) self min max.
Definition at_clamp_outf (self : Tensor) (min max : option Scalar)
    (result : Tensor) : M Tensor :=
  at_clamp_structured (Some result) self min max.

Definition at_clamp_Tensor_structured (maybe_get_output : option Tensor)
    (self : Tensor) (min max : option Tensor) : M Tensor :=
  it ← meta.clamp_Tensor self min max maybe_get_output;
  clamp_Tensor_out it self min max (output it).

Definition at_clamp_Tensor (self : Tensor) (min max : option Tensor) : M Tensor :=
  at_clamp_Tensor_structured None self min max.
Definition at_clamp__Tensor (self : Tensor) (min max : option Tensor) : M Tensor :=
  at_clamp_Tensor_structured (Some self) self min max.
Definition at_clamp_outf_Tensor (self : Tensor) (min max : option Tensor)
    (result : Tensor) : M Tensor :=
  at_clamp_Tensor_structured (Some result) self min max.

Definition at_clamp_min_structured (maybe_get_output : option Tensor)
    (self : Tensor) (min : Scalar) : M Tensor :=
  it ← meta.clamp_min self min maybe_get_output;
  clamp_min_out it self min (output it).

Definition at_clamp_max_structured (maybe_get_output : option Tensor)
    (self : Tensor) (max : Scalar) : M Tensor :=
  it ← meta.clamp_max self max maybe_get_output;
  clamp_max_out it self max (output it).

Definition at_clamp_min_ (self : Tensor) (min : Scalar) : M Tensor :=
  at_clamp_min_structured (Some self) self min.
Definition at_clamp_max_ (self : Tensor) (max : Scalar) : M Tensor :=
  at_clamp_max_structured (Some self) self max.



Definition at_max_dim_structured (outputs : option Tensor * option Tensor)
    (self : Tensor) (dim : Z) (keepdim : bool) : M (Tensor * Tensor) :=
  '(dim, out) ← meta.max_dim self dim keepdim outputs;
  max_out self dim keepdim out.1 out.2.

Definition at_min_dim_structured (outputs : option Tensor * option Tensor)
    (self : Tensor) (dim : Z) (keepdim : bool) : M (Tensor * Tensor) :=
  '(dim, out) ← meta.min_dim self dim keepdim outputs;
  min_out self dim keepdim out.1 out.2.

(** Modelled from the spec: [at::maximum] and [at::minimum], the elementwise
    primitives the array-bound clamp delegates to; their impl step runs the
    kernel on the iterator of the two operands. *)
Definition maximum_out (it : TensorIteratorBase) (self other result : Tensor)
  : M Tensor :=
  maximum_stub it.
Definition minimum_out (it : TensorIteratorBase) (self other result : Tensor)
  : M Tensor :=
  minimum_stub it.

Definition at_maximum (self other : Tensor) : M Tensor :=
  it ← lift (build_borrowing_binary_op None self other);
  maximum_out it self other (output it).
Definition at_minimum (self other : Tensor) : M Tensor :=
  it ← lift (build_borrowing_binary_op None self other);
  minimum_out it self other (output it).


(** [mode], source lines 450-454. *)
Definition mode (self : Tensor) (dim : Z) (keepdim : bool) : M (Tensor * Tensor) :=
  let values := empty [0%nat] (scalar_type self) (device self) in
  let indices := empty [0%nat] Long (device self) in
  mode_out self dim keepdim values indices.

(** The "clip" alias for clamp, source lines 622-645; the overloads on the
    type of the bounds get a name each. *)
Definition clip_out (self : Tensor) (min max : option Scalar) (result : Tensor)
  : M Tensor :=
  at_clamp_outf self min max result.

Definition clip_out_Tensor (self : Tensor) (min max : option Tensor)
    (result : Tensor) : M Tensor :=
  at_clamp_outf_Tensor self min max result.

Definition clip (self : Tensor) (min max : option Scalar) : M Tensor :=
  at_clamp self min max.

Definition clip_Tensor (self : Tensor) (min max : option Tensor) : M Tensor :=
  at_clamp_Tensor self min max.

Definition clip_ (self : Tensor) (min max : option Scalar) : M Tensor :=
  at_clamp_ self min max.

Definition clip__Tensor (self : Tensor) (min max : option Tensor) : M Tensor :=
  at_clamp__Tensor self min max.

Context {further_kernels : Kernels}.

(** [allclose], source lines 220-222. *)
Definition allclose (self other : Tensor) (rtol atol : double) (equal_nan : bool)
  : M bool :=
  close ← isclose self other rtol atol equal_nan;
  every ← at_all close;
  byte ← item_uint8 every;
  ret (negb (byte =? 0)).

(** [isreal], source lines 294-302. *)
Definition isreal (self : Tensor) : M Tensor :=
  (* Note: Integral and Floating tensor values are always real *)
  if isIntegralType (scalar_type self) true || isFloatingType (scalar_type self)
  then at_ones_like self Bool
  else
    im ← at_imag self;
    at_eq_Scalar im (HAS_i 0).

(** The floating-point case of [isinf], source lines 316-318; the dispatch
    macro raises for any other element type. *)
Definition isinf_floating (self : Tensor) : M Tensor :=
  TORCH_CHECK (isFloatingType (scalar_type self)) UnsupportedType;;
  a ← at_abs self;
  at_eq_Scalar a (HAS_d infinity).

(** [isinf], source lines 304-319.  The two recursive calls of the complex
    case are on real arrays and take the floating-point case. *)
Definition isinf (self : Tensor) : M Tensor :=
  (* Note: Integral tensor values are never infinite *)
  if isIntegralType (scalar_type self) true then at_zeros_like self Bool
  (* Note: a complex value is infinite when either part is infinite *)
  else if is_complex self then
    re ← at_real self;
    inf_re ← isinf_floating re;
    im ← at_imag self;
    inf_im ← isinf_floating im;
    __ior__ inf_re inf_im
  else isinf_floating self.

(** [where_self_out], source lines 391-416. *)
Definition where_self_out (condition self other out : Tensor) : M Tensor :=
  '(self_, other_) ←
    (if negb (bool_decide (scalar_type self = scalar_type other)) then
       let result_type := result_type_Tensor_Tensor self other in
       self_ ← at_to self result_type;
       other_ ← at_to other result_type;
       ret (self_, other_)
     else ret (self, other));
  (if bool_decide (scalar_type condition = Byte) then TORCH_WARN_ONCE
   else TORCH_CHECK (bool_decide (scalar_type condition = Bool)) UnsupportedType);;
  cond_bool ←
    (if bool_decide (scalar_type condition = Byte)
     then at_to condition Bool else ret condition);
  iter ← lift (build_where out cond_bool self_ other_);
  where_stub iter.

(** [where(condition, self, other)] on two arrays, source lines 418-423. *)
Definition where_self (condition self other : Tensor) : M Tensor :=
  let result_type := result_type_Tensor_Tensor self other in
  let ret := empty [0%nat] result_type (device self) in
  where_self_out condition self other ret.

(** [where] with a scalar [self], source lines 425-430. *)
Definition where_ScalarSelf (condition : Tensor) (self : Scalar) (other : Tensor)
  : M Tensor :=
  let result_type := result_type_Tensor_Scalar other self in
  self_converted ← at_scalar_tensor self result_type (device other);
  other_converted ← at_to other result_type;
  where_self condition self_converted other_converted.

(** [where] with a scalar [other], source lines 432-437. *)
Definition where_ScalarOther (condition self : Tensor) (other : Scalar)
  : M Tensor :=
  let result_type := result_type_Tensor_Scalar self other in
  other_converted ← at_scalar_tensor other result_type (device self);
  self_converted ← at_to self result_type;
  where_self condition self_converted other_converted.

(** [at::native::result_type(scalar, scalar)]. *)
Definition result_type_Scalar_Scalar (a b : Scalar) : ScalarType :=
  result_type_of_state
    (update_result_type_state_Scalar b
       (update_result_type_state_Scalar a ResultTypeState_init)).

(** [where] with two scalars, source lines 439-444. *)
Definition where_Scalar (condition : Tensor) (self other : Scalar) : M Tensor :=
  let result_type := result_type_Scalar_Scalar self other in
  other_t ← at_scalar_tensor other result_type (device condition);
  self_t ← at_scalar_tensor self result_type (device condition);
  where_self condition self_t other_t.

(** [TORCH_IMPL_FUNC(isposinf_out)], source lines 714-720. *)
Definition isposinf_out (it : TensorIteratorBase) (self result : Tensor)
  : M Tensor :=
  if isIntegralType (scalar_type self) true then at_fill_ result (HAS_b false)
  else isposinf_stub it.

(** [TORCH_IMPL_FUNC(isneginf_out)], source lines 722-728. *)
Definition isneginf_out (it : TensorIteratorBase) (self result : Tensor)
  : M Tensor :=
  if isIntegralType (scalar_type self) true then at_fill_ result (HAS_b false)
  else isneginf_stub it.

(** The entry points of [isposinf] and [isneginf]: the meta step, then the
    impl step on its iterator and output. *)
Definition at_isposinf_structured (maybe_get_output : option Tensor)
    (self : Tensor) : M Tensor :=
  it ← meta.isposinf self maybe_get_output;
  isposinf_out it self (output it).

Definition at_isneginf_structured (maybe_get_output : option Tensor)
    (self : Tensor) : M Tensor :=
  it ← meta.isneginf self maybe_get_output;
  isneginf_out it self (output it).

End native.
End native.

(** ** A reference implementation of the external collaborators

    Modelled from the spec: one implementation of the interfaces above, on
    which the operations can be run.  The statements about the operations
    hold for every implementation; this one supplies concrete inputs. *)
Module Reference.
Import c10 ATen.

(** *** Type promotion: bool < integer < floating < complex *)

Definition float_rank (t : ScalarType) : nat :=
  match t with
  | Half | BFloat16 | ComplexHalf => 1
  | Float | ComplexFloat => 2
  | Double | ComplexDouble => 3
  | _ => 0
  end.

Definition promote_float (a b : ScalarType) : ScalarType :=
  match a, b with
  | Half, BFloat16 | BFloat16, Half => Float
  | _, _ => if (float_rank a <? float_rank b)%nat then b else a
  end.

Definition int_rank (t : ScalarType) : nat :=
  match t with
  | Bool => 0 | Byte => 1 | Char => 1 | Short => 2 | Int => 3 | _ => 4
  end.

Definition promote_int (a b : ScalarType) : ScalarType :=
  match a, b with
  | Byte, Char | Char, Byte => Short
  | _, _ => if (int_rank a <? int_rank b)%nat then b else a
  end.

Definition complex_of (t : ScalarType) : ScalarType :=
  match float_rank t with
  | 1%nat => ComplexHalf
  | 3%nat => ComplexDouble
  | _ => ComplexFloat
  end.

Definition promoteTypes (a b : ScalarType) : ScalarType :=
  if bool_decide (a = b) then a
  else if isComplexType a || isComplexType b then
    complex_of
      (if (float_rank a <? float_rank b)%nat
       then b else if (float_rank b <? float_rank a)%nat then a
       else promote_float (toRealValueType a) (toRealValueType b))
  else if isFloatingType a && isFloatingType b then promote_float a b
  else if isFloatingType a then a
  else if isFloatingType b then b
  else promote_int a b.

Definition promote_skip_undefined (a b : ScalarType) : ScalarType :=
  if bool_decide (a = Undefined) then b
  else if bool_decide (b = Undefined) then a
  else promoteTypes a b.

(** A higher category wins over a lower one whatever the widths. *)
Definition combine_categories (higher lower : ScalarType) : ScalarType :=
  if isComplexType higher then higher
  else if isFloatingType higher then
    if isComplexType lower then promote_skip_undefined higher lower else higher
  else if bool_decide (higher = Bool) || isFloatingType lower || isComplexType lower
  then promote_skip_undefined higher lower
  else if negb (bool_decide (higher = Undefined)) then higher
  else lower.

(** The accumulator: the promoted type of the arrays of rank at least 1, of
    the arrays of rank 0, and of the scalars. *)
Record State := {
  dimResult : ScalarType;
  zeroResult : ScalarType;
  wrappedResult : ScalarType
}.

Definition default_dtype : ScalarType := Float.

Definition update_Tensor (t : Tensor) (s : State) : State :=
  if bool_decide (0 < dim t)%nat
  then {| dimResult := promote_skip_undefined (dimResult s) (scalar_type t);
          zeroResult := zeroResult s; wrappedResult := wrappedResult s |}
  else {| dimResult := dimResult s;
          zeroResult := promote_skip_undefined (zeroResult s) (scalar_type t);
          wrappedResult := wrappedResult s |}.

Definition update_Scalar (v : Scalar) (s : State) : State :=
  let current := Scalar_type v in
  let current :=
    if isComplexType current then complex_of default_dtype
    else if isFloatingType current then default_dtype
    else current in
  {| dimResult := dimResult s; zeroResult := zeroResult s;
     wrappedResult := promote_skip_undefined (wrappedResult s) current |}.

Definition result_type (s : State) : ScalarType :=
  combine_categories (dimResult s)
    (combine_categories (zeroResult s) (wrappedResult s)).

#[export] Instance type_properties : TypeProperties := {|
  ResultTypeState := State;
  ResultTypeState_init :=
    {| dimResult := Undefined; zeroResult := Undefined; wrappedResult := Undefined |};
  update_result_type_state := update_Tensor;
  update_result_type_state_Scalar := update_Scalar;
  result_type_of_state := result_type;
  get_default_dtype := default_dtype
|}.

(** *** Allocation and the iterator *)

Definition cpu : Device := {| device_type := CPU; device_index := 0 |}.

Definition make (id : nat) (shape : list nat) (t : ScalarType) (d : list Scalar)
  : Tensor :=
  {| unsafeGetTensorImpl := id; sizes := shape; scalar_type := t; device := cpu;
     layout := Strided; is_quantized := isQIntType t; data := d |}.

Definition cuda : Device := {| device_type := CUDA; device_index := 0 |}.

(** The array [t] placed on the device [dev] with the layout [l]. *)
Definition on (dev : Device) (l : Layout) (t : Tensor) : Tensor :=
  {| unsafeGetTensorImpl := unsafeGetTensorImpl t; sizes := sizes t;
     scalar_type := scalar_type t; device := dev; layout := l;
     is_quantized := is_quantized t; data := data t |}.

Definition zero_of (t : ScalarType) : Scalar := cast_to t (HAS_i 0).

Definition ref_empty (shape : list nat) (t : ScalarType) (dev : Device) : Tensor :=
  {| unsafeGetTensorImpl := 0; sizes := shape; scalar_type := t; device := dev;
     layout := Strided; is_quantized := false;
     data := replicate (numel_of shape) (zero_of t) |}.

Definition ref_resize_output (t : Tensor) (shape : list nat) : Except Tensor :=
  Ok (with_sizes t shape
        (take (numel_of shape)
           (data t ++ replicate (numel_of shape) (zero_of (scalar_type t))))).

Definition output_for (out : option Tensor) (shape : list nat) (t : ScalarType)
    (dev : Device) : Except Tensor :=
  match out with
  | None => Ok (ref_empty shape t dev)
  | Some o => ref_resize_output o shape
  end.

Definition ref_build_unary_op (out : option Tensor) (a : Tensor)
  : Except TensorIteratorBase :=
  match output_for out (sizes a) (scalar_type a) (device a) with
  | Ok o => Ok {| output := o; inputs := [a]; common_dtype := scalar_type a |}
  | Err e => Err e
  end.

Definition ref_build_binary_op (out : option Tensor) (a b : Tensor)
  : Except TensorIteratorBase :=
  match infer_size (sizes a) (sizes b) with
  | None => Err ShapeMismatch
  | Some shape =>
      let t := promoteTypes (scalar_type a) (scalar_type b) in
      match output_for out shape t (device a) with
      | Ok o => Ok {| output := o; inputs := [a; b]; common_dtype := t |}
      | Err e => Err e
      end
  end.

Definition ref_build (c : TensorIteratorConfig) : Except TensorIteratorBase :=
  match config_inputs c with
  | [] => Err InternalAssert
  | a :: rest =>
      match foldr (λ t s, s ≫= infer_size (sizes t)) (Some (sizes a)) rest with
      | None => Err ShapeMismatch
      | Some shape =>
          let t := foldr (λ x, promoteTypes (scalar_type x)) (scalar_type a) rest in
          match output_for (config_output c) shape t (device a) with
          | Ok o => Ok {| output := o; inputs := a :: rest; common_dtype := t |}
          | Err e => Err e
          end
      end
  end.

(** *** The kernels *)

Definition value_lt (x y : Scalar) : bool :=
  match x, y with
  | HAS_i a, HAS_i b => a <? b
  | HAS_b a, HAS_b b => negb a && b
  | HAS_z _ _, _ | _, HAS_z _ _ => false
  | _, _ => SFltb (real_part x) (real_part y)
  end.

(** [std::max] and [std::min] on the values of one element type. *)
Definition std_max (a b : Scalar) : Scalar := if value_lt a b then b else a.
Definition std_min (a b : Scalar) : Scalar := if value_lt b a then b else a.

(** The elementwise [maximum] and [minimum] kernels return a NaN operand. *)
Definition propagate_nan (f : Scalar → Scalar → Scalar) (a b : Scalar) : Scalar :=
  if value_ne a a then a else if value_ne b b then b else f a b.

(** The [i]-th input of an iterator, expanded to the shape of the output and
    converted to the common element type; the output holding new elements. *)
Definition operand (it : TensorIteratorBase) (i : nat) : Except (list Scalar) :=
  match inputs it !! i with
  | Some t =>
      match expand (sizes t) (sizes (output it)) (data t) with
      | Some d => Ok (convert (scalar_type t) (common_dtype it) <$> d)
      | None => Err InternalAssert
      end
  | None => Err InternalAssert
  end.

Definition store (it : TensorIteratorBase) (d : list Scalar) : Tensor :=
  with_data (output it)
    (convert (common_dtype it) (scalar_type (output it)) <$> d).

Definition bound (it : TensorIteratorBase) (s : Scalar) : Scalar :=
  convert (Scalar_type s) (common_dtype it) s.

Definition ref_clamp_scalar (it : TensorIteratorBase) (min max : Scalar)
  : Except Tensor :=
  a ← operand it 0;
  Ok (store it ((λ x, std_min (std_max x (bound it min)) (bound it max)) <$> a)).

Definition ref_clamp_min_scalar (it : TensorIteratorBase) (min : Scalar)
  : Except Tensor :=
  a ← operand it 0; Ok (store it ((λ x, std_max x (bound it min)) <$> a)).

Definition ref_clamp_max_scalar (it : TensorIteratorBase) (max : Scalar)
  : Except Tensor :=
  a ← operand it 0; Ok (store it ((λ x, std_min x (bound it max)) <$> a)).

Definition ref_maximum (it : TensorIteratorBase) : Except Tensor :=
  a ← operand it 0; b ← operand it 1;
  Ok (store it (zip_with (propagate_nan std_max) a b)).

Definition ref_minimum (it : TensorIteratorBase) : Except Tensor :=
  a ← operand it 0; b ← operand it 1;
  Ok (store it (zip_with (propagate_nan std_min) a b)).

Definition ref_clamp (it : TensorIteratorBase) : Except Tensor :=
  a ← operand it 0; lo ← operand it 1; hi ← operand it 2;
  Ok (store it
        (zip_with (propagate_nan std_min) (zip_with (propagate_nan std_max) a lo) hi)).

(** The slices of a row-major array along dimension [dim]. *)
Definition slices (shape : list nat) (dim : nat) (d : list Scalar)
  : list (list Scalar) :=
  let n := default 1%nat (shape !! dim) in
  let inner := numel_of (drop (S dim) shape) in
  let outer := numel_of (take dim shape) in
  (λ o, (λ i, default (HAS_i 0)
                (d !! (o / inner * n * inner + i * inner + o `mod` inner)%nat))
        <$> seq 0 n)
  <$> seq 0 (outer * inner).

(** The first position of a slice no later position is better than. *)
Fixpoint arg_best (better : Scalar → Scalar → bool) (l : list Scalar) (i : nat)
    (best : Scalar * nat) : Scalar * nat :=
  match l with
  | [] => best
  | x :: l' =>
      arg_best better l' (S i) (if better x best.1 then (x, i) else best)
  end.

Definition pick (better : Scalar → Scalar → bool) (l : list Scalar) : Scalar * nat :=
  match l with
  | [] => (HAS_i 0, 0%nat)
  | x :: l' => arg_best better l' 1 (x, 0%nat)
  end.

Definition reduce_with_indices (better : Scalar → Scalar → bool)
    (values indices self : Tensor) (dim : Z) (keepdim : bool)
  : Except (Tensor * Tensor) :=
  let picks := pick better <$> slices (sizes self) (Z.to_nat dim) (data self) in
  Ok (with_data values (fst <$> picks),
      with_data indices ((λ p, HAS_i (Z.of_nat p.2)) <$> picks)).

(** The lowest index among the greatest (smallest) elements; a NaN counts as
    the greatest (smallest). *)
Definition better_max (x best : Scalar) : bool :=
  negb (value_ne best best) && (value_ne x x || value_lt best x).
Definition better_min (x best : Scalar) : bool :=
  negb (value_ne best best) && (value_ne x x || value_lt x best).

(** The most frequent value of a slice, the smallest one among several, at
    its last position. *)
Definition occurrences (l : list Scalar) (x : Scalar) : nat :=
  length (filter (λ y, value_eq x y = true) l).
Definition pick_mode (l : list Scalar) : Scalar * nat :=
  let v :=
    (pick (λ x best, (occurrences l best <? occurrences l x)%nat
                     || ((occurrences l best =? occurrences l x)%nat
                         && value_lt x best)) l).1 in
  (v, (arg_best (λ x _, value_eq x v) l 0 (v, 0%nat)).2).

Definition ref_mode (values indices self : Tensor) (dim : Z) (keepdim : bool)
  : Except (Tensor * Tensor) :=
  let picks := pick_mode <$> slices (sizes self) (Z.to_nat dim) (data self) in
  let shape :=
    if keepdim then <[Z.to_nat dim := 1%nat]> (sizes self)
    else delete (Z.to_nat dim) (sizes self) in
  Ok (with_sizes values shape (fst <$> picks),
      with_sizes indices shape ((λ p, HAS_i (Z.of_nat p.2)) <$> picks)).

(** *** The reduction helpers *)

Definition ref_zero_numel_check_dims (self : Tensor) (dim : Z) : Except unit :=
  if bool_decide (ATen.dim self = 0%nat) then
    if (dim =? 0) || (dim =? -1) then Ok () else Err IndexOutOfRange
  else if bool_decide (sizes self !! Z.to_nat dim = Some 0%nat)
  then Err EmptyReductionDim else Ok ().

Definition ref_get_zero_numel_tensor_size (self : Tensor) (dim : Z) (keepdim : bool)
  : Except (list nat) :=
  if negb (bool_decide (numel self = 0%nat)) then Err InternalAssert
  else
    ref_zero_numel_check_dims self dim;;
    Ok (if keepdim then <[Z.to_nat dim := 1%nat]> (sizes self)
        else delete (Z.to_nat dim) (sizes self)).

Definition ref_dimreduce_return_trivial_no_ident (result self : Tensor) (dim : Z)
    (keepdim : bool) : Except (bool * Tensor) :=
  if bool_decide (numel self = 1%nat) && bool_decide (ATen.dim self = 0%nat) then
    Ok (true,
        with_sizes result []
          (convert (scalar_type self) (scalar_type result) <$> take 1 (data self)))
  else if bool_decide (numel self = 0%nat) then Err InvalidArgument
  else Ok (false, result).

(** The arithmetic of [isclose], on operands converted to the element type:
    floating-point numbers in the precision of the type, complex numbers by
    their parts, booleans as 0 and 1 with any non-zero result true, integers
    with the wrap-around of the type. *)
Inductive Operation := Add | Sub | Mul.

Definition on_doubles (op : Operation) : Z → Z → double → double → double :=
  match op with Add => SFadd | Sub => SFsub | Mul => SFmul end.

Definition on_integers (op : Operation) : Z → Z → Z :=
  match op with Add => Z.add | Sub => Z.sub | Mul => Z.mul end.

Definition arith (op : Operation) (t : ScalarType) (x y : Scalar) : Scalar :=
  let f := on_doubles op (prec_of t) (emax_of t) in
  let x := cast_to t x in
  let y := cast_to t y in
  if isFloatingType t then HAS_d (f (real_part x) (real_part y))
  else if isComplexType t then
    match op with
    | Mul =>
        let mul := SFmul (prec_of t) (emax_of t) in
        HAS_z (SFsub (prec_of t) (emax_of t)
                 (mul (real_part x) (real_part y)) (mul (imag_part x) (imag_part y)))
              (SFadd (prec_of t) (emax_of t)
                 (mul (real_part x) (imag_part y)) (mul (imag_part x) (real_part y)))
    | _ => HAS_z (f (real_part x) (real_part y)) (f (imag_part x) (imag_part y))
    end
  else if bool_decide (t = Bool)
  then HAS_b (negb (on_integers op (Z.b2z (truth x)) (Z.b2z (truth y)) =? 0))
  else HAS_i (wrap_integer t (on_integers op (integer_part x) (integer_part y))).

Definition ref_abs (t : ScalarType) (x : Scalar) : Scalar :=
  match x with
  | HAS_d d => HAS_d (SFabs d)
  | HAS_i i => HAS_i (wrap_integer t (Z.abs i))
  | HAS_b b => HAS_b b
  | HAS_z re im =>
      HAS_d (SFsqrt (prec_of t) (emax_of t)
               (SFadd (prec_of t) (emax_of t)
                  (SFmul (prec_of t) (emax_of t) re re)
                  (SFmul (prec_of t) (emax_of t) im im)))
  end.

#[export] Instance backend : Backend := {|
  empty := ref_empty;
  empty_sizes := λ _ _ _, eq_refl;
  empty_scalar_type := λ _ _ _, eq_refl;
  empty_device := λ _ _ _, eq_refl;
  empty_numel := λ s t _, length_replicate (numel_of s) (zero_of t);
  resize_output := ref_resize_output;
  resize_output_sizes := λ t s t' E,
    match E in _ = r return match r with Ok x => sizes x = s | Err _ => True end
    with eq_refl => eq_refl end;
  resize_output_scalar_type := λ t s t' E,
    match E in _ = r
      return match r with Ok x => scalar_type x = scalar_type t | Err _ => True end
    with eq_refl => eq_refl end;
  build := ref_build;
  build_unary_op := ref_build_unary_op;
  build_borrowing_unary_op := ref_build_unary_op;
  build_borrowing_binary_op := ref_build_binary_op;
  zero_numel_check_dims := ref_zero_numel_check_dims;
  get_zero_numel_tensor_size := ref_get_zero_numel_tensor_size;
  _dimreduce_return_trivial_no_ident := ref_dimreduce_return_trivial_no_ident;
  clamp_kernel := ref_clamp;
  clamp_scalar_kernel := ref_clamp_scalar;
  clamp_min_scalar_kernel := ref_clamp_min_scalar;
  clamp_max_scalar_kernel := ref_clamp_max_scalar;
  maximum_kernel := ref_maximum;
  minimum_kernel := ref_minimum;
  max_kernel := reduce_with_indices better_max;
  min_kernel := reduce_with_indices better_min;
  mode_kernel := ref_mode;
  abs_value := ref_abs;
  mul_value := arith Mul;
  add_value := arith Add;
  sub_value := arith Sub;
  le_value := λ t x y, negb (value_lt y x) && negb (value_ne x x) && negb (value_ne y y)
|}.

(** *** The further builders and kernels *)

Definition ref_build_force_boolean (out : option Tensor) (a : Tensor)
  : Except TensorIteratorBase :=
  match out with
  | Some o =>
      if bool_decide (scalar_type o = Bool) then
        match ref_resize_output o (sizes a) with
        | Ok o => Ok {| output := o; inputs := [a]; common_dtype := scalar_type a |}
        | Err e => Err e
        end
      else Err DtypeMismatch
  | None =>
      Ok {| output := ref_empty (sizes a) Bool (device a); inputs := [a];
            common_dtype := scalar_type a |}
  end.

Definition ref_build_where (out condition a b : Tensor)
  : Except TensorIteratorBase :=
  match infer_size (sizes condition) (sizes a) ≫= infer_size (sizes b) with
  | None => Err ShapeMismatch
  | Some shape =>
      match ref_resize_output out shape with
      | Ok o =>
          Ok {| output := o; inputs := [condition; a; b];
                common_dtype := scalar_type a |}
      | Err e => Err e
      end
  end.

(** The [i]-th input of an iterator, expanded to the shape of the output. *)
Definition expanded (it : TensorIteratorBase) (i : nat) : Except (list Scalar) :=
  match inputs it !! i with
  | Some t =>
      match expand (sizes t) (sizes (output it)) (data t) with
      | Some d => Ok d
      | None => Err InternalAssert
      end
  | None => Err InternalAssert
  end.

Definition ref_where (it : TensorIteratorBase) : Except Tensor :=
  c ← expanded it 0; a ← expanded it 1; b ← expanded it 2;
  Ok (with_data (output it)
        (zip_with (λ c xy, if truth c then xy.1 else xy.2) c (zip a b))).

Definition ref_isposinf (it : TensorIteratorBase) : Except Tensor :=
  a ← expanded it 0;
  Ok (with_data (output it)
        ((λ x, HAS_b (value_eq x (HAS_d (S754_infinity false)))) <$> a)).

Definition ref_isneginf (it : TensorIteratorBase) : Except Tensor :=
  a ← expanded it 0;
  Ok (with_data (output it)
        ((λ x, HAS_b (value_eq x (HAS_d (S754_infinity true)))) <$> a)).

#[export] Instance kernels : Kernels.
Proof.
  refine {|
    build_borrowing_unary_force_boolean_op := ref_build_force_boolean;
    build_where := ref_build_where;
    where_kernel := ref_where;
    isposinf_kernel := ref_isposinf;
    isneginf_kernel := ref_isneginf
  |}.
  intros [o|] self it; unfold ref_build_force_boolean.
  - destruct (bool_decide (scalar_type o = Bool)) eqn:Hb; [|discriminate].
    apply bool_decide_eq_true in Hb. simpl. intros [= <-]. by simpl.
  - intros [= <-]. by simpl.
Defined.

(** Multiplication, with the logical "and" on booleans. *)
Definition ref_mul (t : ScalarType) (x y : Scalar) : Scalar :=
  if bool_decide (t = Bool) then HAS_b (truth x && truth y)
  else arith Mul t x y.

(** The reference implementation with [ref_mul] for the multiplication. *)
Definition backend_logical : Backend := {|
  empty := ref_empty;
  empty_sizes := λ _ _ _, eq_refl;
  empty_scalar_type := λ _ _ _, eq_refl;
  empty_device := λ _ _ _, eq_refl;
  empty_numel := λ s t _, length_replicate (numel_of s) (zero_of t);
  resize_output := ref_resize_output;
  resize_output_sizes := λ t s t' E,
    match E in _ = r return match r with Ok x => sizes x = s | Err _ => True end
    with eq_refl => eq_refl end;
  resize_output_scalar_type := λ t s t' E,
    match E in _ = r
      return match r with Ok x => scalar_type x = scalar_type t | Err _ => True end
    with eq_refl => eq_refl end;
  build := ref_build;
  build_unary_op := ref_build_unary_op;
  build_borrowing_unary_op := ref_build_unary_op;
  build_borrowing_binary_op := ref_build_binary_op;
  zero_numel_check_dims := ref_zero_numel_check_dims;
  get_zero_numel_tensor_size := ref_get_zero_numel_tensor_size;
  _dimreduce_return_trivial_no_ident := ref_dimreduce_return_trivial_no_ident;
  clamp_kernel := ref_clamp;
  clamp_scalar_kernel := ref_clamp_scalar;
  clamp_min_scalar_kernel := ref_clamp_min_scalar;
  clamp_max_scalar_kernel := ref_clamp_max_scalar;
  maximum_kernel := ref_maximum;
  minimum_kernel := ref_minimum;
  max_kernel := reduce_with_indices better_max;
  min_kernel := reduce_with_indices better_min;
  mode_kernel := ref_mode;
  abs_value := ref_abs;
  mul_value := ref_mul;
  add_value := arith Add;
  sub_value := arith Sub;
  le_value := λ t x y, negb (value_lt y x) && negb (value_ne x x) && negb (value_ne y y)
|}.

End Reference.

(** ** Set membership: [isin]

    [isin] works on the raveled operands.  An operand is its element type
    and the list of its elements in row-major order, a boolean mask a
    [list bool]; positions are natural numbers. *)
Module Isin.
Import c10 ATen.

(** An operand as the algorithms see it ([ravel]). *)
Record Array := { dtype : ScalarType; values : list Scalar }.

Definition ravel (t : Tensor) : Array :=
  {| dtype := scalar_type t; values := data t |}.

(** The elements of an array have the tag of its element type. *)
Definition well_typed (a : Array) : Prop :=
  Forall (has_type (dtype a)) (values a).

(** The element types whose values are numbers of one order: the integers
    and the floating-point numbers. *)
Definition is_ordered (t : ScalarType) : bool :=
  isIntegralType t false || isFloatingType t.

(** Modelled from the spec: the array primitives [isin_sorting] consumes and
    whose code is outside this file.

    [_unique a return_inverse] is [at::_unique(a, /*sorted=*/false,
    return_inverse)]: values of [a], no two of them equal, in an order of
    its own choosing, every value of [a] that equals itself being equal to
    one of them; and, on request, the inverse mapping from each position of
    [a] to the position of its value among them.  Equality is the equality
    [==] of the element type, so a NaN equals nothing, itself included, and
    nothing is said of where the inverse mapping sends it.

    [sort a] is [a.sort(/*stable=*/true, /*dim=*/0, /*descending=*/false)]:
    the values of [a] rearranged, and the position each of them had.  On
    ordered values, the values between two equal values are equal to them,
    and equal values keep their relative order.

    [promoted s t] is the element type [at::result_type] gives two arrays of
    element types [s] and [t]; [at::cat] converts its operands to it, and so
    does the brute-force kernel.

    [promoted_Scalar t s] is the element type [at::result_type] gives an
    array of element type [t] and the scalar [s]: the type of the array when
    the scalar is of that type.

    [empty_like_mask n] is the content of a freshly allocated, not yet
    written mask of [n] cells. *)
Class Primitives := {
  _unique : Array → bool → Array * list nat;
  sort : Array → Array * list nat;
  promoted : ScalarType → ScalarType → ScalarType;
  promoted_Scalar : ScalarType → Scalar → ScalarType;
  empty_like_mask : nat → list bool;
  _unique_dtype a r : dtype (_unique a r).1 = dtype a;
  _unique_subseteq a r u : u ∈ values (_unique a r).1 → u ∈ values a;
  _unique_distinct a r i j u v :
    values (_unique a r).1 !! i = Some u →
    values (_unique a r).1 !! j = Some v →
    value_eq u v = true → i = j;
  _unique_complete a r x :
    x ∈ values a → value_eq x x = true →
    ∃ u, u ∈ values (_unique a r).1 ∧ value_eq x u = true;
  _unique_inverse a j x :
    values a !! j = Some x → value_eq x x = true →
    ∃ k u, (_unique a true).2 !! j = Some k ∧
           values (_unique a true).1 !! k = Some u ∧ value_eq x u = true;
  _unique_inverse_length a : length (_unique a true).2 = length (values a);
  sort_order a : (sort a).2 ≡ₚ seq 0 (length (values a));
  sort_length a : length (values (sort a).1) = length (values a);
  sort_values a i p :
    (sort a).2 !! i = Some p → values (sort a).1 !! i = values a !! p;
  sort_grouped a i j k x y z :
    is_ordered (dtype a) = true → well_typed a →
    (i < j)%nat → (j < k)%nat →
    values (sort a).1 !! i = Some x →
    values (sort a).1 !! j = Some y →
    values (sort a).1 !! k = Some z →
    value_eq x z = true → value_eq x y = true;
  sort_stable a i j x y p q :
    is_ordered (dtype a) = true → well_typed a →
    (i < j)%nat →
    values (sort a).1 !! i = Some x → values (sort a).1 !! j = Some y →
    value_eq x y = true →
    (sort a).2 !! i = Some p → (sort a).2 !! j = Some q → (p < q)%nat;
  promoted_same t : promoted t t = t;
  promoted_Scalar_same t s : Scalar_type s = t → promoted_Scalar t s = t;
  empty_like_mask_length n : length (empty_like_mask n) = n
}.

(** Modelled from the spec: [std::pow] of the C++ standard library, on
    doubles. *)
Class Cmath := { std_pow : double → double → double }.

(** Modelled from the spec: [Tensor::slice(0, start, end)] for the two uses
    of the source, [slice(0, 1, None)] and [slice(0, 0, -1)], and
    [slice(0, 0, n)]. *)
Definition slice_from_1 {A} (l : list A) : list A := drop 1 l.
Definition slice_to_last {A} (l : list A) : list A := take (length l - 1) l.
Definition slice_to {A} (n : nat) (l : list A) : list A := take n l.

(** Elementwise [eq] and [ne] of two 1-D tensors of the same length and
    element type. *)
Definition eq_tensor (a b : list Scalar) : list bool := zip_with value_eq a b.
Definition ne_tensor (a b : list Scalar) : list bool := zip_with value_ne a b.

(** [t.slice(0, 0, -1).copy_(src)]: the cells of the view are overwritten,
    the last cell of [t] is left as it was. *)
Definition copy_to_slice_to_last {A} (t src : list A) : list A :=
  src ++ drop (length src) t.

(** [t.index_put_({-1}, v)]: the last cell is written; an empty tensor has no
    cell at index -1 and the call raises. *)
Definition index_put_last {A} (t : list A) (v : A) : option (list A) :=
  match length t with
  | O => None
  | S n => Some (<[n:=v]> t)
  end.

(** [self.index_copy_(0, index, source)]: [self[index[i]] = source[i]] for
    every [i], in order; an index out of range raises, and so do an [index]
    and a [source] of different lengths. *)
Fixpoint index_copy_ {A} (self : list A) (index : list nat) (source : list A)
  : option (list A) :=
  match index, source with
  | [], [] => Some self
  | i :: index', s :: source' =>
      if decide (i < length self)%nat
      then index_copy_ (<[i:=s]> self) index' source'
      else None
  | _, _ => None
  end.

(** [at::index(t, {idx})]: gather; an index out of range raises. *)
Definition index {A} (t : list A) (idx : list nat) : option (list A) :=
  mapM (λ i, t !! i) idx.

(** [out.copy_(src.view_as(out))] on the raveled data: the number of elements
    must agree. *)
Definition copy_ {A} (out src : list A) : option (list A) :=
  if decide (length src = length out) then Some src else None.

(** [out.fill_(v)]. *)
Definition fill_ {A} (out : list A) (v : A) : list A :=
  replicate (length out) v.

(** The double nearest to 0.145, [0x1.28f5c28f5c28fp-3]. *)
Definition exponent_0_145 : double := S754_finite false 5224175567749775 (-55).

(** The two algorithms [isin_Tensor_Tensor_out] chooses between. *)
Inductive Path := BruteForce | SortBased.

Section Sorting.
Context `{Primitives} `{Cmath}.

(** Modelled from the spec: [at::cat] of two 1-D tensors; both are converted
    to their common element type. *)
Definition cat (a b : Array) : Array :=
  let t := promoted (dtype a) (dtype b) in
  {| dtype := t;
     values := (convert (dtype a) t <$> values a)
               ++ (convert (dtype b) t <$> values b) |}.

(** Modelled from the spec: the brute-force kernel behind
    [isin_default_stub].  It compares in the common element type of the two
    operands; starting from the mask it is given, it flips a cell to
    [not invert] when the element equals any test element. *)
Definition isin_default_stub
    (elements test_elements : Array) (invert : bool) (out : list bool)
  : list bool :=
  let t := promoted (dtype elements) (dtype test_elements) in
  let test := convert (dtype test_elements) t <$> values test_elements in
  zip_with
    (λ e o, if existsb (value_eq (convert (dtype elements) t e)) test
            then negb invert else o)
    (values elements) out.

(** [isin_sorting], the sorting-based algorithm (source lines 342-389).  The
    result is the new content of [out], or [None] when a primitive raises. *)
Definition isin_sorting
    (elements test_elements : Array) (assume_unique invert : bool)
    (out : list bool) : option (list bool) :=
  (* 1. unique elements and unique test elements, in 1-D form *)
  let '(elements_flat, test_elements_flat, unique_order) :=
    if assume_unique then (elements, test_elements, [])
    else
      let '(elements_flat, unique_order) := _unique elements true in
      let '(test_elements_flat, _) := _unique test_elements false in
      (elements_flat, test_elements_flat, unique_order) in
  (* 2. stable sort of the concatenation *)
  let all_elements := cat elements_flat test_elements_flat in
  let '(sorted_elements, sorted_order) := sort all_elements in
  (* 3. mask of adjacent duplicates *)
  let duplicate_mask := empty_like_mask (length (values sorted_elements)) in
  let sorted_except_first := slice_from_1 (values sorted_elements) in
  let sorted_except_last := slice_to_last (values sorted_elements) in
  let duplicate_mask :=
    copy_to_slice_to_last duplicate_mask
      (if invert then ne_tensor sorted_except_first sorted_except_last
       else eq_tensor sorted_except_first sorted_except_last) in
  duplicate_mask ← index_put_last duplicate_mask invert;
  (* 4. back to the order before the sort *)
  let mask := empty_like_mask (length duplicate_mask) in
  mask ← index_copy_ mask sorted_order duplicate_mask;
  (* 5. back to the order before unique *)
  if assume_unique then copy_ out (slice_to (length (values elements)) mask)
  else index mask unique_order ≫= copy_ out.

(** The brute-force branch of [isin_Tensor_Tensor_out]. *)
Definition isin_brute_force
    (elements test_elements : Array) (invert : bool) (out : list bool)
  : list bool :=
  isin_default_stub elements test_elements invert (fill_ out invert).

(** The size heuristic of [isin_Tensor_Tensor_out] (source lines 686-687),
    [static_cast<int64_t>(10.0f * std::pow(static_cast<double>(n), 0.145))],
    in double precision as the source computes it: the number of elements
    is rounded to a double, [std::pow] is applied to it and to the double
    nearest to 0.145, the result is multiplied by 10 with one rounding, and
    the conversion to [int64_t] drops the fractional part. *)
Definition isin_bound (numel : Z) : double :=
  SFmul 53 1024 (double_of_Z 10) (std_pow (double_of_Z numel) exponent_0_145).

Definition isin_threshold (numel : Z) : Z := trunc_double (isin_bound numel).

Definition isin_select (elements_numel test_elements_numel : Z) : Path :=
  if test_elements_numel <? isin_threshold elements_numel
  then BruteForce else SortBased.

(** [isin_Tensor_Tensor_out] (source lines 677-693) with the outcome of the
    size test as a parameter: empty [elements] return at once, then the
    chosen branch runs. *)
Definition isin_Tensor_Tensor_out_on (path : Path)
    (elements test_elements : Array) (assume_unique invert : bool)
    (out : list bool) : option (list bool) :=
  if decide (length (values elements) = 0%nat) then Some out
  else
    match path with
    | BruteForce => Some (isin_brute_force elements test_elements invert out)
    | SortBased => isin_sorting elements test_elements assume_unique invert out
    end.

Definition isin_Tensor_Tensor_out
    (elements test_elements : Array) (assume_unique invert : bool)
    (out : list bool) : option (list bool) :=
  isin_Tensor_Tensor_out_on
    (isin_select (Z.of_nat (length (values elements)))
                 (Z.of_nat (length (values test_elements))))
    elements test_elements assume_unique invert out.



(** Modelled from the spec: [wrapped_scalar_tensor], the scalar as an array
    of one element, of the type of its tag. *)
Definition wrapped_scalar_tensor (s : Scalar) : Array :=
  {| dtype := Scalar_type s; values := [s] |}.


End Sorting.
End Isin.

(** * Properties *)

(** ** The monad *)
Module MonadFacts.
Import c10 ATen.

Lemma M_eta {A} (m : M A) : mkM (outcome m) (trace m) = m.
Proof. by destruct m. Qed.

Lemma bind_ret_l {A B} (a : A) (f : A → M B) : ret a ≫= f = f a.
Proof. unfold mbind, M_bind. simpl. apply M_eta. Qed.

Lemma bind_lift_Ok {A B} (a : A) (f : A → M B) : lift (Ok a) ≫= f = f a.
Proof. apply bind_ret_l. Qed.

Lemma bind_raise {A B} (e : ErrorKind) (tr : list string) (f : A → M B) :
  mkM (Err e) tr ≫= f = mkM (Err e) tr.
Proof. done. Qed.

Lemma bind_check_true {B} (kind : ErrorKind) (f : unit → M B) :
  TORCH_CHECK true kind ≫= f = f ().
Proof. apply bind_ret_l. Qed.

Lemma bind_check_false {B} (kind : ErrorKind) (f : unit → M B) :
  TORCH_CHECK false kind ≫= f = mkM (Err kind) [].
Proof. done. Qed.

Lemma bind_Ok {A B} (a : A) tr (f : A → M B) :
  mkM (Ok a) tr ≫= f = mkM (outcome (f a)) (tr ++ trace (f a)).
Proof. done. Qed.

Lemma bind_call_Ok {A B} name (a : A) (f : A → M B) :
  call name (Ok a) ≫= f = mkM (outcome (f a)) (name :: trace (f a)).
Proof. done. Qed.

Lemma bind_call_Err {A B} name e (f : A → M B) :
  call name (Err e) ≫= f = mkM (Err e) [name].
Proof. done. Qed.

Lemma bind_Ok_inv {A B} (m : M A) (f : A → M B) (b : B) tr :
  m ≫= f = mkM (Ok b) tr →
  ∃ a tr1 tr2, m = mkM (Ok a) tr1 ∧ f a = mkM (Ok b) tr2 ∧ tr = tr1 ++ tr2.
Proof.
  destruct m as [[a|e] tr1]; [|done].
  unfold mbind, M_bind. simpl. destruct (f a) as [o tr2] eqn:Hf. simpl.
  intros [= -> <-]. by exists a, tr1, tr2.
Qed.

Lemma check_Ok_inv cond kind (u : unit) tr :
  TORCH_CHECK cond kind = mkM (Ok u) tr → cond = true ∧ tr = [].
Proof. destruct cond; [|done]. by intros [= <-]. Qed.

Lemma lift_Ok_inv {A} (r : Except A) (a : A) tr :
  lift r = mkM (Ok a) tr → r = Ok a ∧ tr = [].
Proof. by intros [= -> <-]. Qed.

Lemma ret_Ok_inv {A} (a b : A) tr : ret a = mkM (Ok b) tr → a = b ∧ tr = [].
Proof. by intros [= -> <-]. Qed.

Lemma bind_assoc {A B C} (m : M A) (f : A → M B) (g : B → M C) :
  (m ≫= f) ≫= g = m ≫= (λ a, f a ≫= g).
Proof.
  destruct m as [[a|e] tr]; [|done].
  unfold mbind, M_bind; simpl.
  destruct (f a) as [[b|e] tr']; simpl; [|done].
  by rewrite app_assoc.
Qed.

End MonadFacts.



(** ** [isin]: the two algorithms *)
Module IsinFacts.
Import c10 ATen Isin.

(** *** Equality of values *)

(** Two doubles are equal when they are the same number; the two zeros are
    equal, a NaN is equal to nothing. *)
Definition same_double (a b : double) : Prop :=
  match a, b with
  | S754_zero _, S754_zero _ => True
  | S754_infinity s, S754_infinity s' => s = s'
  | S754_finite s m e, S754_finite s' m' e' => s = s' ∧ m = m' ∧ e = e'
  | _, _ => False
  end.

Lemma double_eq_same a b : double_eq a b = true ↔ same_double a b.
Proof.
  unfold double_eq, SFeqb.
  destruct a as [[]|[]| |[] ma ea], b as [[]|[]| |[] mb eb]; simpl;
    try done; try (split; [done|by intros [? _]]);
    destruct (Z.compare_spec ea eb) as [->| |]; simpl;
    try (split; [done|intros (_ & _ & ?); lia]);
    change (Pos.compare_cont Eq ma mb) with (ma ?= mb)%positive;
    destruct (Pos.compare_spec ma mb) as [->| |]; simpl;
    try done; split; try done; intros (_ & ? & _); lia.
Qed.

Lemma same_double_sym a b : same_double a b → same_double b a.
Proof. destruct a, b; simpl; intuition congruence. Qed.

Lemma same_double_trans a b c : same_double a b → same_double b c → same_double a c.
Proof. destruct a, b, c; simpl; intuition congruence. Qed.

Lemma double_eq_sym a b : double_eq a b = double_eq b a.
Proof.
  apply eq_true_iff_eq. rewrite !double_eq_same.
  split; apply same_double_sym.
Qed.

Lemma double_eq_trans a b c :
  double_eq a b = true → double_eq b c = true → double_eq a c = true.
Proof. rewrite !double_eq_same. apply same_double_trans. Qed.

Lemma value_eq_sym x y : value_eq x y = value_eq y x.
Proof.
  destruct x, y; simpl; try done.
  - apply double_eq_sym.
  - apply Z.eqb_sym.
  - by rewrite (double_eq_sym re), (double_eq_sym im).
  - by destruct b, b0.
Qed.

Lemma value_eq_trans x y z :
  value_eq x y = true → value_eq y z = true → value_eq x z = true.
Proof.
  destruct x, y, z; simpl; try done.
  - apply double_eq_trans.
  - rewrite !Z.eqb_eq. congruence.
  - rewrite !andb_true_iff. intros [??] [??].
    split; by eapply double_eq_trans.
  - by destruct b, b0, b1.
Qed.

Lemma value_eq_refl_l x y : value_eq x y = true → value_eq x x = true.
Proof.
  intros Hxy. eapply value_eq_trans; [done|]. by rewrite value_eq_sym.
Qed.

Lemma value_eq_refl_r x y : value_eq x y = true → value_eq y y = true.
Proof. rewrite value_eq_sym. apply value_eq_refl_l. Qed.

(** *** Lists *)

(** No two elements are equal. *)
Definition no_repetition (l : list Scalar) : Prop :=
  ∀ i j x y, l !! i = Some x → l !! j = Some y → value_eq x y = true → i = j.

(** Every element equals itself: there is no NaN. *)
Definition no_NaN (l : list Scalar) : Prop :=
  Forall (λ x, value_eq x x = true) l.

Lemma StronglySorted_lookup {A} (R : A → A → Prop) l i j a b :
  StronglySorted R l → (i < j)%nat →
  l !! i = Some a → l !! j = Some b → R a b.
Proof.
  intros Hs. revert i j. induction Hs as [|x l Hs IH Hx]; intros i j Hij Hi Hj.
  - by rewrite lookup_nil in Hi.
  - destruct j as [|j]; [lia|]. destruct i as [|i]; simpl in *.
    + injection Hi as <-. rewrite Forall_forall in Hx.
      apply Hx. by eapply list_elem_of_lookup_2.
    + apply (IH i j); [lia|done..].
Qed.

Lemma index_copy_spec {A} (self : list A) idx source :
  NoDup idx → length idx = length source →
  Forall (λ i, i < length self)%nat idx →
  ∃ m, index_copy_ self idx source = Some m ∧ length m = length self ∧
    (∀ i p s, idx !! i = Some p → source !! i = Some s → m !! p = Some s) ∧
    (∀ p, p ∉ idx → m !! p = self !! p).
Proof.
  revert self source.
  induction idx as [|i idx IH]; intros self [|s source] Hnd Hlen Hlt;
    simplify_eq/=.
  - exists self. split_and!; [done..| |done]. intros i p s Hi. by rewrite lookup_nil in Hi.
  - apply NoDup_cons in Hnd as [Hi Hnd]. apply Forall_cons in Hlt as [Hil Hlt].
    rewrite decide_True by done.
    destruct (IH (<[i:=s]> self) source) as (m & Hm & Hml & Hin & Hout);
      [done|done|by rewrite length_insert|].
    exists m. rewrite length_insert in Hml. split_and!; [done|done| |].
    + intros [|k] p s' Hk Hs; simplify_eq/=.
      * rewrite Hout by done. by apply list_lookup_insert_eq.
      * by eapply Hin.
    + intros p Hp. apply not_elem_of_cons in Hp as [Hpi Hp].
      rewrite Hout by done. by apply list_lookup_insert_ne.
Qed.

(** What a cell of the mask must hold for an element of value [v]. *)
Definition verdict (test_elements : list Scalar) (invert : bool) (v : Scalar) : bool :=
  if existsb (value_eq v) test_elements then negb invert else invert.

Lemma existsb_value_eq v l :
  existsb (value_eq v) l = true ↔ ∃ t, t ∈ l ∧ value_eq v t = true.
Proof.
  rewrite existsb_exists. split; intros (t & Ht & Heq); exists t;
    (split; [by apply list_elem_of_In|done]).
Qed.

Lemma verdict_ext T T' invert v v' :
  ((∃ t, t ∈ T ∧ value_eq v t = true) ↔ (∃ t, t ∈ T' ∧ value_eq v' t = true)) →
  verdict T invert v = verdict T' invert v'.
Proof.
  intros Hiff. unfold verdict. rewrite <- !existsb_value_eq in Hiff.
  destruct (existsb (value_eq v) T), (existsb (value_eq v') T'); try done.
  - discriminate (proj1 Hiff eq_refl).
  - discriminate (proj2 Hiff eq_refl).
Qed.

Section RestoredMask.
Context `{Primitives}.

Lemma convert_same t v : convert t t v = v.
Proof. unfold convert. by rewrite bool_decide_eq_true_2. Qed.

Lemma cat_same a b :
  dtype b = dtype a →
  cat a b = {| dtype := dtype a; values := values a ++ values b |}.
Proof.
  intros Hd. unfold cat. rewrite Hd, promoted_same. f_equal.
  f_equal; (etrans; [|apply list_fmap_id]); apply list_fmap_ext;
    intros ???; apply convert_same.
Qed.

(** Steps 2 to 4 of [isin_sorting] on the operands as they are after step 1. *)
Definition restored_mask (E T : Array) (invert : bool) : option (list bool) :=
  let all_elements := cat E T in
  let '(sorted_elements, sorted_order) := sort all_elements in
  let duplicate_mask := empty_like_mask (length (values sorted_elements)) in
  let sorted_except_first := slice_from_1 (values sorted_elements) in
  let sorted_except_last := slice_to_last (values sorted_elements) in
  let duplicate_mask :=
    copy_to_slice_to_last duplicate_mask
      (if invert then ne_tensor sorted_except_first sorted_except_last
       else eq_tensor sorted_except_first sorted_except_last) in
  duplicate_mask ← index_put_last duplicate_mask invert;
  let mask := empty_like_mask (length duplicate_mask) in
  index_copy_ mask sorted_order duplicate_mask.

Lemma isin_sorting_unfold elements test_elements assume_unique invert out :
  isin_sorting elements test_elements assume_unique invert out =
  if assume_unique then
    mask ← restored_mask elements test_elements invert;
    copy_ out (slice_to (length (values elements)) mask)
  else
    mask ← restored_mask (_unique elements true).1
                         (_unique test_elements false).1 invert;
    index mask (_unique elements true).2 ≫= copy_ out.
Proof.
  unfold isin_sorting, restored_mask.
  destruct assume_unique.
  - destruct (sort _). by destruct (index_put_last _ _).
  - destruct (_unique elements true), (_unique test_elements false).
    simpl. destruct (sort _). by destruct (index_put_last _ _).
Qed.

Lemma restored_mask_unfold E T invert :
  restored_mask E T invert =
  let sorted := values (sort (cat E T)).1 in
  duplicate_mask ←
    index_put_last
      (copy_to_slice_to_last (empty_like_mask (length sorted))
         (if invert then ne_tensor (slice_from_1 sorted) (slice_to_last sorted)
          else eq_tensor (slice_from_1 sorted) (slice_to_last sorted)))
      invert;
  index_copy_ (empty_like_mask (length duplicate_mask)) (sort (cat E T)).2
    duplicate_mask.
Proof. unfold restored_mask. by destruct (sort (cat E T)). Qed.

Variables (E T : Array) (invert : bool).
Hypothesis T_dtype : dtype T = dtype E.
Hypothesis E_ordered : is_ordered (dtype E) = true.
Hypothesis E_typed : well_typed E.
Hypothesis T_typed : well_typed T.
Hypothesis E_distinct : no_repetition (values E).
Hypothesis E_nonempty : values E ≠ [].

Let all := cat E T.
Let total := length (values all).
Let sorted := values (sort all).1.
Let order := (sort all).2.

Local Lemma all_values : values all = values E ++ values T.
Proof. unfold all. by rewrite cat_same. Qed.

Local Lemma all_ordered : is_ordered (dtype all) = true.
Proof. unfold all. by rewrite cat_same. Qed.

Local Lemma all_typed : well_typed all.
Proof.
  unfold all, well_typed. rewrite cat_same by done. simpl.
  apply Forall_app. split; [done|]. unfold well_typed in T_typed.
  by rewrite T_dtype in T_typed.
Qed.

Local Lemma sorted_length : length sorted = total.
Proof. apply sort_length. Qed.

Local Lemma order_perm : order ≡ₚ seq 0 total.
Proof. apply sort_order. Qed.

Local Lemma order_length : length order = total.
Proof. by rewrite order_perm, length_seq. Qed.

Local Lemma order_NoDup : NoDup order.
Proof. rewrite order_perm. apply NoDup_seq. Qed.

Local Lemma sorted_lookup i p :
  order !! i = Some p → sorted !! i = values all !! p.
Proof. apply sort_values. Qed.

Local Lemma position_sorted p :
  (p < total)%nat → ∃ i, order !! i = Some p.
Proof.
  intros Hp. apply list_elem_of_lookup_1. rewrite order_perm.
  apply elem_of_seq. lia.
Qed.

Local Lemma order_lookup i : (i < total)%nat → ∃ q, order !! i = Some q.
Proof. intros Hi. apply lookup_lt_is_Some. by rewrite order_length. Qed.

Local Lemma total_pos : (0 < total)%nat.
Proof.
  unfold total. rewrite all_values, length_app.
  destruct (values E); [done|simpl; lia].
Qed.

(** A test element equal to the element at sorted position [i] sits after it. *)
Local Lemma test_element_after i p v t :
  order !! i = Some p → values E !! p = Some v →
  t ∈ values T → value_eq v t = true →
  ∃ j, (i < j)%nat ∧ sorted !! j = Some t.
Proof.
  intros Hi Hp HT Heq.
  apply list_elem_of_lookup_1 in HT as [k Hk].
  pose proof (lookup_lt_Some _ _ _ Hp) as Hpl.
  pose proof (lookup_lt_Some _ _ _ Hk) as Hkl.
  assert (values all !! (length (values E) + k)%nat = Some t) as Hq.
  { rewrite all_values. by rewrite lookup_app_r, Nat.add_comm, Nat.add_sub by lia. }
  destruct (position_sorted (length (values E) + k)) as [j Hj].
  { unfold total. rewrite all_values, length_app. lia. }
  assert (sorted !! j = Some t) as Hjt by (by rewrite (sorted_lookup _ _ Hj)).
  assert (sorted !! i = Some v) as Hiv.
  { rewrite (sorted_lookup _ _ Hi), all_values. by apply lookup_app_l_Some. }
  exists j. split; [|done].
  destruct (decide (i < j)%nat) as [|Hge]; [done|exfalso].
  destruct (decide (i = j)) as [->|Hne]; [simplify_eq; lia|].
  assert (value_eq t v = true) as Heq' by (by rewrite value_eq_sym).
  pose proof (sort_stable all j i t v _ _ all_ordered all_typed
                ltac:(lia) Hjt Hiv Heq' Hj Hi). lia.
Qed.

(** The sorted neighbour of an element equals it exactly when the element
    equals one of the test elements. *)
Local Lemma neighbour_verdict i p v :
  order !! i = Some p → values E !! p = Some v →
  match sorted !! (i + 1)%nat with
  | Some v' => if invert then value_ne v' v else value_eq v' v
  | None => invert
  end = verdict (values T) invert v.
Proof.
  intros Hi Hp. unfold verdict.
  assert (sorted !! i = Some v) as Hiv.
  { rewrite (sorted_lookup _ _ Hi), all_values. by apply lookup_app_l_Some. }
  destruct (sorted !! (i + 1)%nat) as [v'|] eqn:Hnext.
  - assert (value_eq v' v = existsb (value_eq v) (values T)) as Hv.
    { apply eq_true_iff_eq. rewrite existsb_value_eq. split.
      - intros Heq.
        assert (value_eq v v' = true) as Heq' by (by rewrite value_eq_sym).
        destruct (order_lookup (i + 1)) as [q Hq].
        { apply lookup_lt_Some in Hnext. by rewrite sorted_length in Hnext. }
        pose proof (sort_stable all i (i + 1) v v' _ _ all_ordered all_typed
                      ltac:(lia) Hiv Hnext Heq' Hi Hq) as Hlt.
        rewrite (sorted_lookup _ _ Hq), all_values in Hnext.
        apply lookup_app_Some in Hnext as [Hq'|[_ Hq']].
        + pose proof (E_distinct _ _ _ _ Hp Hq' Heq'). lia.
        + exists v'. split; [by eapply list_elem_of_lookup_2|done].
      - intros (t & HT & Heq).
        destruct (test_element_after i p v t Hi Hp HT Heq) as (j & Hij & Hj).
        destruct (decide (j = i + 1)%nat) as [->|Hne].
        + simplify_eq. by rewrite value_eq_sym.
        + rewrite value_eq_sym.
          apply (sort_grouped all i (i + 1) j v v' t all_ordered all_typed);
            [lia|lia|done..]. }
    unfold value_ne. rewrite Hv. by destruct invert, (existsb _ _).
  - destruct (existsb (value_eq v) (values T)) eqn:Hex; [|done].
    apply existsb_value_eq in Hex as (t & HT & Heq).
    destruct (test_element_after i p v t Hi Hp HT Heq) as (j & Hij & Hj).
    apply lookup_ge_None in Hnext. apply lookup_lt_Some in Hj. lia.
Qed.


Local Lemma adjacent_lookup i v :
  sorted !! i = Some v →
  (if invert then ne_tensor (slice_from_1 sorted) (slice_to_last sorted)
   else eq_tensor (slice_from_1 sorted) (slice_to_last sorted)) !! i =
  match sorted !! (i + 1)%nat with
  | Some v' => Some (if invert then value_ne v' v else value_eq v' v)
  | None => None
  end.
Proof.
  intros Hi.
  assert (∀ f : Scalar → Scalar → bool,
    zip_with f (slice_from_1 sorted) (slice_to_last sorted) !! i =
    match sorted !! (i + 1)%nat with Some v' => Some (f v' v) | None => None end)
    as Hzip.
  { intros f. unfold slice_from_1, slice_to_last.
    rewrite lookup_zip_with, lookup_drop, Nat.add_comm.
    destruct (sorted !! (i + 1)%nat) as [v'|] eqn:Hnext; [simpl|done].
    rewrite lookup_take_lt, Hi; [done|].
    apply lookup_lt_Some in Hnext. lia. }
  destruct invert; unfold ne_tensor, eq_tensor; rewrite Hzip;
    by destruct (sorted !! (i + 1)%nat).
Qed.

Local Lemma adjacent_length :
  length (if invert then ne_tensor (slice_from_1 sorted) (slice_to_last sorted)
          else eq_tensor (slice_from_1 sorted) (slice_to_last sorted))
  = (total - 1)%nat.
Proof.
  pose proof sorted_length.
  destruct invert; unfold ne_tensor, eq_tensor, slice_from_1, slice_to_last;
    rewrite length_zip_with, length_drop, length_take; lia.
Qed.

Lemma restored_mask_spec :
  ∃ mask, restored_mask E T invert = Some mask ∧ length mask = total ∧
    ∀ p v, values E !! p = Some v → mask !! p = Some (verdict (values T) invert v).
Proof.
  pose proof sorted_length as HS. pose proof total_pos as HN.
  pose proof adjacent_length as Hadj.
  rewrite restored_mask_unfold. cbv zeta.
  change (values (sort (cat E T)).1) with sorted.
  change (sort (cat E T)).2 with order.
  set (adj := if invert then _ else _) in *.
  set (D0 := copy_to_slice_to_last _ adj).
  assert (length D0 = total) as HD0.
  { unfold D0, copy_to_slice_to_last.
    rewrite length_app, length_drop, empty_like_mask_length. lia. }
  unfold index_put_last. rewrite HD0.
  destruct (Nat.lt_exists_pred 0 total HN) as (n & HNn & _).
  rewrite HNn in *. simpl.
  set (D := <[n:=invert]> D0).
  assert (length D = Datatypes.S n) as HD by (unfold D; by rewrite length_insert).
  destruct (index_copy_spec (empty_like_mask (length D)) order D)
    as (mask & -> & Hlen & Hin & _).
  { apply order_NoDup. }
  { by rewrite order_length, HD. }
  { rewrite order_perm, empty_like_mask_length, HD, HNn.
    apply Forall_forall. intros q Hq. apply elem_of_seq in Hq. lia. }
  exists mask. rewrite empty_like_mask_length in Hlen. split_and!; [done|lia|].
  intros p v Hp.
  destruct (position_sorted p) as [i Hi].
  { apply lookup_lt_Some in Hp. unfold total.
    rewrite all_values, length_app. lia. }
  assert (sorted !! i = Some v) as Hiv.
  { rewrite (sorted_lookup _ _ Hi), all_values. by apply lookup_app_l_Some. }
  rewrite <- (neighbour_verdict i p v Hi Hp).
  apply (Hin i); [done|].
  pose proof (adjacent_lookup i v Hiv) as Hl. fold adj in Hl.
  apply lookup_lt_Some in Hiv as Hlt. rewrite HS in Hlt.
  unfold D. destruct (sorted !! (i + 1)%nat) as [v'|] eqn:Hnext.
  - apply lookup_lt_Some in Hnext. rewrite HS in Hnext.
    rewrite list_lookup_insert_ne by lia.
    unfold D0, copy_to_slice_to_last. by apply lookup_app_l_Some.
  - apply lookup_ge_None in Hnext. rewrite HS in Hnext.
    assert (i = n) as -> by lia. apply list_lookup_insert_eq. lia.
Qed.

End RestoredMask.

Section Agreement.
Context `{Primitives}.

Lemma fmap_convert_same t (l : list Scalar) : convert t t <$> l = l.
Proof.
  etrans; [|apply list_fmap_id]. apply list_fmap_ext. intros ???.
  apply convert_same.
Qed.

Lemma isin_brute_force_lookup elements test_elements invert (out : list bool) p :
  dtype test_elements = dtype elements →
  length out = length (values elements) →
  isin_brute_force elements test_elements invert out !! p =
  verdict (values test_elements) invert <$> values elements !! p.
Proof.
  intros Hd Hlen. unfold isin_brute_force, isin_default_stub, fill_, verdict.
  rewrite Hd, promoted_same, fmap_convert_same, lookup_zip_with.
  destruct (values elements !! p) as [v|] eqn:Hv; [simpl|done].
  apply lookup_lt_Some in Hv. rewrite lookup_replicate_2 by lia. simpl.
  by rewrite convert_same.
Qed.

Lemma isin_brute_force_length elements test_elements invert (out : list bool) :
  length out = length (values elements) →
  length (isin_brute_force elements test_elements invert out)
  = length (values elements).
Proof.
  intros Hlen. unfold isin_brute_force, isin_default_stub, fill_.
  rewrite length_zip_with, length_replicate. lia.
Qed.

Lemma isin_brute_force_verdict elements test_elements invert (out : list bool) :
  dtype test_elements = dtype elements →
  length out = length (values elements) →
  isin_brute_force elements test_elements invert out
  = verdict (values test_elements) invert <$> values elements.
Proof.
  intros Hd Hlen. apply list_eq. intros p.
  by rewrite isin_brute_force_lookup, list_lookup_fmap.
Qed.

(** The operands the agreement of the two algorithms is stated for: both of
    one element type, integral or floating-point, and holding values of that
    type; an output of the size of the elements; under [assume_unique]
    elements without repetition, and without it elements without NaN. *)
Record agreeing_operands (elements test_elements : Array) (assume_unique : bool)
    (out : list bool) : Prop := {
  same_dtype : dtype test_elements = dtype elements;
  ordered_dtype : is_ordered (dtype elements) = true;
  elements_typed : well_typed elements;
  test_elements_typed : well_typed test_elements;
  out_length : length out = length (values elements);
  unique_as_assumed : assume_unique = true → no_repetition (values elements);
  unique_defined : assume_unique = false → no_NaN (values elements)
}.

(** The sorting-based algorithm computes the brute-force mask. *)
Lemma isin_sorting_brute_force
    elements test_elements assume_unique invert (out : list bool) :
  agreeing_operands elements test_elements assume_unique out →
  values elements ≠ [] →
  isin_sorting elements test_elements assume_unique invert out =
  Some (isin_brute_force elements test_elements invert out).
Proof.
  intros [Hd Hord Het Htt Hlen Hnd Hnan] Hne. rewrite isin_sorting_unfold.
  pose proof (isin_brute_force_length elements test_elements invert out Hlen) as Hbl.
  destruct assume_unique.
  - destruct (restored_mask_spec elements test_elements invert
                Hd Hord Het Htt (Hnd eq_refl) Hne) as (mask & -> & Hml & Hmask).
    simpl. unfold copy_, slice_to.
    rewrite cat_same in Hml by done. simpl in Hml. rewrite length_app in Hml.
    rewrite decide_True by (rewrite length_take; lia).
    f_equal. apply list_eq. intros p.
    rewrite isin_brute_force_lookup by done.
    destruct (values elements !! p) as [v|] eqn:Hv; simpl.
    + apply lookup_lt_Some in Hv as Hp. rewrite lookup_take_lt by done. by apply Hmask.
    + apply lookup_ge_None in Hv. apply lookup_ge_None. rewrite length_take. lia.
  - specialize (Hnan eq_refl). unfold no_NaN in Hnan.
    rewrite Forall_forall in Hnan.
    pose proof (_unique_inverse elements) as Hinv.
    pose proof (_unique_inverse_length elements) as Hil.
    pose proof (_unique_distinct elements true) as Hund.
    pose proof (_unique_subseteq elements true) as Hsub.
    pose proof (_unique_dtype elements true) as Hud.
    pose proof (_unique_subseteq test_elements false) as Htsub.
    pose proof (_unique_complete test_elements false) as Htc.
    pose proof (_unique_dtype test_elements false) as Htd.
    set (u := (_unique elements true).1) in *.
    set (inverse := (_unique elements true).2) in *.
    set (t := (_unique test_elements false).1) in *.
    assert (values u ≠ []) as Hune.
    { destruct (values elements) as [|x l] eqn:He; [done|].
      destruct (Hinv 0%nat x eq_refl) as (k & y & _ & Hk & _).
      { apply Hnan. left. }
      intros Hnil. by rewrite Hnil in Hk. }
    destruct (restored_mask_spec u t invert) as (mask & -> & Hml & Hmask).
    { by rewrite Htd, Hud. }
    { by rewrite Hud. }
    { unfold well_typed. rewrite Hud. apply Forall_forall. intros x Hx.
      unfold well_typed in Het. rewrite Forall_forall in Het. by apply Het, Hsub. }
    { unfold well_typed. rewrite Htd. apply Forall_forall. intros x Hx.
      unfold well_typed in Htt. rewrite Forall_forall in Htt. by apply Htt, Htsub. }
    { intros i j x y. apply Hund. }
    { done. }
    simpl. unfold index.
    assert (mapM (λ i, mask !! i) inverse =
            Some (isin_brute_force elements test_elements invert out)) as ->.
    { apply mapM_Some, Forall2_same_length_lookup. split; [lia|].
      intros j k b Hj Hb.
      rewrite isin_brute_force_lookup in Hb by done.
      destruct (values elements !! j) as [v|] eqn:Hv; simplify_eq/=.
      assert (value_eq v v = true) as Hvv.
      { apply Hnan. by eapply list_elem_of_lookup_2. }
      destruct (Hinv j v Hv Hvv) as (k' & y & Hk' & Hu & Hvy). simplify_eq.
      rewrite (Hmask _ _ Hu). f_equal. apply verdict_ext. split.
      - intros (t' & Ht' & Heq). exists t'. split; [by apply Htsub|].
        by eapply value_eq_trans.
      - intros (t0 & Ht0 & Heq).
        destruct (Htc t0 Ht0) as (t' & Ht' & Heq'); [by eapply value_eq_refl_r|].
        exists t'. split; [done|].
        eapply value_eq_trans; [|exact Heq'].
        eapply value_eq_trans; [|exact Heq]. by rewrite value_eq_sym. }
    simpl. unfold copy_. by rewrite decide_True by lia.
Qed.

End Agreement.
End IsinFacts.

(** ** A reference implementation of the primitives of [isin]

    Modelled from the spec: one implementation of the array primitives and
    of [std::pow], on which the two algorithms can be run. *)
Module IsinReference.
Import c10 ATen Isin IsinFacts.

(** *** [_unique]: the values in order of first occurrence; the inverse
    mapping looks each value up among them, and is 0 for a value that equals
    none of them. *)
Fixpoint unique_values (l : list Scalar) : list Scalar :=
  match l with
  | [] => []
  | x :: l' => x :: filter (λ y, value_eq x y = false) (unique_values l')
  end.

Definition unique_first (a : Array) (return_inverse : bool) : Array * list nat :=
  let u := unique_values (values a) in
  ({| dtype := dtype a; values := u |},
   if return_inverse
   then (λ x, from_option fst 0%nat (list_find (λ y, value_eq x y = true) u))
        <$> values a
   else []).

(** *** [sort]: ascending, a NaN after every number.  Every element is
    paired with its position and inserted behind the entries that sort
    before it, so entries with equal values keep their relative order. *)
Definition sorts_before (x y : Scalar) : bool :=
  match x, y with
  | HAS_i a, HAS_i b => a <? b
  | HAS_d S754_nan, HAS_d _ => false
  | HAS_d _, HAS_d S754_nan => true
  | HAS_d a, HAS_d b => SFltb a b
  | _, _ => false
  end.

Fixpoint sort_insert (x : Scalar * nat) (l : list (Scalar * nat))
  : list (Scalar * nat) :=
  match l with
  | [] => [x]
  | y :: l' => if sorts_before y.1 x.1 then y :: sort_insert x l' else x :: l
  end.

Definition sort_pairs (l : list (Scalar * nat)) : list (Scalar * nat) :=
  foldr sort_insert [] l.

Definition stable_sort (a : Array) : Array * list nat :=
  let s := sort_pairs (zip (values a) (seq 0 (length (values a)))) in
  ({| dtype := dtype a; values := s.*1 |}, s.*2).

(** *** [std::pow] for a positive finite base and a finite exponent: the
    power [2^(y * log2 x)], computed in fixed point with [fraction_bits]
    binary places and rounded to the nearest double.  The logarithm is
    found bit by bit by repeated squaring, the power of two as a product of
    iterated square roots of 2. *)
Definition fraction_bits : Z := 200.
Definition log_bits : nat := 90.

Fixpoint log2_fraction (k : nat) (f acc : Z) : Z :=
  match k with
  | O => acc
  | S k' =>
      let f2 := f * f / 2 ^ fraction_bits in
      if 2 ^ (fraction_bits + 1) <=? f2
      then log2_fraction k' (f2 / 2) (2 * acc + 1)
      else log2_fraction k' f2 (2 * acc)
  end.

Fixpoint exp2_fraction (k : nat) (r bits acc : Z) : Z :=
  match k with
  | O => acc
  | S k' =>
      let r' := Z.sqrt (r * 2 ^ fraction_bits) in
      exp2_fraction k' r' bits
        (if Z.testbit bits (Z.of_nat k') then acc * r' / 2 ^ fraction_bits else acc)
  end.

Definition ref_pow (x y : double) : double :=
  match x, y with
  | S754_finite false mx ex, S754_finite sy my ey =>
      let b := Z.log2 (Zpos mx) in
      let f := Zpos mx * 2 ^ fraction_bits / 2 ^ b in
      let l := (ex + b) * 2 ^ Z.of_nat log_bits + log2_fraction log_bits f 0 in
      let z := Z.shiftl (cond_Zopp sy (l * Zpos my)) ey in
      let zi := z / 2 ^ Z.of_nat log_bits in
      let zf := z mod 2 ^ Z.of_nat log_bits in
      let m := exp2_fraction log_bits (2 ^ (fraction_bits + 1)) zf (2 ^ fraction_bits) in
      binary_normalize 53 1024 m (zi - fraction_bits) false
  | S754_finite false _ _, S754_zero _ => double_of_Z 1
  | _, _ => S754_nan
  end.

#[export] Instance cmath : Cmath := {| std_pow := ref_pow |}.

(** *** The laws of [_unique] *)

Lemma elem_of_unique_values u l : u ∈ unique_values l → u ∈ l.
Proof.
  induction l as [|x l IH]; simpl; [done|].
  rewrite !elem_of_cons, list_elem_of_filter.
  intros [->|[_ Hu]]; [by left|right; by apply IH].
Qed.

Lemma StronglySorted_filter {A} (R : A → A → Prop) (P : A → Prop)
    `{∀ x, Decision (P x)} l :
  StronglySorted R l → StronglySorted R (filter P l).
Proof.
  induction 1 as [|x l Hs IH Hx]; [constructor|].
  rewrite filter_cons. destruct (decide (P x)); [|done].
  constructor; [done|].
  rewrite Forall_forall in Hx |- *. intros y Hy.
  apply list_elem_of_filter in Hy as [_ Hy]. by apply Hx.
Qed.

Lemma unique_values_sorted l :
  StronglySorted (λ u v, value_eq u v = false) (unique_values l).
Proof.
  induction l as [|x l IH]; simpl; constructor.
  - by apply StronglySorted_filter.
  - apply Forall_forall. intros y Hy. by apply list_elem_of_filter in Hy as [? _].
Qed.

Lemma unique_values_distinct l i j u v :
  unique_values l !! i = Some u → unique_values l !! j = Some v →
  value_eq u v = true → i = j.
Proof.
  intros Hi Hj Heq. pose proof (unique_values_sorted l) as Hs.
  destruct (Nat.lt_total i j) as [Hlt|[->|Hlt]]; [|done|].
  - pose proof (StronglySorted_lookup _ _ _ _ _ _ Hs Hlt Hi Hj) as Hne.
    simpl in Hne. congruence.
  - pose proof (StronglySorted_lookup _ _ _ _ _ _ Hs Hlt Hj Hi) as Hne.
    simpl in Hne. rewrite value_eq_sym in Hne. congruence.
Qed.

Lemma unique_values_complete l x :
  x ∈ l → value_eq x x = true →
  ∃ u, u ∈ unique_values l ∧ value_eq x u = true.
Proof.
  intros Hx Hxx. induction l as [|y l IH]; [by apply elem_of_nil in Hx|].
  simpl. apply elem_of_cons in Hx as [->|Hx].
  - exists y. split; [left|done].
  - destruct (IH Hx) as (u & Hu & Heq).
    destruct (value_eq y u) eqn:Hyu.
    + exists y. split; [left|].
      eapply value_eq_trans; [exact Heq|]. by rewrite value_eq_sym.
    + exists u. split; [|done]. right. by apply list_elem_of_filter.
Qed.

Lemma unique_first_inverse a j x :
  values a !! j = Some x → value_eq x x = true →
  ∃ k u, (unique_first a true).2 !! j = Some k ∧
         values (unique_first a true).1 !! k = Some u ∧ value_eq x u = true.
Proof.
  intros Hj Hxx. simpl. rewrite list_lookup_fmap, Hj. simpl.
  destruct (unique_values_complete (values a) x) as (u & Hu & Heq);
    [by eapply list_elem_of_lookup_2|done|].
  destruct (list_find_elem_of (λ y, value_eq x y = true) _ u Hu Heq)
    as [[k y] Hfind].
  rewrite Hfind. simpl. exists k, y. split; [done|].
  by apply list_find_Some in Hfind as (Hk & Hy & _).
Qed.

(** *** The laws of [sort] *)

(** The order of the sort, on keys: a number by its sign, exponent and
    significand, a NaN last. *)
Definition double_key (d : double) : Z * Z * Z :=
  match d with
  | S754_nan => (3, 0, 0)
  | S754_infinity false => (2, 0, 0)
  | S754_infinity true => (-2, 0, 0)
  | S754_zero _ => (0, 0, 0)
  | S754_finite false m e => (1, e, Zpos m)
  | S754_finite true m e => (-1, - e, Zneg m)
  end.

Definition sort_key (v : Scalar) : Z * Z * Z :=
  match v with
  | HAS_i i => (0, 0, i)
  | HAS_d d => double_key d
  | _ => (0, 0, 0)
  end.

Definition key_lt (a b : Z * Z * Z) : Prop :=
  a.1.1 < b.1.1 ∨
  (a.1.1 = b.1.1 ∧ (a.1.2 < b.1.2 ∨ (a.1.2 = b.1.2 ∧ a.2 < b.2))).

Lemma key_eq (a b : Z * Z * Z) :
  a.1.1 = b.1.1 → a.1.2 = b.1.2 → a.2 = b.2 → a = b.
Proof. destruct a as [[??]?], b as [[??]?]. simpl. congruence. Qed.

(** The values of an ordered element type are all integers, or all
    doubles. *)
Definition kind (integral : bool) (v : Scalar) : Prop :=
  match v with
  | HAS_i _ => integral = true
  | HAS_d _ => integral = false
  | _ => False
  end.

Lemma has_type_kind t v :
  is_ordered t = true → has_type t v → kind (isIntegralType t false) v.
Proof. destruct t, v; simpl; intros; try done; intuition congruence. Qed.

Lemma SFltb_key a b :
  a ≠ S754_nan → b ≠ S754_nan →
  SFltb a b = true ↔ key_lt (double_key a) (double_key b).
Proof.
  unfold SFltb, key_lt.
  destruct a as [[]|[]| |[] ma ea], b as [[]|[]| |[] mb eb]; simpl;
    intros ??; try done; try (split; [intros; lia|done]);
    try (split; [done|intros; lia]);
    destruct (Z.compare_spec ea eb) as [->| |]; simpl;
    change (Pos.compare_cont Eq ma mb) with (ma ?= mb)%positive;
    try destruct (Pos.compare_spec ma mb) as [->| |]; simpl;
    split; try done; intros; lia.
Qed.

Lemma sorts_before_key k x y :
  kind k x → kind k y →
  sorts_before x y = true ↔ key_lt (sort_key x) (sort_key y).
Proof.
  destruct x as [a|a|xr xi|xb], y as [b|b|yr yi|yb]; simpl; try done;
    try (intros; congruence).
  - intros _ _.
    destruct a as [sa|sa| |sa ma ea]; destruct b as [sb|sb| |sb mb eb];
      try (apply SFltb_key; done);
      unfold key_lt; simpl;
      repeat match goal with s : bool |- _ => destruct s end; simpl;
      split; (done || lia).
  - intros _ _. unfold key_lt. simpl. rewrite Z.ltb_lt. lia.
Qed.

Lemma value_eq_key k x y :
  kind k x → kind k y → value_eq x y = true → sort_key x = sort_key y.
Proof.
  destruct x as [a|a|xr xi|xb], y as [b|b|yr yi|yb]; simpl; try done.
  - intros _ _ Heq. apply double_eq_same in Heq.
    destruct a as [[]|[]| |[] ??], b as [[]|[]| |[] ??]; simpl in *;
      try done; by destruct Heq as (? & -> & ->).
  - intros _ _ Heq. apply Z.eqb_eq in Heq. by subst.
Qed.

Lemma key_value_eq k x y :
  kind k x → kind k y → sort_key x = sort_key y → value_eq x x = true →
  value_eq x y = true.
Proof.
  destruct x as [a|a|xr xi|xb], y as [b|b|yr yi|yb]; simpl; try done;
    try (intros; congruence).
  - intros _ _ Hkey Hxx. apply double_eq_same. apply double_eq_same in Hxx.
    destruct a as [[]|[]| |[] ??], b as [[]|[]| |[] ??]; simpl in *;
      try done; injection Hkey; intros; split_and!; (done || lia || congruence).
Qed.

(** A sorted list of entries: no later entry sorts before an earlier one,
    and entries of one key are in the order of their positions. *)
Definition in_order (a b : Scalar * nat) : Prop :=
  ¬ key_lt (sort_key b.1) (sort_key a.1) ∧
  (sort_key a.1 = sort_key b.1 → (a.2 < b.2)%nat).

Lemma sort_insert_perm x l : sort_insert x l ≡ₚ x :: l.
Proof.
  induction l as [|y l IH]; simpl; [done|].
  destruct (sorts_before y.1 x.1); [|done].
  rewrite IH. apply Permutation_swap.
Qed.

Lemma sort_pairs_perm l : sort_pairs l ≡ₚ l.
Proof.
  induction l as [|x l IH]; simpl; [done|].
  by rewrite sort_insert_perm, IH.
Qed.

Lemma sort_insert_sorted k x l :
  kind k x.1 → Forall (λ y, kind k y.1) l →
  StronglySorted in_order l →
  Forall (λ y, x.2 < y.2)%nat l →
  StronglySorted in_order (sort_insert x l).
Proof.
  intros Hkx. induction l as [|y l IH]; simpl; intros Hk Hs Hx.
  - repeat constructor.
  - apply StronglySorted_inv in Hs as [Hs Hy].
    apply Forall_cons in Hx as [Hxy Hx].
    apply Forall_cons in Hk as [Hky Hk].
    destruct (sorts_before y.1 x.1) eqn:Hb.
    + apply (sorts_before_key k) in Hb; [|done..].
      constructor; [by apply IH|].
      rewrite sort_insert_perm. constructor; [|done].
      unfold in_order, key_lt in *. split; [lia|]. intros Heq.
      rewrite Heq in Hb. lia.
    + assert (¬ key_lt (sort_key y.1) (sort_key x.1)) as Hnb.
      { intros Hlt. apply (sorts_before_key k) in Hlt; [|done..]. congruence. }
      constructor; [by constructor|].
      constructor; [by split|].
      rewrite Forall_forall in Hy, Hx |- *. intros z Hz.
      specialize (Hy z Hz) as [Hyz _]. specialize (Hx z Hz).
      unfold in_order, key_lt in *. split; [lia|done].
Qed.

Lemma sort_pairs_sorted k l :
  Forall (λ y, kind k y.1) l →
  StronglySorted (λ a b, a.2 < b.2)%nat l →
  StronglySorted in_order (sort_pairs l).
Proof.
  induction l as [|x l IH]; simpl; intros Hk Hs; [constructor|].
  apply StronglySorted_inv in Hs as [Hs Hx].
  apply Forall_cons in Hk as [Hkx Hk].
  apply (sort_insert_sorted k); [done| |by apply IH|].
  - by rewrite sort_pairs_perm.
  - by rewrite sort_pairs_perm.
Qed.

Lemma zip_seq_sorted (l : list Scalar) s n :
  StronglySorted (λ a b : Scalar * nat, a.2 < b.2)%nat (zip l (seq s n)).
Proof.
  revert s n. induction l as [|x l IH]; intros s [|n]; simpl; try constructor.
  - apply IH.
  - rewrite Forall_forall. intros [v q] Hin.
    apply elem_of_zip_r in Hin. apply elem_of_seq in Hin. simpl. lia.
Qed.

Lemma lookup_zip_seq {A} (l : list A) s i :
  zip l (seq s (length l)) !! i = (λ v, (v, (s + i)%nat)) <$> l !! i.
Proof.
  rewrite lookup_zip_with.
  destruct (l !! i) as [v|] eqn:Hv; simpl; [|done].
  apply lookup_lt_Some in Hv. by rewrite lookup_seq_lt.
Qed.

Lemma elem_of_zip_seq {A} (l : list A) v p :
  (v, p) ∈ zip l (seq 0 (length l)) ↔ l !! p = Some v.
Proof.
  rewrite list_elem_of_lookup. split.
  - intros [i Hi]. rewrite lookup_zip_seq in Hi.
    destruct (l !! i) as [w|] eqn:Hw; simplify_eq/=. done.
  - intros Hp. exists p. rewrite lookup_zip_seq, Hp. done.
Qed.

Section StableSort.
Variable a : Array.

Let s := sort_pairs (zip (values a) (seq 0 (length (values a)))).

Local Lemma s_elem_of v p : (v, p) ∈ s ↔ values a !! p = Some v.
Proof. unfold s. rewrite sort_pairs_perm. apply elem_of_zip_seq. Qed.

Lemma stable_sort_order : (stable_sort a).2 ≡ₚ seq 0 (length (values a)).
Proof.
  simpl. rewrite sort_pairs_perm, snd_zip; [done|]. by rewrite length_seq.
Qed.

Lemma stable_sort_length :
  length (values (stable_sort a).1) = length (values a).
Proof.
  simpl. rewrite length_fmap, sort_pairs_perm, length_zip_with_l_eq; [done|].
  by rewrite length_seq.
Qed.

Local Lemma s_lookup i x p :
  values (stable_sort a).1 !! i = Some x → (stable_sort a).2 !! i = Some p →
  s !! i = Some (x, p).
Proof.
  simpl. rewrite !list_lookup_fmap. fold s.
  destruct (s !! i) as [[??]|]; simpl; congruence.
Qed.

Local Lemma s_entry i x :
  values (stable_sort a).1 !! i = Some x → ∃ p, s !! i = Some (x, p).
Proof.
  simpl. rewrite list_lookup_fmap. fold s.
  destruct (s !! i) as [[v p]|]; simpl; intros [= ->]. by exists p.
Qed.

Lemma stable_sort_values i p :
  (stable_sort a).2 !! i = Some p →
  values (stable_sort a).1 !! i = values a !! p.
Proof.
  simpl. rewrite !list_lookup_fmap. fold s.
  destruct (s !! i) as [[v q]|] eqn:Hi; simpl; [|done]. intros [= ->].
  symmetry. apply s_elem_of. by eapply list_elem_of_lookup_2.
Qed.

Hypothesis a_ordered : is_ordered (dtype a) = true.
Hypothesis a_typed : well_typed a.

Local Lemma s_kind : Forall (λ y, kind (isIntegralType (dtype a) false) y.1) s.
Proof.
  apply Forall_forall. intros [v p] Hin. apply s_elem_of in Hin. simpl.
  apply has_type_kind; [done|].
  unfold well_typed in a_typed. rewrite Forall_forall in a_typed.
  apply a_typed. by eapply list_elem_of_lookup_2.
Qed.

Local Lemma s_sorted : StronglySorted in_order s.
Proof.
  apply (sort_pairs_sorted (isIntegralType (dtype a) false)); [|apply zip_seq_sorted].
  unfold s. pose proof s_kind as Hk. unfold s in Hk.
  by rewrite sort_pairs_perm in Hk.
Qed.

Local Lemma s_kind_lookup i x p :
  s !! i = Some (x, p) → kind (isIntegralType (dtype a) false) x.
Proof.
  intros Hi. pose proof s_kind as Hk. rewrite Forall_forall in Hk.
  apply (Hk (x, p)). by eapply list_elem_of_lookup_2.
Qed.

Lemma stable_sort_stable i j x y p q :
  (i < j)%nat →
  values (stable_sort a).1 !! i = Some x → values (stable_sort a).1 !! j = Some y →
  value_eq x y = true →
  (stable_sort a).2 !! i = Some p → (stable_sort a).2 !! j = Some q → (p < q)%nat.
Proof.
  intros Hij Hx Hy Heq Hp Hq.
  pose proof (s_lookup _ _ _ Hx Hp) as Hi.
  pose proof (s_lookup _ _ _ Hy Hq) as Hj.
  destruct (StronglySorted_lookup _ _ _ _ _ _ s_sorted Hij Hi Hj) as [_ Hpos].
  apply Hpos. simpl.
  eapply value_eq_key; [by eapply s_kind_lookup|by eapply s_kind_lookup|done].
Qed.

Lemma stable_sort_grouped i j k x y z :
  (i < j)%nat → (j < k)%nat →
  values (stable_sort a).1 !! i = Some x →
  values (stable_sort a).1 !! j = Some y →
  values (stable_sort a).1 !! k = Some z →
  value_eq x z = true → value_eq x y = true.
Proof.
  intros Hij Hjk Hx Hy Hz Heq.
  destruct (s_entry _ _ Hx) as [p Hi].
  destruct (s_entry _ _ Hy) as [q Hj].
  destruct (s_entry _ _ Hz) as [r Hk].
  pose proof (s_kind_lookup _ _ _ Hi) as Hkx.
  pose proof (s_kind_lookup _ _ _ Hj) as Hky.
  pose proof (s_kind_lookup _ _ _ Hk) as Hkz.
  destruct (StronglySorted_lookup _ _ _ _ _ _ s_sorted Hij Hi Hj) as [Hxy _].
  destruct (StronglySorted_lookup _ _ _ _ _ _ s_sorted Hjk Hj Hk) as [Hyz _].
  pose proof (value_eq_key _ _ _ Hkx Hkz Heq) as Hxz. simpl in *.
  eapply key_value_eq; [done|done| |by eapply value_eq_refl_l].
  rewrite <- Hxz in Hyz. unfold key_lt in *. apply key_eq; lia.
Qed.

End StableSort.

Lemma promoteTypes_same t : Reference.promoteTypes t t = t.
Proof. unfold Reference.promoteTypes. by rewrite bool_decide_eq_true_2. Qed.

(** The promotion of an array of rank 1 and a scalar. *)
Definition ref_promoted_Scalar (t : ScalarType) (s : Scalar) : ScalarType :=
  result_type_Tensor_Scalar (H := Reference.type_properties)
    (Reference.make 0 [1%nat] t []) s.

Lemma ref_promoted_Scalar_same t s :
  Scalar_type s = t → ref_promoted_Scalar t s = t.
Proof. intros <-. by destruct s. Qed.

#[export] Instance primitives : Primitives := {|
  _unique := unique_first;
  sort := stable_sort;
  promoted := Reference.promoteTypes;
  promoted_Scalar := ref_promoted_Scalar;
  empty_like_mask := λ n, replicate n false;
  _unique_dtype := λ a r, eq_refl;
  _unique_subseteq := λ a r u, elem_of_unique_values u (values a);
  _unique_distinct := λ a r, unique_values_distinct (values a);
  _unique_complete := λ a r, unique_values_complete (values a);
  _unique_inverse := unique_first_inverse;
  _unique_inverse_length := λ a, length_fmap _ (values a);
  sort_order := stable_sort_order;
  sort_length := stable_sort_length;
  sort_values := stable_sort_values;
  sort_grouped := λ a i j k x y z Ho Ht, stable_sort_grouped a Ho Ht i j k x y z;
  sort_stable := λ a i j x y p q Ho Ht, stable_sort_stable a Ho Ht i j x y p q;
  promoted_same := promoteTypes_same;
  promoted_Scalar_same := ref_promoted_Scalar_same;
  empty_like_mask_length := λ n, length_replicate n false
|}.

End IsinReference.

(** ** [isin]: the two paths agree *)
Module IsinPathFacts.
Import c10 ATen Isin IsinFacts.

Section Paths.
Context `{Primitives}.


Context `{Cmath}.

(** Whichever branch the sizes select, the mask holds the verdict of each
    element. *)
Lemma isin_mask
    (elements test_elements : Array) (assume_unique invert : bool)
    (out : list bool) :
  agreeing_operands elements test_elements assume_unique out →
  ∀ path,
    isin_Tensor_Tensor_out_on path elements test_elements assume_unique invert out
    = Some (verdict (values test_elements) invert <$> values elements).
Proof.
  intros Hop.
  assert (isin_Tensor_Tensor_out_on BruteForce
            elements test_elements assume_unique invert out =
          Some (verdict (values test_elements) invert <$> values elements)) as Hb.
  { destruct Hop as [Hd _ _ _ Hlen _ _]. unfold isin_Tensor_Tensor_out_on.
    destruct (decide (length (values elements) = 0%nat)) as [Hzero|Hne].
    - destruct (values elements), out; simplify_eq/=. done.
    - by rewrite isin_brute_force_verdict. }
  intros [|]; [done|]. rewrite <- Hb. unfold isin_Tensor_Tensor_out_on.
  destruct (decide (length (values elements) = 0%nat)) as [|Hne]; [done|].
  apply isin_sorting_brute_force; [done|].
  intros Hnil. by rewrite Hnil in Hne.
Qed.

(** On operands of one element type, integral or floating-point (without
    NaN among the elements when [assume_unique] is false, without equal
    elements when it is true), [isin_Tensor_Tensor_out] returns, on either
    path and so whatever the sizes, the mask that holds for each element
    [invert] negated when the element equals some test element, and [invert]
    otherwise. *)
Theorem isin_Tensor_Tensor_out_verdict
    (elements test_elements : Array) (assume_unique invert : bool)
    (out : list bool) :
  dtype test_elements = dtype elements →
  is_ordered (dtype elements) = true →
  well_typed elements → well_typed test_elements →
  length out = length (values elements) →
  (assume_unique = true → no_repetition (values elements)) →
  (assume_unique = false → no_NaN (values elements)) →
  (∀ path,
     isin_Tensor_Tensor_out_on path elements test_elements assume_unique invert out
     = Some (verdict (values test_elements) invert <$> values elements)) ∧
  isin_Tensor_Tensor_out elements test_elements assume_unique invert out
  = Some (verdict (values test_elements) invert <$> values elements) ∧
  ∀ v, verdict (values test_elements) invert v = negb invert ↔
       ∃ t, t ∈ values test_elements ∧ value_eq v t = true.
Proof.
  intros Hd Hord Het Htt Hlen Hnd Hnan.
  assert (agreeing_operands elements test_elements assume_unique out) as Hop
    by (by split).
  split_and!.
  - by apply isin_mask.
  - by apply isin_mask.
  - intros v. rewrite <- existsb_value_eq. unfold verdict.
    destruct (existsb (value_eq v) (values test_elements)); [done|].
    by destruct invert.
Qed.

End Paths.

Import IsinReference.

(** Arrays of 64-bit integers, and of single-precision numbers given by
    their integer values. *)
Definition longs (l : list Z) : Array := {| dtype := Long; values := HAS_i <$> l |}.
Definition floats (l : list Z) : Array :=
  {| dtype := Float; values := (λ z, cast_to Float (HAS_i z)) <$> l |}.

Lemma no_repetition_3_1_2 : no_repetition (values (longs [3; 1; 2])).
Proof.
  intros [|[|[|i]]] [|[|[|j]]] x y Hi Hj Heq; simplify_eq/=; done.
Qed.

Lemma longs_typed l : well_typed (longs l).
Proof. unfold well_typed. simpl. apply Forall_fmap, Forall_true. intros. by left. Qed.

Lemma longs_no_NaN l : no_NaN (values (longs l)).
Proof.
  unfold no_NaN. simpl. apply Forall_fmap, Forall_true. intros. apply Z.eqb_refl.
Qed.



Lemma isin_Tensor_Tensor_out_verdict_witness :
  isin_Tensor_Tensor_out
    (longs [3; 1; 2]) (longs [2; 5; 3; 3]) true true [false; false; false] =
  Some (verdict (values (longs [2; 5; 3; 3])) true <$> values (longs [3; 1; 2])).
Proof.
  apply isin_Tensor_Tensor_out_verdict;
    [reflexivity | reflexivity | apply longs_typed | apply longs_typed
    | reflexivity | intros _; apply no_repetition_3_1_2 | discriminate].
Defined.

(** The scenarios of the specification, on either path: the membership of
    [[1, 2, 3, 4]] in [[2, 4]]; a repeated element gets its verdict at both
    positions; empty elements give an empty mask. *)
Example isin_scenario path :
  isin_Tensor_Tensor_out_on path
    (longs [1; 2; 3; 4]) (longs [2; 4]) true false [false; false; false; false]
  = Some [false; true; false; true].
Proof. by destruct path. Qed.

Example isin_duplicates path :
  isin_Tensor_Tensor_out_on path
    (longs [1; 2; 2; 3]) (longs [2]) false false [false; false; false; false]
  = Some [false; true; true; false].
Proof. by destruct path. Qed.

Example isin_empty path :
  isin_Tensor_Tensor_out_on path (longs []) (longs [2; 4]) false false [] = Some [].
Proof. by destruct path. Qed.

(** With NaN among the test elements and a negative zero for a zero. *)
Example isin_floats path :
  isin_Tensor_Tensor_out_on path (floats [3; 0; 2])
    {| dtype := Float;
       values := [HAS_d S754_nan; HAS_d (S754_zero true); HAS_d S754_nan] |}
    true false [false; false; false]
  = Some [false; true; false].
Proof. by destruct path. Qed.

End IsinPathFacts.

(** ** The size heuristic of [isin] *)
Module ThresholdFacts.
Import c10 ATen Isin IsinFacts.
Import Reals Lra.

(** The bound of the specification, 10 * n^0.145, in the reals. *)
Definition real_threshold (n : Z) : R := (10 * Rpower (IZR n) 0.145)%R.

Lemma real_threshold_pos n : (0 < real_threshold n)%R.
Proof.
  unfold real_threshold. apply Rmult_lt_0_compat; [lra | apply exp_pos].
Qed.

Lemma real_threshold_pow n :
  1 ≤ n → (real_threshold n ^ 200)%R = IZR (10 ^ 200 * n ^ 29).
Proof.
  intros Hn. unfold real_threshold.
  assert (0 < IZR n)%R as Hpos by (apply (IZR_lt 0); lia).
  rewrite Rpow_mult_distr.
  rewrite <- (Rpower_pow 200 (Rpower _ _)) by apply exp_pos.
  rewrite Rpower_mult.
  replace (0.145 * INR 200)%R with (INR 29)
    by (rewrite !INR_IZR_INZ; change (Z.of_nat 200) with 200; 
        change (Z.of_nat 29) with 29; lra).
  rewrite Rpower_pow by done.
  rewrite mult_IZR, !pow_IZR. done.
Qed.

Lemma pow_lt_compat (a b : R) (k : nat) :
  (0 < k)%nat → (0 <= a)%R → (a < b)%R → (a ^ k < b ^ k)%R.
Proof.
  intros Hk Ha Hab. destruct Ha as [Ha| <-].
  - rewrite <- !Rpower_pow by lra. apply Rlt_Rpower_l; [|lra].
    apply lt_0_INR. lia.
  - rewrite pow_i by lia. apply pow_lt. lra.
Qed.

Lemma IZR_pow_200 a : IZR (a ^ 200) = (IZR a ^ 200)%R.
Proof. by rewrite pow_IZR. Qed.

(** Integers are compared with the bound through its 200th power:
    (10 * n^0.145)^200 = 10^200 * n^29. *)
Lemma le_real_threshold n a :
  1 ≤ n → 0 ≤ a →
  a ^ 200 ≤ 10 ^ 200 * n ^ 29 ↔ (IZR a <= real_threshold n)%R.
Proof.
  intros Hn Ha. pose proof (real_threshold_pos n) as Hpos.
  assert (0 <= IZR a)%R as Ha' by (apply (IZR_le 0); lia).
  split.
  - intros Hle. apply IZR_le in Hle.
    rewrite <- real_threshold_pow, IZR_pow_200 in Hle by done.
    destruct (Rle_or_lt (IZR a) (real_threshold n)) as [|Hlt]; [done|].
    apply (pow_lt_compat _ _ 200) in Hlt; [lra|lia|lra].
  - intros Hle. apply le_IZR.
    rewrite <- real_threshold_pow, IZR_pow_200 by done.
    apply pow_incr. lra.
Qed.

Lemma lt_real_threshold n a :
  1 ≤ n → 0 ≤ a →
  a ^ 200 < 10 ^ 200 * n ^ 29 ↔ (IZR a < real_threshold n)%R.
Proof.
  intros Hn Ha. pose proof (real_threshold_pos n) as Hpos.
  assert (0 <= IZR a)%R as Ha' by (apply (IZR_le 0); lia).
  split.
  - intros Hlt. apply IZR_lt in Hlt.
    rewrite <- real_threshold_pow, IZR_pow_200 in Hlt by done.
    destruct (Rle_or_lt (real_threshold n) (IZR a)) as [Hle|]; [|done].
    pose proof (pow_incr _ _ 200 (conj (Rlt_le _ _ Hpos) Hle)). lra.
  - intros Hlt. apply lt_IZR.
    rewrite <- real_threshold_pow, IZR_pow_200 by done.
    apply pow_lt_compat; [lia|done..].
Qed.

(** The number a finite double stands for. *)
Definition double_to_R (d : c10.double) : R :=
  match d with
  | S754_finite s m e => (IZR (cond_Zopp s (Zpos m)) * powerRZ 2 e)%R
  | _ => 0%R
  end.

Definition nonnegative_finite (d : c10.double) : Prop :=
  match d with
  | S754_zero _ | S754_finite false _ _ => True
  | _ => False
  end.

Lemma powerRZ_2_nonneg e : 0 ≤ e → powerRZ 2 e = IZR (2 ^ e).
Proof.
  intros He. rewrite <- (Z2Nat.id e He) at 1.
  rewrite <- pow_powerRZ, pow_IZR. by rewrite Z2Nat.id.
Qed.

(** Dropping the fractional part of a non-negative double [d]: an integer is
    below the result exactly when its successor is at most [d]. *)
Lemma trunc_double_spec d k :
  nonnegative_finite d →
  k < trunc_double d ↔ (IZR k + 1 <= double_to_R d)%R.
Proof.
  rewrite <- (plus_IZR k 1).
  destruct d as [?|?| |[] m e]; simpl; try done; intros _.
  - split; [intros; apply IZR_le; lia|intros Hle; apply le_IZR in Hle; lia].
  - destruct (Z.le_gt_cases 0 e) as [He|He].
    + rewrite Z.shiftl_mul_pow2, powerRZ_2_nonneg, <- mult_IZR by done.
      split; [intros; apply IZR_le; lia|intros Hle; apply le_IZR in Hle; lia].
    + assert (0 < 2 ^ (- e)) as Hpow by (apply Z.pow_pos_nonneg; lia).
      rewrite Z.shiftl_div_pow2 by lia.
      replace (powerRZ 2 e) with (/ powerRZ 2 (- e))%R
        by (rewrite <- powerRZ_neg'; f_equal; lia).
      rewrite powerRZ_2_nonneg by lia.
      assert (0 < IZR (2 ^ (- e)))%R as HpowR by (by apply (IZR_lt 0)).
      assert (IZR (Z.pos m) * / IZR (2 ^ (- e)) * IZR (2 ^ (- e)) = IZR (Z.pos m))%R
        as Hcancel by (field; lra).
      split.
      * intros Hlt. apply (Rmult_le_reg_r (IZR (2 ^ (- e)))); [done|].
        rewrite Hcancel, <- mult_IZR. apply IZR_le.
        assert (k + 1 ≤ Z.pos m / 2 ^ (- e)) as Hle by lia.
        etrans; [apply Z.mul_le_mono_nonneg_r; [lia|exact Hle]|].
        rewrite Z.mul_comm. apply Z.mul_div_le. lia.
      * intros Hle.
        apply (Rmult_le_compat_r (IZR (2 ^ (- e)))) in Hle; [|lra].
        rewrite Hcancel, <- mult_IZR in Hle. apply le_IZR in Hle.
        assert (k + 1 ≤ Z.pos m / 2 ^ (- e)); [|lia].
        apply Z.div_le_lower_bound; lia.
Qed.

Section Select.
Context `{Primitives} `{Cmath}.

(** C3 (amended): for a non-empty elements array, [isin_Tensor_Tensor_out]
    compares the number m of test elements with the bound 10 * n^0.145 as
    the source evaluates it: n, the number of elements, is rounded to a
    double, raised to the double nearest to 0.145 by [std::pow], multiplied
    by 10 with one rounding, and the fractional part is dropped.  The
    brute-force path runs exactly when m is below that integer, the
    sort-based path otherwise; when the double bound is finite and not
    negative, the brute-force path runs exactly when m + 1 is at most the
    double bound. *)
Theorem isin_select_spec
    (elements test_elements : Array) (assume_unique invert : bool)
    (out : list bool) :
  values elements ≠ [] →
  let n := Z.of_nat (length (values elements)) in
  let m := Z.of_nat (length (values test_elements)) in
  let bound :=
    SFmul 53 1024 (double_of_Z 10) (std_pow (double_of_Z n) exponent_0_145) in
  (isin_select n m = BruteForce ↔ m < trunc_double bound) ∧
  (isin_select n m = SortBased ↔ trunc_double bound ≤ m) ∧
  (nonnegative_finite bound →
     isin_select n m = BruteForce ↔ (IZR m + 1 <= double_to_R bound)%R) ∧
  isin_Tensor_Tensor_out elements test_elements assume_unique invert out =
  match isin_select n m with
  | BruteForce => Some (isin_brute_force elements test_elements invert out)
  | SortBased => isin_sorting elements test_elements assume_unique invert out
  end.
Proof.
  intros Hne n m bound.
  assert (isin_select n m = BruteForce ↔ m < trunc_double bound) as Hb.
  { unfold isin_select, isin_threshold, isin_bound. fold bound.
    destruct (Z.ltb_spec m (trunc_double bound)); split; (done || lia). }
  split_and!; [done| | |].
  - unfold isin_select, isin_threshold, isin_bound. fold bound.
    destruct (Z.ltb_spec m (trunc_double bound)); split; (done || lia).
  - intros Hfin. by rewrite Hb, trunc_double_spec.
  - unfold isin_Tensor_Tensor_out, isin_Tensor_Tensor_out_on.
    rewrite decide_False; [done|]. by destruct (values elements).
Qed.

End Select.

Import IsinReference IsinPathFacts.

Lemma isin_select_spec_witness :
  isin_select 2 10 = BruteForce ∧
  isin_select 2 11 = SortBased ∧
  isin_bound 2 = S754_finite false 6224710197831622 (-49).
Proof.
  destruct (isin_select_spec (longs [0; 1]) (longs (replicate 10 0))
              false false [false; false]) as (Hbrute & _); [done|].
  destruct (isin_select_spec (longs [0; 1]) (longs (replicate 11 0))
              false false [false; false]) as (_ & Hsort & _); [done|].
  split_and!.
  - apply Hbrute. by vm_compute.
  - apply Hsort. by vm_compute.
  - by vm_compute.
Defined.

(** C3 as stated fails.  For 2 elements and 11 test elements,
    11 < 10 * 2^0.145 = 11.05..., and yet the sort-based path runs: the
    bound is cut to the integer 11 before the comparison.  Nor is the bound
    the integer part of 10 * n^0.145: for n = 4087403969015 that number
    exceeds 674, the double-precision product is 673.9999999999999, and with
    673 test elements the sort-based path runs. *)
Lemma isin_select_truncates :
  (let elements := longs [0; 1] in
   let test_elements := longs (replicate 11 0) in
   let n := Z.of_nat (length (values elements)) in
   let m := Z.of_nat (length (values test_elements)) in
   (IZR m < real_threshold n)%R ∧
   isin_threshold n = 11 ∧
   isin_select n m = SortBased ∧
   isin_Tensor_Tensor_out elements test_elements false false [false; false]
   = isin_sorting elements test_elements false false [false; false]) ∧
  (let n := 4087403969015 in
   let m := 673 in
   (IZR m + 1 <= real_threshold n)%R ∧
   isin_bound n = S754_finite false 5928566696968191 (-43) ∧
   isin_threshold n = 673 ∧
   isin_select n m = SortBased).
Proof.
  split.
  - intros elements test_elements n m. split; [|by vm_compute].
    apply lt_real_threshold; [done..|by vm_compute].
  - intros n m. split; [|by vm_compute].
    rewrite <- (plus_IZR m 1). apply le_real_threshold; [done..|by vm_compute].
Qed.

End ThresholdFacts.

(** ** Broadcasting *)
Module BroadcastFacts.
Import c10 ATen.

Lemma pad_to_same shape : pad_to (length shape) shape = shape.
Proof. unfold pad_to. by rewrite Nat.sub_diag. Qed.

Lemma infer_size_aligned_same shape : infer_size_aligned shape shape = Some shape.
Proof.
  induction shape as [|x shape IH]; simpl; [done|].
  rewrite IH. simpl. by rewrite decide_True.
Qed.

Lemma infer_size_same shape : infer_size shape shape = Some shape.
Proof.
  unfold infer_size. rewrite Nat.max_id, pad_to_same.
  apply infer_size_aligned_same.
Qed.

Lemma source_index_same shape i :
  (i < numel_of shape)%nat → source_index shape shape i = i.
Proof.
  revert i. induction shape as [|x shape IH]; intros i Hi; simpl in *; [lia|].
  destruct (Nat.eq_dec (numel_of shape) 0%nat) as [H0|H0]; [rewrite H0 in Hi; lia|].
  rewrite IH by (apply Nat.mod_upper_bound; lia).
  destruct (decide (x = 1%nat)) as [->|Hx].
  - rewrite Nat.mod_small by lia. lia.
  - pose proof (Nat.div_mod_eq i (numel_of shape)). lia.
Qed.

Lemma expand_same {A} shape (d : list A) :
  length d = numel_of shape → expand shape shape d = Some d.
Proof.
  intros Hlen. unfold expand. rewrite pad_to_same.
  apply mapM_Some, Forall2_same_length_lookup. split.
  - by rewrite length_seq.
  - intros i j x Hj Hx. apply lookup_seq in Hj as [-> Hi].
    by rewrite source_index_same.
Qed.

Lemma expand_length {A} shape target (d d' : list A) :
  expand shape target d = Some d' → length d' = numel_of target.
Proof.
  unfold expand. intros Hm. apply mapM_Some, Forall2_length in Hm.
  by rewrite length_seq in Hm.
Qed.

Lemma expand_fmap {A B} (f : A → B) shape target (d d' : list A) :
  expand shape target d = Some d' →
  expand shape target (f <$> d) = Some (f <$> d').
Proof.
  unfold expand. intros Hm. apply mapM_Some in Hm. apply mapM_Some.
  apply Forall2_fmap_r. eapply Forall2_impl; [exact Hm|].
  intros i x Hx. simpl in *. by rewrite list_lookup_fmap, Hx.
Qed.

Lemma broadcast2_same {A B} shape (da : list A) (db : list B) :
  length da = numel_of shape → length db = numel_of shape →
  broadcast2 (shape, da) (shape, db) = Ok (shape, da, db).
Proof.
  intros Ha Hb. unfold broadcast2. simpl.
  by rewrite infer_size_same, !expand_same.
Qed.

Lemma broadcast2_fmap {A B A' B'} (f : A → A') (g : B → B')
    sa sb (a : list A) (b : list B) shape da db :
  broadcast2 (sa, a) (sb, b) = Ok (shape, da, db) →
  broadcast2 (sa, f <$> a) (sb, g <$> b) = Ok (shape, f <$> da, g <$> db).
Proof.
  unfold broadcast2. simpl. destruct (infer_size sa sb) as [s|]; [|done].
  destruct (expand sa s a) as [ea|] eqn:Ha; [|done].
  destruct (expand sb s b) as [eb|] eqn:Hb; [|done].
  intros [= <- <- <-].
  by rewrite (expand_fmap f _ _ _ _ Ha), (expand_fmap g _ _ _ _ Hb).
Qed.

Lemma broadcast2_length {A B} sa sb (a : list A) (b : list B) shape da db :
  broadcast2 (sa, a) (sb, b) = Ok (shape, da, db) →
  length da = numel_of shape ∧ length db = numel_of shape.
Proof.
  unfold broadcast2. simpl. destruct (infer_size sa sb) as [s|]; [|done].
  destruct (expand sa s a) as [ea|] eqn:Ha; [|done].
  destruct (expand sb s b) as [eb|] eqn:Hb; [|done].
  intros [= <- <- <-]. split; by eapply expand_length.
Qed.

End BroadcastFacts.

(** ** Clamping *)
Module ClampFacts.
Import c10 ATen native MonadFacts.

Lemma is_same_refl (t : Tensor) : is_same t t = true.
Proof. unfold is_same. by rewrite bool_decide_eq_true. Qed.

Section Promotion.
Context `{TypeProperties} `{Backend}.

(** The type [meta::clamp] resolves for a self that is not floating point. *)
Definition clamp_promoted (self : Tensor) (min max : option Scalar) : ScalarType :=
  result_type_of_state
    (meta.update_if_present max
       (meta.update_if_present min
          (update_result_type_state self ResultTypeState_init))).

Lemma meta_clamp_not_floating self min max out :
  (is_Some min ∨ is_Some max) →
  isComplexType (scalar_type self) = false →
  isFloatingType (scalar_type self) = false →
  meta.clamp self min max out =
  (TORCH_CHECK
     (bool_decide (clamp_promoted self min max = scalar_type self)
      || (negb (defined out) || negb (meta.is_same_output out self)))
     UnsafeCast;;
   TORCH_CHECK (negb (isComplexType (clamp_promoted self min max))) UnsupportedType;;
   self' ← at_to self (clamp_promoted self min max);
   lift (build_unary_op out self')).
Proof.
  intros Hb Hc Hf. unfold meta.clamp.
  assert (negb (bool_decide (is_Some min)) && negb (bool_decide (is_Some max)) = false)
    as ->.
  { destruct Hb as [Hb|Hb]; rewrite (bool_decide_eq_true_2 _ Hb); simpl;
      [done|by rewrite andb_false_r]. }
  rewrite bind_ret_l, Hc, Hf. simpl negb. rewrite bind_check_true.
  rewrite !bind_assoc. fold (clamp_promoted self min max).
  destruct (bool_decide _ || _); [|done].
  by rewrite !bind_check_true, bind_ret_l.
Qed.

Lemma meta_clamp_complex self min max out :
  (is_Some min ∨ is_Some max) →
  isComplexType (scalar_type self) = true →
  meta.clamp self min max out = mkM (Err UnsupportedType) [].
Proof.
  intros Hb Hc. unfold meta.clamp.
  assert (negb (bool_decide (is_Some min)) && negb (bool_decide (is_Some max)) = false)
    as ->.
  { destruct Hb as [Hb|Hb]; rewrite (bool_decide_eq_true_2 _ Hb); simpl;
      [done|by rewrite andb_false_r]. }
  by rewrite bind_ret_l, Hc.
Qed.

Lemma meta_clamp_floating self min max out :
  (is_Some min ∨ is_Some max) →
  isFloatingType (scalar_type self) = true →
  meta.clamp self min max out = lift (build_unary_op out self).
Proof.
  intros Hb Hf. unfold meta.clamp.
  assert (negb (bool_decide (is_Some min)) && negb (bool_decide (is_Some max)) = false)
    as ->.
  { destruct Hb as [Hb|Hb]; rewrite (bool_decide_eq_true_2 _ Hb); simpl;
      [done|by rewrite andb_false_r]. }
  assert (isComplexType (scalar_type self) = false) as Hc
    by (by destruct (scalar_type self)).
  rewrite bind_ret_l, Hc, Hf. simpl negb.
  rewrite bind_check_true, bind_ret_l, Hc. simpl negb. rewrite bind_check_true.
  unfold at_to. rewrite bool_decide_eq_true_2 by done. by rewrite bind_ret_l.
Qed.

Lemma meta_clamp_min_not_floating self min out :
  isComplexType (scalar_type self) = false →
  isFloatingType (scalar_type self) = false →
  meta.clamp_min self min out =
  (TORCH_CHECK (negb (Scalar_isComplex min)) UnsupportedType;;
   TORCH_CHECK
     (bool_decide (result_type_Tensor_Scalar self min = scalar_type self)
      || negb (defined out) || negb (meta.is_same_output out self))
     UnsafeCast;;
   self' ← at_to self (result_type_Tensor_Scalar self min);
   lift (build_unary_op out self')).
Proof.
  intros Hc Hf. unfold meta.clamp_min. rewrite Hc, Hf. simpl negb.
  by rewrite bind_check_true.
Qed.

Lemma meta_clamp_max_not_floating self max out :
  isComplexType (scalar_type self) = false →
  isFloatingType (scalar_type self) = false →
  meta.clamp_max self max out =
  (TORCH_CHECK (negb (Scalar_isComplex max)) UnsupportedType;;
   TORCH_CHECK
     (bool_decide (result_type_Tensor_Scalar self max = scalar_type self)
      || (negb (defined out) || negb (meta.is_same_output out self)))
     UnsafeCast;;
   self' ← at_to self (result_type_Tensor_Scalar self max);
   lift (build_unary_op out self')).
Proof.
  intros Hc Hf. unfold meta.clamp_max. rewrite Hc, Hf. simpl negb.
  by rewrite bind_check_true.
Qed.

Lemma meta_clamp_min_floating self min out :
  isFloatingType (scalar_type self) = true →
  meta.clamp_min self min out =
  (TORCH_CHECK (negb (Scalar_isComplex min)) UnsupportedType;;
   lift (build_borrowing_unary_op out self)).
Proof.
  intros Hf. unfold meta.clamp_min.
  assert (isComplexType (scalar_type self) = false) as Hc
    by (by destruct (scalar_type self)).
  rewrite Hc, Hf. simpl negb. by rewrite bind_check_true.
Qed.

Lemma meta_clamp_max_floating self max out :
  isFloatingType (scalar_type self) = true →
  meta.clamp_max self max out =
  (TORCH_CHECK (negb (Scalar_isComplex max)) UnsupportedType;;
   lift (build_borrowing_unary_op out self)).
Proof.
  intros Hf. unfold meta.clamp_max.
  assert (isComplexType (scalar_type self) = false) as Hc
    by (by destruct (scalar_type self)).
  rewrite Hc, Hf. simpl negb. by rewrite bind_check_true.
Qed.

(** C6 (amended): an in-place scalar-bound clamp on a self that is not
    floating point, whose promoted type differs from the stored type, fails
    before anything is dispatched: with [UnsafeCast] when neither self nor,
    for [clamp_min_] and [clamp_max_], the bound is complex; a complex self,
    and a complex bound of [clamp_min_] and [clamp_max_], are rejected first
    with [UnsupportedType].  On a floating-point self the meta step does not
    consult the promotion at all and goes to the iterator builder. *)
Theorem clamp_inplace_promotion (self : Tensor) :
  (∀ min max,
     (is_Some min ∨ is_Some max) →
     isFloatingType (scalar_type self) = false →
     clamp_promoted self min max ≠ scalar_type self →
     (isComplexType (scalar_type self) = false →
      at_clamp_ self min max = mkM (Err UnsafeCast) []) ∧
     (isComplexType (scalar_type self) = true →
      at_clamp_ self min max = mkM (Err UnsupportedType) [])) ∧
  (∀ bound,
     isFloatingType (scalar_type self) = false →
     result_type_Tensor_Scalar self bound ≠ scalar_type self →
     (isComplexType (scalar_type self) = false →
      Scalar_isComplex bound = false →
      at_clamp_min_ self bound = mkM (Err UnsafeCast) [] ∧
      at_clamp_max_ self bound = mkM (Err UnsafeCast) []) ∧
     (isComplexType (scalar_type self) = true ∨ Scalar_isComplex bound = true →
      at_clamp_min_ self bound = mkM (Err UnsupportedType) [] ∧
      at_clamp_max_ self bound = mkM (Err UnsupportedType) [])) ∧
  (isFloatingType (scalar_type self) = true →
   (∀ min max,
      (is_Some min ∨ is_Some max) →
      meta.clamp self min max (Some self) = lift (build_unary_op (Some self) self)) ∧
   (∀ bound,
      meta.clamp_min self bound (Some self) =
        (TORCH_CHECK (negb (Scalar_isComplex bound)) UnsupportedType;;
         lift (build_borrowing_unary_op (Some self) self)) ∧
      meta.clamp_max self bound (Some self) =
        (TORCH_CHECK (negb (Scalar_isComplex bound)) UnsupportedType;;
         lift (build_borrowing_unary_op (Some self) self)))).
Proof.
  split_and!.
  - intros min max Hb Hf Hne. split; intros Hc.
    + unfold at_clamp_, at_clamp_structured.
      rewrite meta_clamp_not_floating by done.
      rewrite (bool_decide_eq_false_2 _ Hne). simpl. by rewrite is_same_refl.
    + unfold at_clamp_, at_clamp_structured. by rewrite meta_clamp_complex.
  - intros bound Hf Hne. split.
    + intros Hc Hb.
      unfold at_clamp_min_, at_clamp_min_structured, at_clamp_max_,
        at_clamp_max_structured.
      rewrite meta_clamp_min_not_floating, meta_clamp_max_not_floating by done.
      rewrite Hb, (bool_decide_eq_false_2 _ Hne). simpl. by rewrite is_same_refl.
    + intros Hcb.
      unfold at_clamp_min_, at_clamp_min_structured, at_clamp_max_,
        at_clamp_max_structured, meta.clamp_min, meta.clamp_max.
      destruct (isComplexType (scalar_type self)) eqn:Hc; [done|].
      destruct Hcb as [?| ->]; [done|]. done.
  - intros Hf. split.
    + intros min max Hb. by apply meta_clamp_floating.
    + intros bound. by rewrite meta_clamp_min_floating, meta_clamp_max_floating.
Qed.

End Promotion.

(** *** NaN bounds *)

Lemma shr_1_nonneg mrs : 0 ≤ shr_m mrs → 0 ≤ shr_m (shr_1 mrs).
Proof. destruct mrs as [[|[p|p|]|p] r s]; simpl; lia. Qed.

Lemma iter_pos_shr_1_nonneg p mrs :
  0 ≤ shr_m mrs → 0 ≤ shr_m (SpecFloat.iter_pos shr_1 p mrs).
Proof.
  revert mrs. induction p as [p IH|p IH|]; intros mrs Hm; simpl.
  - by apply IH, IH, shr_1_nonneg.
  - by apply IH, IH.
  - by apply shr_1_nonneg.
Qed.

Lemma shr_fexp_nonneg prec emax m e l :
  0 ≤ m → 0 ≤ shr_m (shr_fexp prec emax m e l).1.
Proof.
  intros Hm. unfold shr_fexp, shr.
  assert (0 ≤ shr_m (shr_record_of_loc m l)) by (by destruct l as [|[]]).
  destruct (_ - e); simpl; [done| |done]. by apply iter_pos_shr_1_nonneg.
Qed.

Lemma round_nearest_even_nonneg m l : 0 ≤ m → 0 ≤ round_nearest_even m l.
Proof.
  intros Hm. destruct l as [|[]]; simpl; [done| |done|lia].
  destruct (Z.even m); lia.
Qed.

Lemma binary_round_aux_not_nan prec emax s m e l :
  0 ≤ m → binary_round_aux prec emax s m e l ≠ S754_nan.
Proof.
  intros Hm. unfold binary_round_aux.
  pose proof (shr_fexp_nonneg prec emax m e l Hm) as H1.
  destruct (shr_fexp prec emax m e l) as [mrs' e']. simpl in H1.
  pose proof (shr_fexp_nonneg prec emax
                (round_nearest_even (shr_m mrs') (loc_of_shr_record mrs')) e'
                loc_Exact (round_nearest_even_nonneg _ _ H1)) as H2.
  destruct (shr_fexp prec emax _ e' loc_Exact) as [mrs'' e'']. simpl in H2.
  destruct (shr_m mrs''); [done| |lia].
  by destruct (_ <=? _).
Qed.

Lemma binary_normalize_not_nan prec emax m e s :
  binary_normalize prec emax m e s ≠ S754_nan.
Proof.
  destruct m as [|p|p]; simpl; [done|..]; unfold binary_round;
    destruct (shl_align _ _ _); by apply binary_round_aux_not_nan.
Qed.

Lemma double_ne_itself d : double_ne d d = true ↔ d = S754_nan.
Proof.
  split; [|by intros ->].
  unfold double_ne, SFeqb. destruct d as [s|s| |s m e]; simpl; try done.
  - by destruct s.
  - rewrite Z.compare_refl, Pos.compare_cont_refl. by destruct s.
Qed.

Lemma round_to_nan t d : round_to t d = S754_nan ↔ d = S754_nan.
Proof.
  split; [|by intros ->].
  destruct d; simpl; try done. intros Hn. by apply binary_normalize_not_nan in Hn.
Qed.

(** A scalar that converts to a NaN is a floating-point or complex NaN, and
    stays one in every floating-point element type. *)
Lemma convert_nan (v : Scalar) (t : ScalarType) :
  toDouble v = Ok S754_nan →
  isFloatingType t = true →
  convert (Scalar_type v) t v = HAS_d S754_nan.
Proof.
  intros Hv Ht. unfold convert, cast_to. rewrite Ht.
  destruct v as [d|i|re im|b]; simpl in *.
  - injection Hv as ->. by case_bool_decide.
  - injection Hv as Hv. by apply binary_normalize_not_nan in Hv.
  - destruct (double_eq im double_zero); [|done]. injection Hv as ->.
    case_bool_decide; [by subst|done].
  - injection Hv as Hv. by apply binary_normalize_not_nan in Hv.
Qed.

(** Every element is a NaN: it differs from itself. *)
Definition all_nan (t : Tensor) : Prop :=
  length (data t) = numel t ∧ Forall (λ v, value_ne v v = true) (data t).

Section NaN.
Context `{Backend}.

Lemma toDouble_ne_itself_spec (x : Scalar) (d : double) :
  toDouble x = Ok d → toDouble_ne_itself x = ret (double_ne d d).
Proof. intros Hx. unfold toDouble_ne_itself. by rewrite Hx, !bind_lift_Ok. Qed.

Lemma fill_nan (result : Tensor) (v : Scalar) :
  toDouble v = Ok S754_nan →
  isFloatingType (scalar_type result) = true →
  ∃ r, at_fill_ result v = mkM (Ok r) ["fill_"] ∧ all_nan r.
Proof.
  intros Hv Ht. eexists. split; [reflexivity|].
  rewrite convert_nan by done. split; simpl.
  - by rewrite length_replicate.
  - by apply Forall_replicate.
Qed.

(** The scalar-bound clamps with a NaN bound fill the output with NaN and
    dispatch no clamp kernel: [clamp] when both bounds are given and either
    is NaN, [clamp_min] and [clamp_max] when their bound is NaN. *)
Lemma clamp_nan_bound_fills (it : TensorIteratorBase) (self result : Tensor) :
  isFloatingType (scalar_type result) = true →
  (∀ min max dmin dmax,
     toDouble min = Ok dmin → toDouble max = Ok dmax →
     double_ne dmin dmin = true ∨ double_ne dmax dmax = true →
     ∃ r, clamp_out it self (Some min) (Some max) result = mkM (Ok r) ["fill_"]
          ∧ all_nan r) ∧
  (∀ bound d,
     toDouble bound = Ok d → double_ne d d = true →
     (∃ r, clamp_min_out it self bound result = mkM (Ok r) ["fill_"] ∧ all_nan r) ∧
     (∃ r, clamp_max_out it self bound result = mkM (Ok r) ["fill_"] ∧ all_nan r)).
Proof.
  intros Ht. split.
  - intros min max dmin dmax Hmin Hmax Hnan. unfold clamp_out.
    rewrite (toDouble_ne_itself_spec _ _ Hmin), bind_ret_l.
    assert ((if double_ne dmin dmin then ret true else toDouble_ne_itself max)
            = ret true) as ->.
    { destruct (double_ne dmin dmin) eqn:Hd; [done|].
      rewrite (toDouble_ne_itself_spec _ _ Hmax).
      destruct Hnan as [? | ->]; done. }
    rewrite bind_ret_l. by apply fill_nan.
  - intros bound d Hb Hnan. apply double_ne_itself in Hnan as Hd. subst d.
    unfold clamp_min_out, clamp_max_out.
    rewrite (toDouble_ne_itself_spec _ _ Hb), !bind_ret_l. simpl.
    split; [by apply fill_nan|].
    eexists. split.
    + unfold at_fill_Tensor, wrapped_scalar_tensor, dim. simpl.
      rewrite empty_sizes. simpl. reflexivity.
    + rewrite empty_scalar_type, convert_nan by done. split; simpl.
      * by rewrite length_replicate.
      * by apply Forall_replicate.
Qed.

End NaN.

(** *** Array bounds and the alias *)


(** C10: every [clip] entry point returns what the [clamp] entry point of the
    same variant returns on the same arguments, result or failure, with the
    same dispatch trace. *)
Theorem clip_is_clamp `{TypeProperties} `{Backend}
    (self result : Tensor) (min max : option Scalar) (tmin tmax : option Tensor) :
  clip self min max = at_clamp self min max ∧
  clip_ self min max = at_clamp_ self min max ∧
  clip_out self min max result = at_clamp_outf self min max result ∧
  clip_Tensor self tmin tmax = at_clamp_Tensor self tmin tmax ∧
  clip__Tensor self tmin tmax = at_clamp__Tensor self tmin tmax ∧
  clip_out_Tensor self tmin tmax result = at_clamp_outf_Tensor self tmin tmax result.
Proof.
  unfold clip, clip_, clip_out, clip_Tensor, clip__Tensor, clip_out_Tensor.
  by split_and!.
Qed.

Import Reference.

(** The scenario of the specification, and a one-sided clamp next to
    [maximum] and [minimum]. *)
Example clamp_scenario :
  let self := make 1 [3%nat] Long [HAS_i (-1); HAS_i 0; HAS_i 5] in
  ∃ r, at_clamp self (Some (HAS_i 0)) (Some (HAS_i 3))
       = mkM (Ok r) ["clamp_scalar_stub"]
       ∧ data r = [HAS_i 0; HAS_i 0; HAS_i 3].
Proof. eexists. split; reflexivity. Qed.

Example clamp_Tensor_one_sided :
  let x := make 1 [3%nat] Long [HAS_i 1; HAS_i 5; HAS_i 3] in
  let b := make 2 [3%nat] Long [HAS_i 2; HAS_i 2; HAS_i 4] in
  at_clamp_Tensor x (Some b) None = at_maximum x b ∧
  at_clamp_Tensor x None (Some b) = at_minimum x b ∧
  (∃ r, at_clamp_Tensor x (Some b) None = mkM (Ok r) ["maximum_stub"]
        ∧ data r = [HAS_i 2; HAS_i 5; HAS_i 4]) ∧
  (∃ r, clip_Tensor x None (Some b) = mkM (Ok r) ["minimum_stub"]
        ∧ data r = [HAS_i 1; HAS_i 2; HAS_i 3]).
Proof. split_and!; [reflexivity..| |]; eexists; split; reflexivity. Qed.



Lemma clamp_nan_bound_fills_witness :
  ∃ r,
    clamp_min_out
      {| output := make 2 [2%nat] Float []; inputs := []; common_dtype := Float |}
      (make 1 [2%nat] Float [HAS_d (double_of_Z 1); HAS_d (double_of_Z 1)])
      (HAS_d quiet_NaN) (make 2 [2%nat] Float [])
    = mkM (Ok r) ["fill_"] ∧ all_nan r.
Proof.
  destruct (clamp_nan_bound_fills
              {| output := make 2 [2%nat] Float []; inputs := [];
                 common_dtype := Float |}
              (make 1 [2%nat] Float [HAS_d (double_of_Z 1); HAS_d (double_of_Z 1)])
              (make 2 [2%nat] Float []) eq_refl) as [_ Hbound].
  destruct (Hbound (HAS_d quiet_NaN) quiet_NaN eq_refl eq_refl) as [Hmin _].
  exact Hmin.
Defined.

(** C2 fails on the code: [clamp] of a float array with the single bound
    min = NaN dispatches [clamp_min_scalar_stub], and the kernel, which takes
    the greater of the element and the bound, returns the element, since no
    comparison with NaN holds.  [clamp_min] on the same operands fills the
    output with NaN. *)
Theorem clamp_single_nan_bound_not_filled :
  let one := double_of_Z 1 in
  let self := make 1 [2%nat] Float [HAS_d one; HAS_d one] in
  let nan := HAS_d quiet_NaN in
  (∃ r, at_clamp self (Some nan) None = mkM (Ok r) ["clamp_min_scalar_stub"]
        ∧ data r = [HAS_d one; HAS_d one]) ∧
  (∃ r, at_clamp self None (Some nan) = mkM (Ok r) ["clamp_max_scalar_stub"]
        ∧ data r = [HAS_d one; HAS_d one]) ∧
  (∃ r, at_clamp_min_structured None self nan = mkM (Ok r) ["fill_"]
        ∧ data r = [nan; nan]) ∧
  (∃ r, at_clamp self (Some nan) (Some (HAS_d one)) = mkM (Ok r) ["fill_"]
        ∧ data r = [nan; nan]).
Proof. vm_compute. split_and!; eexists; split; reflexivity. Qed.

(** C6 on the reference implementation: a 64-bit integer array clamped in
    place with a floating-point bound. *)
Lemma clamp_inplace_promotion_witness :
  let self := Reference.make 1 [3%nat] Long [HAS_i (-1); HAS_i 0; HAS_i 5] in
  let min := Some (HAS_d (double_of_Z 1)) in
  clamp_promoted self min None = Float ∧
  at_clamp_ self min None = mkM (Err UnsafeCast) [].
Proof.
  intros self min. split; [reflexivity|].
  apply (clamp_inplace_promotion self); [by left; eexists|reflexivity|discriminate|reflexivity].
Defined.

(** C6 as stated fails: [clamp_min_] on a 64-bit integer array with a complex
    bound.  The promoted type is complex, not the stored type, and the call
    fails, but with [UnsupportedType]: the bound is rejected before the
    promotion is looked at. *)
Lemma clamp_min_inplace_complex_bound :
  let self := Reference.make 1 [2%nat] Long [HAS_i 1; HAS_i 2] in
  let min := HAS_z (double_of_Z 1) (double_of_Z 2) in
  isFloatingType (scalar_type self) = false ∧
  result_type_Tensor_Scalar self min = ComplexFloat ∧
  result_type_Tensor_Scalar self min ≠ scalar_type self ∧
  at_clamp_min_ self min = mkM (Err UnsupportedType) [] ∧
  mkM (A := Tensor) (Err UnsupportedType) [] ≠ mkM (Err UnsafeCast) [].
Proof. split_and!; (reflexivity || discriminate). Qed.

End ClampFacts.

(** ** Closeness *)
Module IscloseFacts.
Import c10 ATen native MonadFacts BroadcastFacts.

Lemma double_lt_zero_not_ge d :
  SFltb d double_zero = true → double_ge d double_zero = false.
Proof. by destruct d as [[]|[]| |[] ? ?]. Qed.

Lemma double_eq_zero_ge d :
  double_eq d double_zero = true → double_ge d double_zero = true.
Proof. by destruct d as [[]|[]| |[] ? ?]. Qed.

(** What zero tolerances leave of closeness: equality, or both NaN when NaNs
    are to compare equal. *)
Definition close_value (equal_nan : bool) (x y : Scalar) : bool :=
  value_eq x y || (equal_nan && (value_ne x x && value_ne y y)).

Lemma expand_elem_of {A} shape target (d d' : list A) x :
  expand shape target d = Some d' → x ∈ d' → x ∈ d.
Proof.
  unfold expand. intros Hm Hx. apply mapM_Some in Hm.
  apply list_elem_of_lookup_1 in Hx as [i Hi].
  destruct (Forall2_lookup_r _ _ _ _ _ Hm Hi) as (j & _ & Hj).
  by eapply list_elem_of_lookup_2.
Qed.

Lemma zip_with_ext_Forall {A B C} (f g : A → B → C) l k :
  Forall (λ x, ∀ y, f x y = g x y) l → zip_with f l k = zip_with g l k.
Proof.
  intros Hl. revert k. induction Hl as [|x l Hx Hl IH]; intros [|y k]; simpl; [done..|].
  by rewrite Hx, IH.
Qed.

Lemma not_nan_of_type t v :
  isFloatingType t = false → isComplexType t = false →
  has_type t v → value_ne v v = false.
Proof.
  intros Hf Hc. destruct v as [d|i|re im|b]; simpl; intros Hv; try congruence.
  - unfold value_ne. simpl. by rewrite Z.eqb_refl.
  - unfold value_ne. simpl. by destruct b.
Qed.

Lemma zip_with_diag {A B} (f : A → A → B) (l : list A) :
  zip_with f l l = (λ x, f x x) <$> l.
Proof. induction l as [|x l IH]; simpl; [done|]. by rewrite IH. Qed.

Lemma nan_masks_combine (da db : list Scalar) :
  zip_with (λ x y, HAS_b (truth x || truth y))
    (zip_with (λ x y, HAS_b (value_eq x y)) da db)
    (zip_with (λ x y, HAS_b (truth x && truth y))
       ((λ x, HAS_b (value_ne x x)) <$> da) ((λ x, HAS_b (value_ne x x)) <$> db))
  = HAS_b <$> zip_with (close_value true) da db.
Proof.
  revert db. induction da as [|x da IH]; intros [|y db]; simpl; [done..|].
  by rewrite IH.
Qed.

Section Isclose.
Context `{TypeProperties} `{Backend}.

(** C7 (amended): [isclose] fails with [DtypeMismatch] when the element types
    differ; with [UnsupportedType] when they agree and an operand is
    quantized; with [InvalidArgument] when they agree, no operand is
    quantized and a tolerance is negative.  In each case nothing has been
    dispatched and there is no result. *)
Theorem isclose_validation (self other : Tensor) (rtol atol : double)
    (equal_nan : bool) :
  (scalar_type self ≠ scalar_type other →
   isclose self other rtol atol equal_nan = mkM (Err DtypeMismatch) []) ∧
  (scalar_type self = scalar_type other →
   is_quantized self = true ∨ is_quantized other = true →
   isclose self other rtol atol equal_nan = mkM (Err UnsupportedType) []) ∧
  (scalar_type self = scalar_type other →
   is_quantized self = false → is_quantized other = false →
   SFltb rtol double_zero = true ∨ SFltb atol double_zero = true →
   isclose self other rtol atol equal_nan = mkM (Err InvalidArgument) []).
Proof.
  unfold isclose. split_and!.
  - intros Hne. by rewrite (bool_decide_eq_false_2 _ Hne).
  - intros Heq Hq. rewrite (bool_decide_eq_true_2 _ Heq), bind_check_true.
    by destruct Hq as [-> | ->]; rewrite ?orb_true_r.
  - intros Heq Hq1 Hq2 Htol.
    rewrite (bool_decide_eq_true_2 _ Heq), bind_check_true, Hq1, Hq2.
    simpl negb. rewrite bind_check_true.
    destruct (double_ge rtol double_zero) eqn:Hr.
    + rewrite bind_check_true. destruct Htol as [Hlt|Hlt].
      * apply double_lt_zero_not_ge in Hlt. congruence.
      * by rewrite (double_lt_zero_not_ge _ Hlt).
    + done.
Qed.

Lemma isnan_spec (self : Tensor) :
  length (data self) = numel self →
  isnan self =
  mkM (Ok (with_data (empty (sizes self) Bool (device self))
             ((λ x, HAS_b (value_ne x x)) <$> data self))) ["ne"].
Proof.
  intros Hlen. unfold isnan, at_ne, binary_op, call.
  rewrite broadcast2_same by done. by rewrite zip_with_diag.
Qed.

(** With zero tolerances [isclose] returns the mask of [close_value] over the
    broadcast operands and dispatches no arithmetic, provided, when the NaN
    masks are combined in place, that the broadcast has the shape of
    [self]. *)
Lemma isclose_zero_tolerances (self other : Tensor) (rtol atol : double)
    (equal_nan : bool) shape da db :
  scalar_type self = scalar_type other →
  is_quantized self = false → is_quantized other = false →
  well_formed self → well_formed other →
  double_eq rtol double_zero = true → double_eq atol double_zero = true →
  broadcast2 (sizes self, data self) (sizes other, data other) = Ok (shape, da, db) →
  (equal_nan && (is_floating_point self || is_complex self) = true →
   shape = sizes self) →
  ∃ r,
    isclose self other rtol atol equal_nan =
      mkM (Ok r)
        (if equal_nan && (is_floating_point self || is_complex self)
         then ["eq"; "ne"; "ne"; "__iand__"; "__ior__"] else ["eq"]) ∧
    sizes r = shape ∧ scalar_type r = Bool ∧
    data r = HAS_b <$> zip_with (close_value equal_nan) da db.
Proof.
  intros Heq Hq1 Hq2 [Hn1 Ht1] [Hn2 Ht2] Hr Ha Hbc Hshape. unfold isclose.
  rewrite (bool_decide_eq_true_2 _ Heq), bind_check_true, Hq1, Hq2.
  simpl negb. rewrite bind_check_true.
  rewrite (double_eq_zero_ge _ Hr), (double_eq_zero_ge _ Ha), !bind_check_true.
  rewrite Hr, Ha. simpl andb.
  destruct (broadcast2_length _ _ _ _ _ _ _ Hbc) as [Hla Hlb].
  unfold at_eq at 1, binary_op, call. rewrite Hbc, bind_Ok.
  destruct (equal_nan && (is_floating_point self || is_complex self)) eqn:Hnan.
  - specialize (Hshape eq_refl). subst shape.
    apply andb_true_iff in Hnan as [-> _].
    rewrite !isnan_spec by done. rewrite !bind_Ok.
    unfold __iand__, binary_op_, call. simpl sizes. rewrite !empty_sizes. simpl data.
    rewrite (broadcast2_fmap _ _ _ _ _ _ _ _ _ Hbc).
    rewrite bool_decide_eq_true_2 by done. rewrite !bind_Ok.
    unfold __ior__, binary_op_, call. simpl sizes. rewrite !empty_sizes. simpl data.
    rewrite broadcast2_same
      by (rewrite length_zip_with, ?length_fmap; lia).
    rewrite bool_decide_eq_true_2 by done. simpl.
    eexists. split; [reflexivity|]. simpl.
    rewrite empty_sizes, empty_scalar_type. split_and!; [done..|].
    apply nan_masks_combine.
  - rewrite bind_ret_l. simpl.
    eexists. split; [reflexivity|]. simpl.
    rewrite empty_sizes, empty_scalar_type. split_and!; [done..|].
    assert (zip_with (close_value equal_nan) da db = zip_with value_eq da db) as ->.
    { apply zip_with_ext_Forall, Forall_forall. intros x Hx y. unfold close_value.
      destruct equal_nan; simpl; [|by rewrite orb_false_r].
      simpl in Hnan. apply orb_false_iff in Hnan as [Hf Hc].
      unfold broadcast2 in Hbc. simpl in Hbc.
      destruct (infer_size _ _) as [sh|]; [|done].
      destruct (expand (sizes self) sh (data self)) as [ea|] eqn:Hea; [|done].
      destruct (expand (sizes other) sh (data other)) as [eb|]; [|done].
      injection Hbc as <- <- <-.
      apply (expand_elem_of _ _ _ _ _ Hea) in Hx.
      rewrite Forall_forall in Ht1.
      rewrite (not_nan_of_type _ _ Hf Hc (Ht1 x Hx)). by rewrite orb_false_r. }
    clear. revert db. induction da as [|x da IH]; intros [|y db]; simpl; [done..|].
    by rewrite IH.
Qed.

(** Closeness of an array with itself under zero tolerances: all true when
    NaNs compare equal, false exactly at the NaNs otherwise. *)
Lemma isclose_same (x : Tensor) (rtol atol : double) :
  is_quantized x = false → well_formed x →
  double_eq rtol double_zero = true → double_eq atol double_zero = true →
  (∃ r tr, isclose x x rtol atol true = mkM (Ok r) tr ∧ sizes r = sizes x ∧
           data r = replicate (numel x) (HAS_b true)) ∧
  (∃ r tr, isclose x x rtol atol false = mkM (Ok r) tr ∧ sizes r = sizes x ∧
           data r = (λ v, HAS_b (negb (value_ne v v))) <$> data x).
Proof.
  intros Hq Hwf Hr Ha. pose proof (wf_numel _ Hwf) as Hn.
  pose proof (broadcast2_same (sizes x) (data x) (data x) Hn Hn) as Hbc.
  split.
  - destruct (isclose_zero_tolerances x x rtol atol true _ _ _
                eq_refl Hq Hq Hwf Hwf Hr Ha Hbc (λ _, eq_refl))
      as (r & -> & Hs & _ & Hd).
    exists r. eexists. split_and!; [done..|].
    rewrite Hd, <- Hn, zip_with_diag, <- list_fmap_compose.
    apply const_fmap. intros _ v _. simpl. unfold close_value, value_ne. simpl.
    by destruct (value_eq v v).
  - destruct (isclose_zero_tolerances x x rtol atol false _ _ _
                eq_refl Hq Hq Hwf Hwf Hr Ha Hbc)
      as (r & -> & Hs & _ & Hd); [done|].
    exists r. eexists. split_and!; [done..|].
    rewrite Hd, zip_with_diag, <- list_fmap_compose.
    apply list_fmap_ext. intros _ v _. simpl. unfold close_value, value_ne. simpl.
    by rewrite orb_false_r, negb_involutive.
Qed.

End Isclose.

Import Reference.

Lemma isclose_validation_witness :
  let a := make 1 [2%nat] Float [HAS_d (double_of_Z 1); HAS_d (double_of_Z 2)] in
  isclose a a (double_of_Z (-1)) double_zero false = mkM (Err InvalidArgument) [].
Proof.
  intros a.
  apply (isclose_validation a a (double_of_Z (-1)) double_zero false);
    [reflexivity..|left; reflexivity].
Defined.

(** C7 as stated fails: a quantized operand next to a float operand.  An
    operand is quantized, and the failure is [DtypeMismatch], the first
    check. *)
Lemma isclose_quantized_dtype_mismatch :
  let q := make 1 [1%nat] QInt8 [HAS_i 3] in
  let f := make 2 [1%nat] Float [HAS_d (double_of_Z 3)] in
  is_quantized q = true ∧
  isclose q f double_zero double_zero false = mkM (Err DtypeMismatch) [] ∧
  mkM (A := Tensor) (Err DtypeMismatch) [] ≠ mkM (Err UnsupportedType) [].
Proof. split_and!; (reflexivity || discriminate). Qed.

Lemma isclose_same_witness :
  ∃ r tr,
    isclose (make 1 [2%nat] Float [HAS_d quiet_NaN; HAS_d (double_of_Z 1)])
      (make 1 [2%nat] Float [HAS_d quiet_NaN; HAS_d (double_of_Z 1)])
      double_zero double_zero true = mkM (Ok r) tr ∧
    sizes r = [2%nat] ∧ data r = [HAS_b true; HAS_b true].
Proof.
  destruct (isclose_same
              (make 1 [2%nat] Float [HAS_d quiet_NaN; HAS_d (double_of_Z 1)])
              double_zero double_zero) as [Htrue _];
    [reflexivity | split; [reflexivity | by repeat constructor]
    | reflexivity | reflexivity |].
  exact Htrue.
Defined.

(** C5 fails on the code: a float array of shape [1] against one of shape
    [2], zero tolerances, NaNs equal.  The equality mask and both NaN masks
    are computed, then the in-place "and" of the NaN mask of [self] , of
    shape [1], with that of [other], of shape [2], raises: an in-place
    result cannot take the broadcast shape.  Without [equal_nan], and with
    the operands exchanged, the same call returns its mask. *)
Theorem isclose_equal_nan_broadcast_raises :
  let one := double_of_Z 1 in
  let a := make 1 [1%nat] Float [HAS_d quiet_NaN] in
  let b := make 2 [2%nat] Float [HAS_d quiet_NaN; HAS_d one] in
  isclose a b double_zero double_zero true
    = mkM (Err ShapeMismatch) ["eq"; "ne"; "ne"; "__iand__"] ∧
  (∃ r, isclose a b double_zero double_zero false = mkM (Ok r) ["eq"]
        ∧ data r = [HAS_b false; HAS_b false]) ∧
  (∃ r, isclose b a double_zero double_zero true
        = mkM (Ok r) ["eq"; "ne"; "ne"; "__iand__"; "__ior__"]
        ∧ data r = [HAS_b true; HAS_b false]).
Proof. vm_compute. split_and!; [reflexivity|..]; eexists; split; reflexivity. Qed.

End IscloseFacts.

(** ** Ordered reductions *)
Module ReductionFacts.
Import c10 ATen native MonadFacts.

Section Reductions.
Context `{Backend}.

Lemma set_output_spec out shape dtype dev t tr :
  meta.set_output out shape dtype dev = mkM (Ok t) tr →
  tr = [] ∧ sizes t = shape ∧ scalar_type t = dtype.
Proof.
  unfold meta.set_output. destruct out as [o|].
  - intros Hm.
    apply bind_Ok_inv in Hm as (? & ? & ? & Hc1 & Hm & ->).
    apply check_Ok_inv in Hc1 as [Hdt ->].
    apply bind_Ok_inv in Hm as (? & ? & ? & Hc2 & Hm & ->).
    apply check_Ok_inv in Hc2 as [_ ->].
    apply lift_Ok_inv in Hm as [Hr ->].
    apply bool_decide_eq_true in Hdt. split_and!; [done| |].
    + by eapply resize_output_sizes.
    + by rewrite (resize_output_scalar_type _ _ _ Hr).
  - intros Hm. apply ret_Ok_inv in Hm as [<- ->].
    by rewrite empty_sizes, empty_scalar_type.
Qed.

Lemma maybe_wrap_dim_trace dim rank d tr :
  meta.maybe_wrap_dim dim rank = mkM (Ok d) tr → tr = [].
Proof.
  unfold meta.maybe_wrap_dim. intros Hm.
  apply bind_Ok_inv in Hm as (? & ? & ? & Hc & Hm & ->).
  apply check_Ok_inv in Hc as [_ ->]. by apply ret_Ok_inv in Hm as [_ ->].
Qed.

Lemma maybe_wrap_dim_idem dim rank d d' tr tr' :
  meta.maybe_wrap_dim dim rank = mkM (Ok d) tr →
  meta.maybe_wrap_dim d rank = mkM (Ok d') tr' → d' = d.
Proof.
  unfold meta.maybe_wrap_dim. intros Hm Hm'.
  apply bind_Ok_inv in Hm as (? & ? & ? & Hc & Hm & _).
  apply check_Ok_inv in Hc as [Hc _]. apply ret_Ok_inv in Hm as [<- _].
  apply bind_Ok_inv in Hm' as (? & ? & ? & _ & Hm' & _).
  apply ret_Ok_inv in Hm' as [<- _].
  apply andb_true_iff in Hc as [Hlo Hhi].
  apply Z.leb_le in Hlo. apply Z.leb_le in Hhi.
  repeat case_match; try done;
    repeat match goal with
           | E : (_ <? _) = true |- _ => apply Z.ltb_lt in E
           | E : (_ <? _) = false |- _ => apply Z.ltb_ge in E
           end; lia.
Qed.

(** An output of the meta step: allocated when the caller gave no buffer,
    the caller's buffer resized otherwise. *)
Definition resized (out : option Tensor) (shape : list nat) (dtype : ScalarType)
    (dev : Device) : Except Tensor :=
  match out with
  | None => Ok (empty shape dtype dev)
  | Some o => resize_output o shape
  end.

Lemma set_output_resized out shape dtype dev t tr :
  meta.set_output out shape dtype dev = mkM (Ok t) tr →
  resized out shape dtype dev = Ok t.
Proof.
  unfold meta.set_output, resized. destruct out as [o|].
  - intros Hm.
    apply bind_Ok_inv in Hm as (? & ? & ? & _ & Hm & _).
    apply bind_Ok_inv in Hm as (? & ? & ? & _ & Hm & _).
    by apply lift_Ok_inv in Hm as [Hr _].
  - intros Hm. by apply ret_Ok_inv in Hm as [<- _].
Qed.

(** What a successful meta step of [max] or [min] along a dimension has
    produced: nothing dispatched, two outputs allocated or resized to the
    reduced shape, the values of the element type of the input, the indices
    64-bit integers. *)
Record reduction_outputs (outputs : option Tensor * option Tensor) (self : Tensor)
    (keepdim : bool) (d : Z) (values indices : Tensor) (tr : list string) : Prop := {
  meta_trace : tr = [];
  values_resized :
    resized outputs.1 (meta.get_reduction_shape self d keepdim)
      (scalar_type self) (device self) = Ok values;
  indices_resized :
    resized outputs.2 (meta.get_reduction_shape self d keepdim) Long (device self)
    = Ok indices;
  values_sizes : sizes values = meta.get_reduction_shape self d keepdim;
  indices_sizes : sizes indices = meta.get_reduction_shape self d keepdim;
  values_scalar_type : scalar_type values = scalar_type self;
  indices_scalar_type : scalar_type indices = Long
}.

Lemma meta_max_dim_spec self dim keepdim outputs d values indices tr :
  meta.max_dim self dim keepdim outputs = mkM (Ok (d, (values, indices))) tr →
  reduction_outputs outputs self keepdim d values indices tr.
Proof.
  unfold meta.max_dim. intros Hm.
  apply bind_Ok_inv in Hm as (d0 & ? & ? & Hw & Hm & ->).
  pose proof (maybe_wrap_dim_trace _ _ _ _ Hw) as ->.
  apply bind_Ok_inv in Hm as (? & ? & ? & Hz & Hm & ->).
  apply lift_Ok_inv in Hz as [_ ->].
  apply bind_Ok_inv in Hm as (? & ? & ? & Hc & Hm & ->).
  apply check_Ok_inv in Hc as [_ ->].
  apply bind_Ok_inv in Hm as ([v i] & ? & ? & Hr & Hm & ->).
  apply bind_Ok_inv in Hm as (d' & ? & ? & Hw' & Hm & ->).
  pose proof (maybe_wrap_dim_idem _ _ _ _ _ _ Hw Hw') as ->.
  apply maybe_wrap_dim_trace in Hw' as ->.
  apply ret_Ok_inv in Hm as [[= <- <- <-] ->].
  unfold meta.resize_reduction_with_indices in Hr.
  apply bind_Ok_inv in Hr as (v' & ? & ? & Hv & Hr & ->).
  pose proof (set_output_resized _ _ _ _ _ _ Hv).
  apply set_output_spec in Hv as (-> & Hvs & Hvt).
  apply bind_Ok_inv in Hr as (i' & ? & ? & Hi & Hr & ->).
  pose proof (set_output_resized _ _ _ _ _ _ Hi).
  apply set_output_spec in Hi as (-> & His & Hit).
  apply ret_Ok_inv in Hr as [[= <- <-] ->].
  by split.
Qed.

Lemma meta_min_dim_spec self dim keepdim outputs d values indices tr :
  meta.min_dim self dim keepdim outputs = mkM (Ok (d, (values, indices))) tr →
  reduction_outputs outputs self keepdim d values indices tr.
Proof. apply meta_max_dim_spec. Qed.

Lemma get_reduction_shape_scalar self d keepdim :
  dim self = 0%nat → meta.get_reduction_shape self d keepdim = [].
Proof.
  unfold dim, meta.get_reduction_shape. intros Hd.
  apply nil_length_inv in Hd as ->. by destruct keepdim.
Qed.

Lemma minmax_out_impl_empty self d keepdim values indices stub :
  numel self = 0%nat →
  minmax_out_impl self d keepdim values indices stub = mkM (Ok (values, indices)) [].
Proof.
  intros Hn. unfold minmax_out_impl. rewrite Hn.
  by rewrite bool_decide_eq_false_2 by lia.
Qed.

Lemma minmax_out_impl_scalar self d keepdim values indices stub v :
  numel self = 1%nat → dim self = 0%nat → data self = [v] →
  sizes values = [] → sizes indices = [] →
  scalar_type values = scalar_type self → scalar_type indices = Long →
  minmax_out_impl self d keepdim values indices stub
  = mkM (Ok (with_data values [v], with_data indices [HAS_i 0])) ["fill_"; "fill_"].
Proof.
  intros Hn Hd Hv Hvs His Hvt Hit. unfold minmax_out_impl.
  rewrite Hn, Hd. simpl.
  unfold at_fill_Tensor, at_fill_, numel. rewrite Hv, Hd, Hvs, His, Hvt, Hit.
  simpl. unfold convert. by rewrite !bool_decide_eq_true_2 by done.
Qed.

Lemma meta_max_dim_not_complex self dim keepdim outputs r tr :
  meta.max_dim self dim keepdim outputs = mkM (Ok r) tr → is_complex self = false.
Proof.
  unfold meta.max_dim. intros Hm.
  apply bind_Ok_inv in Hm as (? & ? & ? & _ & Hm & _).
  apply bind_Ok_inv in Hm as (? & ? & ? & _ & Hm & _).
  apply bind_Ok_inv in Hm as (? & ? & ? & Hc & _ & _).
  unfold meta.check_unsupported_complex in Hc.
  apply check_Ok_inv in Hc as [Hc _]. by apply negb_true_iff in Hc.
Qed.

Lemma minmax_out_impl_general self d keepdim values indices stub :
  numel self ≠ 0%nat →
  ¬ (numel self = 1%nat ∧ ATen.dim self = 0%nat) →
  minmax_out_impl self d keepdim values indices stub
  = stub values indices self d keepdim.
Proof.
  intros Hn Hnot. unfold minmax_out_impl.
  rewrite bool_decide_eq_true_2 by lia.
  destruct (bool_decide (numel self = 1%nat)) eqn:H1;
    destruct (bool_decide (ATen.dim self = 0%nat)) eqn:H0; try done.
  apply bool_decide_eq_true in H1. apply bool_decide_eq_true in H0. tauto.
Qed.

(** The cases of an ordered reduction [op] whose meta step is [meta_op] and
    whose kernel is behind [stub], on an input the meta step accepts.  Such
    an input is not complex.  When it is empty, the outputs of the meta step
    are returned as they are and nothing is dispatched.  When it is a
    zero-dimensional input of one element, the values are filled with that
    element and the indices with 0, by two fills, and the reduction kernel
    is not dispatched.  When it has one element and a rank of 1 or more, it
    is handed to the reduction kernel, once, with the outputs of the meta
    step and the normalised dimension. *)
Definition trivial_inputs
    (meta_op : Tensor → Z → bool → option Tensor * option Tensor →
               M (Z * (Tensor * Tensor)))
    (op : option Tensor * option Tensor → Tensor → Z → bool → M (Tensor * Tensor))
    (stub : Tensor → Tensor → Tensor → Z → bool → M (Tensor * Tensor))
  : Prop :=
  ∀ self dim keepdim outputs d values indices tr,
    meta_op self dim keepdim outputs = mkM (Ok (d, (values, indices))) tr →
    let shape := meta.get_reduction_shape self d keepdim in
    is_complex self = false ∧
    (numel self = 0%nat →
       op outputs self dim keepdim = mkM (Ok (values, indices)) [] ∧
       resized outputs.1 shape (scalar_type self) (device self) = Ok values ∧
       resized outputs.2 shape Long (device self) = Ok indices ∧
       sizes values = shape ∧ sizes indices = shape) ∧
    (numel self = 1%nat → ATen.dim self = 0%nat → well_formed self →
       ∃ v, data self = [v] ∧
         op outputs self dim keepdim
         = mkM (Ok (with_data values [v], with_data indices [HAS_i 0]))
             ["fill_"; "fill_"]) ∧
    (numel self = 1%nat → ATen.dim self ≠ 0%nat →
       op outputs self dim keepdim = stub values indices self d keepdim).

Lemma sole_element self :
  numel self = 1%nat → well_formed self → ∃ v, data self = [v].
Proof.
  intros Hn [Hl _]. rewrite Hn in Hl.
  destruct (data self) as [|v [|]]; try done. by exists v.
Qed.

(** C4 (amended): for [max] and [min] along a dimension, on every input for
    which the meta step succeeds, which is then not complex: an empty input
    dispatches no kernel and returns the outputs exactly as the meta step
    allocated or resized them, of the reduced shape; an input of one element
    and of rank 0 has its values output filled with that element and its
    indices output with 0, by two fills and without the reduction kernel; an
    input of one element and of rank 1 or more goes to the reduction kernel,
    [max_stub] or [min_stub], and to nothing else. *)
Theorem minmax_trivial_inputs :
  trivial_inputs meta.max_dim at_max_dim_structured max_stub ∧
  trivial_inputs meta.min_dim at_min_dim_structured min_stub ∧
  (∀ values indices self d keepdim,
     max_stub values indices self d keepdim
     = mkM (max_kernel values indices self d keepdim) ["max_stub"] ∧
     min_stub values indices self d keepdim
     = mkM (min_kernel values indices self d keepdim) ["min_stub"]).
Proof.
  split_and!; [| |done];
    intros self d0 keepdim outputs d values indices tr Hmeta shape;
    pose proof (meta_max_dim_not_complex _ _ _ _ _ _ Hmeta) as Hreal;
    pose proof (meta_max_dim_spec _ _ _ _ _ _ _ _ Hmeta) as [-> Hv Hi Hvs His Hvt Hit];
    (split_and!; [done | intros Hn | intros Hn Hd Hwf | intros Hn Hd]).
  - unfold at_max_dim_structured. rewrite Hmeta, bind_Ok. simpl.
    unfold max_out. by rewrite minmax_out_impl_empty.
  - destruct (sole_element self Hn Hwf) as [v Hdata]. exists v. split; [done|].
    rewrite get_reduction_shape_scalar in Hvs, His by done.
    unfold at_max_dim_structured. rewrite Hmeta, bind_Ok. simpl.
    unfold max_out. by rewrite (minmax_out_impl_scalar _ _ _ _ _ _ v).
  - unfold at_max_dim_structured. rewrite Hmeta, bind_Ok. simpl.
    unfold max_out. rewrite minmax_out_impl_general; [apply M_eta|lia|tauto].
  - unfold at_min_dim_structured. rewrite Hmeta, bind_Ok. simpl.
    unfold min_out. by rewrite minmax_out_impl_empty.
  - destruct (sole_element self Hn Hwf) as [v Hdata]. exists v. split; [done|].
    rewrite get_reduction_shape_scalar in Hvs, His by done.
    unfold at_min_dim_structured. rewrite Hmeta, bind_Ok. simpl.
    unfold min_out. by rewrite (minmax_out_impl_scalar _ _ _ _ _ _ v).
  - unfold at_min_dim_structured. rewrite Hmeta, bind_Ok. simpl.
    unfold min_out. rewrite minmax_out_impl_general; [apply M_eta|lia|tauto].
Qed.

Lemma mode_out_unfold self dim keepdim values indices :
  ∃ rest,
    mode_out self dim keepdim values indices
    = (TORCH_CHECK (is_cpu (device self) || is_cuda (device self)) UnsupportedDevice;;
       TORCH_CHECK (bool_decide (layout self = Strided)) UnsupportedLayout;;
       TORCH_CHECK (bool_decide (device self = device values)) DeviceMismatch;;
       TORCH_CHECK (bool_decide (device self = device indices)) DeviceMismatch;;
       TORCH_CHECK (bool_decide (scalar_type self = scalar_type values)) DtypeMismatch;;
       TORCH_CHECK (bool_decide (scalar_type indices = Long)) DtypeMismatch;;
       rest).
Proof. by eexists. Qed.

(** C8, as the code has it: [mode_out] validates in a fixed order and
    dispatches nothing before it has.  An input that is neither on the CPU
    nor on CUDA is refused, then an input that is not strided; for a strided
    CPU or CUDA input, an output buffer on another device than the input is a
    [DeviceMismatch]; with both buffers on the device of the input, values of
    another element type than the input or indices that are not 64-bit signed
    integers are a [DtypeMismatch]. *)
Theorem mode_out_validation self dim keepdim values indices :
  let result := mode_out self dim keepdim values indices in
  (is_cpu (device self) || is_cuda (device self) = false →
     result = mkM (Err UnsupportedDevice) []) ∧
  (is_cpu (device self) || is_cuda (device self) = true →
     (layout self ≠ Strided → result = mkM (Err UnsupportedLayout) []) ∧
     (layout self = Strided →
        (device values ≠ device self ∨ device indices ≠ device self →
           result = mkM (Err DeviceMismatch) []) ∧
        (device values = device self → device indices = device self →
           scalar_type values ≠ scalar_type self ∨ scalar_type indices ≠ Long →
           result = mkM (Err DtypeMismatch) []))).
Proof.
  intros result. subst result.
  destruct (mode_out_unfold self dim keepdim values indices) as [rest ->].
  split; [by intros ->|]. intros ->. rewrite bind_check_true.
  split; [intros Hl; by rewrite (bool_decide_eq_false_2 _ Hl)|].
  intros Hl. rewrite (bool_decide_eq_true_2 _ Hl), bind_check_true.
  split.
  - intros [Hd|Hd].
    + by rewrite (bool_decide_eq_false_2 (device self = device values)).
    + destruct (bool_decide (device self = device values)); [|done].
      rewrite bind_check_true.
      by rewrite (bool_decide_eq_false_2 (device self = device indices)).
  - intros Hv Hi Ht.
    rewrite (bool_decide_eq_true_2 (device self = device values)) by done.
    rewrite bind_check_true.
    rewrite (bool_decide_eq_true_2 (device self = device indices)) by done.
    rewrite bind_check_true.
    destruct Ht as [Ht|Ht].
    + by rewrite (bool_decide_eq_false_2 (scalar_type self = scalar_type values)).
    + destruct (bool_decide (scalar_type self = scalar_type values)); [|done].
      rewrite bind_check_true.
      by rewrite (bool_decide_eq_false_2 (scalar_type indices = Long)).
Qed.

End Reductions.

Import Reference.

Lemma minmax_trivial_inputs_witness :
  (∃ values indices,
     at_max_dim_structured (None, None) (make 1 [0; 3]%nat Float []) 1 false
     = mkM (Ok (values, indices)) [] ∧
     sizes values = [0%nat] ∧ sizes indices = [0%nat]) ∧
  (∃ values indices,
     at_min_dim_structured (None, None) (make 2 [] Long [HAS_i 7]) 0 true
     = mkM (Ok (with_data values [HAS_i 7], with_data indices [HAS_i 0]))
         ["fill_"; "fill_"]) ∧
  (∃ values indices,
     at_max_dim_structured (None, None) (make 1 [1%nat] Long [HAS_i 5]) 0 false
     = max_stub values indices (make 1 [1%nat] Long [HAS_i 5]) 0 false).
Proof.
  split_and!.
  - destruct minmax_trivial_inputs as (Hmax & _ & _).
    edestruct (Hmax (make 1 [0; 3]%nat Float []) 1 false (None, None))
      as (_ & Hempty & _); [reflexivity|].
    destruct (Hempty eq_refl) as (Hop & _ & _ & Hvs & His).
    eexists _, _. split_and!; [exact Hop | exact Hvs | exact His].
  - destruct minmax_trivial_inputs as (_ & Hmin & _).
    edestruct (Hmin (make 2 [] Long [HAS_i 7]) 0 true (None, None))
      as (_ & _ & Hscalar & _); [reflexivity|].
    destruct Hscalar as (v & Hv & Hop); [reflexivity | reflexivity | |].
    + split; [reflexivity|]. repeat constructor.
    + injection Hv as <-. eexists _, _. exact Hop.
  - destruct minmax_trivial_inputs as (Hmax & _ & _).
    edestruct (Hmax (make 1 [1%nat] Long [HAS_i 5]) 0 false (None, None))
      as (_ & _ & _ & Hvector); [reflexivity|].
    eexists _, _. apply Hvector; [reflexivity|discriminate].
Defined.

(** C4 as stated fails.  An input of shape [[1]] has one element and reduces
    to rank 0, yet it is handed to the reduction kernel: the short cut only
    takes inputs that are of rank 0 themselves.  And an empty complex input
    whose reduced dimension is not empty is refused, not resized. *)
Lemma minmax_single_element_vector_dispatches :
  (numel (make 1 [1%nat] Long [HAS_i 5]) = 1%nat ∧
   ∃ values indices,
     at_max_dim_structured (None, None) (make 1 [1%nat] Long [HAS_i 5]) 0 false
     = mkM (Ok (values, indices)) ["max_stub"] ∧
     dim values = 0%nat ∧ data values = [HAS_i 5] ∧ data indices = [HAS_i 0]) ∧
  (numel (make 1 [0; 3]%nat ComplexFloat []) = 0%nat ∧
   zero_numel_check_dims (make 1 [0; 3]%nat ComplexFloat []) 1 = Ok () ∧
   at_max_dim_structured (None, None) (make 1 [0; 3]%nat ComplexFloat []) 1 false
   = mkM (Err UnsupportedType) []).
Proof.
  split; [split; [done|]; eexists _, _; by vm_compute|]. by vm_compute.
Qed.

Lemma mode_out_validation_witness :
  mode_out (make 1 [2%nat] Float [HAS_i 0; HAS_i 0]) 0 false
    (make 2 [] Double []) (make 3 [] Long [])
  = mkM (Err DtypeMismatch) [] ∧
  mode_out (make 1 [2%nat] Float [HAS_i 0; HAS_i 0]) 0 false
    (make 2 [] Float []) (on cuda Strided (make 3 [] Long []))
  = mkM (Err DeviceMismatch) [].
Proof.
  split.
  - apply (mode_out_validation (make 1 [2%nat] Float [HAS_i 0; HAS_i 0]) 0 false
             (make 2 [] Double []) (make 3 [] Long []));
      [reflexivity | reflexivity | reflexivity | reflexivity | by left].
  - apply (mode_out_validation (make 1 [2%nat] Float [HAS_i 0; HAS_i 0]) 0 false
             (make 2 [] Float []) (on cuda Strided (make 3 [] Long [])));
      [reflexivity | reflexivity | by right].
Defined.

(** A values buffer of another element type than the input is not always a
    [DtypeMismatch]: when the buffer is also on another device the call
    fails with [DeviceMismatch], and when the input is not strided it fails
    on the layout. *)
Lemma mode_out_dtype_mismatch_masked :
  (scalar_type (on cuda Strided (make 2 [] Double []))
   ≠ scalar_type (make 1 [2%nat] Float [HAS_i 0; HAS_i 0]) ∧
   mode_out (make 1 [2%nat] Float [HAS_i 0; HAS_i 0]) 0 false
     (on cuda Strided (make 2 [] Double [])) (make 3 [] Long [])
   = mkM (Err DeviceMismatch) []) ∧
  (device (make 2 [] Double [])
   = device (on cpu Sparse (make 1 [2%nat] Float [HAS_i 0; HAS_i 0])) ∧
   mode_out (on cpu Sparse (make 1 [2%nat] Float [HAS_i 0; HAS_i 0])) 0 false
     (make 2 [] Double []) (make 3 [] Long [])
   = mkM (Err UnsupportedLayout) []).
Proof. done. Qed.

End ReductionFacts.

(** ** The elementwise predicates: [isnan], [isfinite], [isinf], [isreal] *)
Module PredicateFacts.
Import c10 ATen native MonadFacts BroadcastFacts IscloseFacts.

(** The classes of IEEE 754 values. *)
Definition double_is_nan (d : double) : bool :=
  match d with S754_nan => true | _ => false end.
Definition double_is_infinite (d : double) : bool :=
  match d with S754_infinity _ => true | _ => false end.
Definition double_is_finite (d : double) : bool :=
  negb (double_is_nan d) && negb (double_is_infinite d).

(** A value is a NaN when a part of it is, infinite when a part of it is,
    finite when all its parts are; the integers and the booleans are
    finite. *)
Definition is_nan_value (v : Scalar) : bool :=
  match v with
  | HAS_d d => double_is_nan d
  | HAS_z re im => double_is_nan re || double_is_nan im
  | _ => false
  end.
Definition is_infinite_value (v : Scalar) : bool :=
  match v with
  | HAS_d d => double_is_infinite d
  | HAS_z re im => double_is_infinite re || double_is_infinite im
  | _ => false
  end.
Definition is_finite_value (v : Scalar) : bool :=
  match v with
  | HAS_d d => double_is_finite d
  | HAS_z re im => double_is_finite re && double_is_finite im
  | _ => true
  end.

Lemma double_eq_itself d : double_eq d d = negb (double_is_nan d).
Proof.
  unfold double_eq, SFeqb. destruct d as [s|s| |s m e]; simpl; try done.
  - by destruct s.
  - rewrite Z.compare_refl, Pos.compare_cont_refl. by destruct s.
Qed.

Lemma value_ne_itself v : value_ne v v = is_nan_value v.
Proof.
  unfold value_ne. destruct v as [d|i|re im|b]; simpl.
  - by rewrite double_eq_itself, negb_involutive.
  - by rewrite Z.eqb_refl.
  - rewrite !double_eq_itself. by destruct (double_is_nan re), (double_is_nan im).
  - by destruct b.
Qed.

Lemma abs_eq_infinity d :
  double_eq (SFabs d) infinity = double_is_infinite d.
Proof. by destruct d as [[]|[]| |[] ? ?]. Qed.

Lemma convert_infinity t :
  isFloatingType t = true → convert Double t (HAS_d infinity) = HAS_d infinity.
Proof.
  intros Ht. unfold convert, cast_to. rewrite Ht. simpl. by case_bool_decide.
Qed.

(** The elements of a well-formed array of a floating-point type are
    doubles; those of an array of an integral type or of booleans are
    neither NaN nor infinite. *)
Definition is_double (v : Scalar) : Prop := ∃ d, v = HAS_d d.

Lemma floating_values t l :
  isFloatingType t = true → Forall (has_type t) l → Forall is_double l.
Proof.
  intros Ht Hl. eapply Forall_impl; [done|]. intros [d|i|re im|b]; simpl.
  - intros _. by eexists.
  - by destruct t; intros [|].
  - by destruct t.
  - by intros ->.
Qed.

Lemma integral_values t l :
  isIntegralType t true = true → Forall (has_type t) l →
  Forall (λ v, is_nan_value v = false ∧ is_infinite_value v = false) l.
Proof.
  intros Ht Hl. eapply Forall_impl; [done|]. intros [d|i|re im|b]; simpl; try done.
  - by destruct t.
  - by destruct t.
Qed.

Lemma fmap_const_Forall {A B} (f : A → B) (b : B) (l : list A) :
  Forall (λ x, f x = b) l → f <$> l = replicate (length l) b.
Proof. induction 1 as [|x l Hx _ IH]; simpl; [done|]. rewrite Hx. by f_equal. Qed.

Lemma fmap_ext_Forall {A B} (f g : A → B) (l : list A) :
  Forall (λ x, f x = g x) l → f <$> l = g <$> l.
Proof. induction 1 as [|x l Hx _ IH]; simpl; [done|]. rewrite Hx. by f_equal. Qed.

Section Predicates.
Context `{TypeProperties} `{Backend}.

Lemma isnan_unfold (self : Tensor) :
  length (data self) = numel self →
  isnan self =
  mkM (Ok (with_data (empty (sizes self) Bool (device self))
             ((λ v, HAS_b (is_nan_value v)) <$> data self))) ["ne"].
Proof.
  intros Hlen. unfold isnan, at_ne, binary_op, call.
  rewrite broadcast2_same by done. rewrite zip_with_diag. do 3 f_equal.
  apply fmap_ext_Forall, Forall_forall. intros v _. by rewrite value_ne_itself.
Qed.

(** [isnan] returns a boolean array of the shape of its operand that is true
    exactly at the NaNs, by one comparison of the operand with itself; on an
    array of integers or booleans it is false everywhere. *)
Theorem isnan_elementwise (self : Tensor) :
  well_formed self →
  ∃ r, isnan self = mkM (Ok r) ["ne"] ∧
       sizes r = sizes self ∧ scalar_type r = Bool ∧
       data r = (λ v, HAS_b (is_nan_value v)) <$> data self ∧
       (isIntegralType (scalar_type self) true = true →
        data r = replicate (numel self) (HAS_b false)).
Proof.
  intros [Hlen Hty]. eexists. split; [by apply isnan_unfold|].
  simpl. rewrite empty_sizes, empty_scalar_type. split_and!; [done..|].
  intros Hint. rewrite <- Hlen. apply fmap_const_Forall.
  eapply Forall_impl; [by apply (integral_values (scalar_type self))|].
  simpl. by intros v [-> _].
Qed.

End Predicates.

Section Arithmetic.
Context `{TypeProperties} `{Backend}.

(** What the predicates need of the arithmetic they dispatch: the absolute
    value of a double clears its sign, the product of two booleans is their
    conjunction, and two boolean arrays of one shape promote to booleans. *)
Hypothesis abs_double :
  ∀ t d, isFloatingType t = true → abs_value t (HAS_d d) = HAS_d (SFabs d).
Hypothesis mul_bool :
  ∀ a b, mul_value Bool (HAS_b a) (HAS_b b) = HAS_b (a && b).
Hypothesis result_type_bool :
  ∀ a b, scalar_type a = Bool → scalar_type b = Bool → sizes a = sizes b →
         result_type_Tensor_Tensor a b = Bool.

Lemma isfinite_floating_unfold (a : Tensor) :
  isFloatingType (scalar_type a) = true →
  length (data a) = numel a →
  Forall is_double (data a) →
  isfinite_floating a =
  mkM (Ok (with_data (empty (sizes a) Bool (device a))
             ((λ v, HAS_b (is_finite_value v)) <$> data a)))
      ["eq"; "abs"; "ne"; "mul"].
Proof.
  intros Hf Hlen Hd. unfold isfinite_floating.
  rewrite Hf, bind_check_true.
  unfold at_eq, binary_op, call. rewrite broadcast2_same by done.
  rewrite zip_with_diag, bind_Ok.
  unfold at_abs, unary_op, call. rewrite bind_Ok.
  unfold at_ne_Scalar, unary_op, call. rewrite bind_Ok. simpl.
  rewrite !empty_sizes, !empty_scalar_type, !empty_device.
  unfold at_mul, binary_op, call. simpl.
  rewrite result_type_bool;
    [|by simpl; rewrite empty_scalar_type..|by simpl; rewrite !empty_sizes].
  simpl. rewrite ?empty_sizes, ?empty_device.
  rewrite broadcast2_same by (by rewrite !length_fmap).
  do 3 f_equal.
  rewrite convert_infinity by done.
  clear Hlen. induction Hd as [|v l [d ->] _ IH]; simpl; [done|].
  rewrite abs_double by done. unfold value_ne. simpl.
  rewrite mul_bool, double_eq_itself, abs_eq_infinity. by f_equal.
Qed.

Lemma isinf_floating_unfold (a : Tensor) :
  isFloatingType (scalar_type a) = true →
  Forall is_double (data a) →
  isinf_floating a =
  mkM (Ok (with_data (empty (sizes a) Bool (device a))
             ((λ v, HAS_b (is_infinite_value v)) <$> data a)))
      ["abs"; "eq"].
Proof.
  intros Hf Hd. unfold isinf_floating.
  rewrite Hf, bind_check_true.
  unfold at_abs, unary_op, call. rewrite bind_Ok.
  unfold at_eq_Scalar, unary_op, call. simpl.
  rewrite !empty_sizes, !empty_scalar_type, !empty_device.
  do 3 f_equal. rewrite convert_infinity by done.
  induction Hd as [|v l [d ->] _ IH]; simpl; [done|].
  rewrite abs_double by done. simpl. rewrite abs_eq_infinity. by f_equal.
Qed.

(** The real and the imaginary parts of a complex array, as [at::real] and
    [at::imag] return them. *)
Definition part_of (part : Scalar → double) (self : Tensor) : Tensor :=
  with_data (empty (sizes self) (toRealValueType (scalar_type self)) (device self))
    ((λ x, HAS_d (part x)) <$> data self).

Lemma part_of_floating part self :
  is_complex self = true → isFloatingType (scalar_type (part_of part self)) = true.
Proof.
  unfold is_complex. intros Hc. simpl. rewrite empty_scalar_type.
  by destruct (scalar_type self).
Qed.

Lemma part_of_length part self :
  length (data self) = numel self →
  length (data (part_of part self)) = numel (part_of part self).
Proof.
  intros Hlen. unfold numel. simpl. by rewrite empty_sizes, length_fmap.
Qed.

Lemma part_of_double part self : Forall is_double (data (part_of part self)).
Proof. simpl. apply Forall_fmap, Forall_forall. intros v _. by eexists. Qed.

Lemma complex_values t l :
  isComplexType t = true → Forall (has_type t) l →
  Forall (λ v, ∃ re im, v = HAS_z re im) l.
Proof.
  intros Ht Hl. eapply Forall_impl; [done|]. intros [d|i|re im|b]; simpl.
  - by destruct t.
  - by destruct t; intros [|].
  - intros _. by eexists _, _.
  - by intros ->.
Qed.

Lemma isfinite_unfold (self : Tensor) :
  well_formed self →
  isIntegralType (scalar_type self) true = true ∨
  isFloatingType (scalar_type self) = true ∨ is_complex self = true →
  ∃ r tr, isfinite self = mkM (Ok r) tr ∧
    sizes r = sizes self ∧ scalar_type r = Bool ∧
    data r = (λ v, HAS_b (is_finite_value v)) <$> data self ∧
    (isIntegralType (scalar_type self) true = true → tr = ["ones_like"]) ∧
    (isFloatingType (scalar_type self) = true → tr = ["eq"; "abs"; "ne"; "mul"]).
Proof.
  intros [Hlen Hty] Hcases. unfold isfinite.
  destruct (isIntegralType (scalar_type self) true) eqn:Hint.
  { eexists _, _. split; [reflexivity|]. simpl.
    rewrite empty_sizes, empty_scalar_type. split_and!; [done..| |done|].
    - rewrite <- Hlen. symmetry. apply fmap_const_Forall.
      eapply Forall_impl; [done|]. intros [d|i|re im|b]; simpl; try done.
      + by destruct (scalar_type self).
      + by destruct (scalar_type self).
    - by destruct (scalar_type self). }
  destruct (is_complex self) eqn:Hc.
  - unfold at_real, at_imag, unary_op, call. rewrite !bind_Ok.
    fold (part_of real_part self).
    rewrite isfinite_floating_unfold
      by (by apply part_of_floating || by apply part_of_length
          || apply part_of_double).
    rewrite !bind_Ok. fold (part_of imag_part self).
    rewrite isfinite_floating_unfold
      by (by apply part_of_floating || by apply part_of_length
          || apply part_of_double).
    rewrite !bind_Ok. unfold __iand__, binary_op_, call. simpl.
    rewrite !empty_sizes.
    rewrite broadcast2_same by (by rewrite !length_fmap).
    rewrite bool_decide_eq_true_2 by done.
    eexists _, _. split; [reflexivity|]. simpl.
    rewrite !empty_sizes, empty_scalar_type. split_and!; [done..| | |].
    + rewrite <- !list_fmap_compose.
      pose proof (complex_values _ _ Hc Hty) as Hz. clear Hlen Hty.
      induction Hz as [|v l (re & im & ->) _ IH]; simpl; [done|]. by f_equal.
    + done.
    + unfold is_complex in Hc. by destruct (scalar_type self).
  - destruct Hcases as [|[Hf|]]; [done| |done].
    rewrite isfinite_floating_unfold
      by (done || by apply (floating_values (scalar_type self))).
    eexists _, _. split; [reflexivity|]. simpl.
    by rewrite empty_sizes, empty_scalar_type.
Qed.

Lemma isinf_unfold (self : Tensor) :
  well_formed self →
  isIntegralType (scalar_type self) true = true ∨
  isFloatingType (scalar_type self) = true ∨ is_complex self = true →
  ∃ r tr, isinf self = mkM (Ok r) tr ∧
    sizes r = sizes self ∧ scalar_type r = Bool ∧
    data r = (λ v, HAS_b (is_infinite_value v)) <$> data self ∧
    (isIntegralType (scalar_type self) true = true → tr = ["zeros_like"]) ∧
    (isFloatingType (scalar_type self) = true → tr = ["abs"; "eq"]).
Proof.
  intros [Hlen Hty] Hcases. unfold isinf.
  destruct (isIntegralType (scalar_type self) true) eqn:Hint.
  { eexists _, _. split; [reflexivity|]. simpl.
    rewrite empty_sizes, empty_scalar_type. split_and!; [done..| |done|].
    - rewrite <- Hlen. symmetry. apply fmap_const_Forall.
      eapply Forall_impl; [done|]. intros [d|i|re im|b]; simpl; try done.
      + by destruct (scalar_type self).
      + by destruct (scalar_type self).
    - by destruct (scalar_type self). }
  destruct (is_complex self) eqn:Hc.
  - unfold at_real, at_imag, unary_op, call. rewrite !bind_Ok.
    fold (part_of real_part self).
    rewrite isinf_floating_unfold
      by (by apply part_of_floating || apply part_of_double).
    rewrite !bind_Ok. fold (part_of imag_part self).
    rewrite isinf_floating_unfold
      by (by apply part_of_floating || apply part_of_double).
    rewrite !bind_Ok. unfold __ior__, binary_op_, call. simpl.
    rewrite !empty_sizes.
    rewrite broadcast2_same by (by rewrite !length_fmap).
    rewrite bool_decide_eq_true_2 by done.
    eexists _, _. split; [reflexivity|]. simpl.
    rewrite !empty_sizes, empty_scalar_type. split_and!; [done..| | |].
    + rewrite <- !list_fmap_compose.
      pose proof (complex_values _ _ Hc Hty) as Hz. clear Hlen Hty.
      induction Hz as [|v l (re & im & ->) _ IH]; simpl; [done|]. by f_equal.
    + done.
    + unfold is_complex in Hc. by destruct (scalar_type self).
  - destruct Hcases as [|[Hf|]]; [done| |done].
    rewrite isinf_floating_unfold
      by (done || by apply (floating_values (scalar_type self))).
    eexists _, _. split; [reflexivity|]. simpl.
    by rewrite empty_sizes, empty_scalar_type.
Qed.

(** [isfinite] returns a boolean array of the shape of its operand, true
    exactly at the elements that are neither NaN nor infinite in any part.
    On integers and booleans it compares nothing: a single [ones_like]. *)
Theorem isfinite_elementwise (self : Tensor) :
  well_formed self →
  isIntegralType (scalar_type self) true = true ∨
  isFloatingType (scalar_type self) = true ∨ is_complex self = true →
  ∃ r tr, isfinite self = mkM (Ok r) tr ∧
    sizes r = sizes self ∧ scalar_type r = Bool ∧
    data r = (λ v, HAS_b (is_finite_value v)) <$> data self ∧
    (isIntegralType (scalar_type self) true = true →
     tr = ["ones_like"] ∧ data r = replicate (numel self) (HAS_b true)).
Proof.
  intros Hwf Hcases.
  destruct (isfinite_unfold self Hwf Hcases) as (r & tr & Hr & Hs & Ht & Hd & Hi & _).
  exists r, tr. split_and!; [done..|]. intros Hint. split; [by apply Hi|].
  rewrite Hd, <- (wf_numel _ Hwf). apply fmap_const_Forall.
  eapply Forall_impl; [by apply wf_type|].
  intros [d|i|re im|b]; simpl; try done; by destruct (scalar_type self).
Qed.

(** [isinf] returns a boolean array of the shape of its operand, true exactly
    at the elements a part of which is infinite.  On integers and booleans
    it compares nothing: a single [zeros_like]. *)
Theorem isinf_elementwise (self : Tensor) :
  well_formed self →
  isIntegralType (scalar_type self) true = true ∨
  isFloatingType (scalar_type self) = true ∨ is_complex self = true →
  ∃ r tr, isinf self = mkM (Ok r) tr ∧
    sizes r = sizes self ∧ scalar_type r = Bool ∧
    data r = (λ v, HAS_b (is_infinite_value v)) <$> data self ∧
    (isIntegralType (scalar_type self) true = true →
     tr = ["zeros_like"] ∧ data r = replicate (numel self) (HAS_b false)).
Proof.
  intros Hwf Hcases.
  destruct (isinf_unfold self Hwf Hcases) as (r & tr & Hr & Hs & Ht & Hd & Hi & _).
  exists r, tr. split_and!; [done..|]. intros Hint. split; [by apply Hi|].
  rewrite Hd, <- (wf_numel _ Hwf). apply fmap_const_Forall.
  eapply Forall_impl; [by apply wf_type|].
  intros [d|i|re im|b]; simpl; try done; by destruct (scalar_type self).
Qed.

Lemma finite_value_partition v :
  is_finite_value v = negb (is_nan_value v) && negb (is_infinite_value v).
Proof.
  destruct v as [d|i|re im|b]; simpl; try done. unfold double_is_finite.
  by destruct (double_is_nan re), (double_is_nan im),
    (double_is_infinite re), (double_is_infinite im).
Qed.

(** The three predicates on one array: an element is finite exactly when it
    is neither a NaN nor infinite, and an element of a real array is never
    both a NaN and infinite. *)
Theorem isfinite_complements_isnan_isinf (self : Tensor) :
  well_formed self →
  isIntegralType (scalar_type self) true = true ∨
  isFloatingType (scalar_type self) = true ∨ is_complex self = true →
  ∃ nan inf finite tn ti tf,
    isnan self = mkM (Ok nan) tn ∧ isinf self = mkM (Ok inf) ti ∧
    isfinite self = mkM (Ok finite) tf ∧
    data finite =
      zip_with (λ n i, HAS_b (negb (truth n) && negb (truth i)))
        (data nan) (data inf) ∧
    (is_complex self = false →
     Forall2 (λ n i, truth n && truth i = false) (data nan) (data inf)).
Proof.
  intros Hwf Hcases.
  destruct (isfinite_unfold self Hwf Hcases) as (rf & tf & Hf & _ & _ & Hdf & _).
  destruct (isinf_unfold self Hwf Hcases) as (ri & ti & Hi & _ & _ & Hdi & _).
  eexists _, ri, rf, _, ti, tf.
  split_and!; [by apply isnan_unfold, wf_numel|done..| |].
  - rewrite Hdf, Hdi. simpl. rewrite zip_with_fmap_l, zip_with_fmap_r.
    rewrite zip_with_diag. apply fmap_ext_Forall, Forall_forall.
    intros v _. simpl. by rewrite finite_value_partition.
  - intros Hc. rewrite Hdi. simpl.
    apply Forall2_fmap, Forall_Forall2_diag.
    assert (isComplexType (scalar_type self) = false) as Hc' by done.
    eapply Forall_impl; [by apply wf_type|].
    intros [d|i|re im|b]; simpl; try done; [by destruct d|congruence].
Qed.

(** The zero the imaginary parts are compared with. *)
Definition double_is_zero (d : double) : bool :=
  match d with S754_zero _ => true | _ => false end.
Definition is_real_value (v : Scalar) : bool :=
  match v with HAS_z _ im => double_is_zero im | _ => true end.

Lemma eq_zero d : double_eq d (S754_zero false) = double_is_zero d.
Proof. by destruct d as [[]|[]| |[] ? ?]. Qed.

(** [isreal] is true everywhere on integers, booleans and floating-point
    numbers, by a single [ones_like]; on a complex array it is true exactly
    at the elements whose imaginary part is zero. *)
Theorem isreal_elementwise (self : Tensor) :
  well_formed self →
  isIntegralType (scalar_type self) true = true ∨
  isFloatingType (scalar_type self) = true ∨ is_complex self = true →
  ∃ r tr, isreal self = mkM (Ok r) tr ∧
    sizes r = sizes self ∧ scalar_type r = Bool ∧
    data r = (λ v, HAS_b (is_real_value v)) <$> data self ∧
    (is_complex self = false →
     tr = ["ones_like"] ∧ data r = replicate (numel self) (HAS_b true)) ∧
    (is_complex self = true → tr = ["imag"; "eq"]).
Proof.
  intros [Hlen Hty] Hcases. unfold isreal.
  destruct (isIntegralType (scalar_type self) true
            || isFloatingType (scalar_type self)) eqn:Hreal.
  - assert (is_complex self = false) as Hc.
    { unfold is_complex. by destruct (scalar_type self). }
    eexists _, _. split; [reflexivity|]. simpl.
    rewrite empty_sizes, empty_scalar_type.
    assert ((λ v, HAS_b (is_real_value v)) <$> data self
            = replicate (numel self) (HAS_b true)) as Hd.
    { rewrite <- Hlen. apply fmap_const_Forall.
      eapply Forall_impl; [done|]. intros [d|i|re im|b]; simpl; try done.
      unfold is_complex in Hc. congruence. }
    split_and!; [done..|by rewrite Hd| |]; [|by rewrite Hc].
    intros _. split; [done|]. by destruct (scalar_type self).
  - assert (is_complex self = true) as Hc.
    { destruct Hcases as [Hi|[Hf|]]; [| |done].
      - by rewrite Hi in Hreal.
      - by rewrite Hf, orb_true_r in Hreal. }
    unfold at_imag, unary_op, call. rewrite bind_Ok.
    unfold at_eq_Scalar, unary_op, call. simpl.
    rewrite !empty_sizes, !empty_scalar_type.
    eexists _, _. split; [reflexivity|]. simpl.
    rewrite !empty_sizes, empty_scalar_type.
    split_and!; [done..| |by rewrite Hc|done].
    rewrite <- list_fmap_compose.
    assert (convert Long (toRealValueType (scalar_type self)) (HAS_i 0)
            = HAS_d (S754_zero false)) as ->.
    { unfold is_complex in Hc. by destruct (scalar_type self). }
    pose proof (complex_values _ _ Hc Hty) as Hz. clear Hlen Hty.
    induction Hz as [|v l (re & im & ->) _ IH]; simpl; [done|].
    rewrite eq_zero. by f_equal.
Qed.

End Arithmetic.

Import Reference.

Lemma reference_result_type_bool (a b : Tensor) :
  scalar_type a = Bool → scalar_type b = Bool → sizes a = sizes b →
  result_type_Tensor_Tensor a b = Bool.
Proof.
  intros Ha Hb Hs. unfold result_type_Tensor_Tensor. simpl.
  unfold update_Tensor, dim. rewrite Ha, Hb, Hs.
  by destruct (bool_decide (0 < length (sizes b))%nat).
Qed.

Lemma isnan_elementwise_witness :
  ∃ r, isnan (make 1 [3%nat] Float
                [HAS_d (double_of_Z 1); HAS_d infinity; HAS_d quiet_NaN])
       = mkM (Ok r) ["ne"] ∧
       data r = [HAS_b false; HAS_b false; HAS_b true].
Proof.
  destruct (isnan_elementwise
              (make 1 [3%nat] Float
                 [HAS_d (double_of_Z 1); HAS_d infinity; HAS_d quiet_NaN]))
    as (r & Hr & _ & _ & Hd & _).
  - split; [reflexivity|]. by repeat constructor.
  - exists r. split; [exact Hr | exact Hd].
Defined.

Lemma isfinite_elementwise_witness :
  ∃ r tr,
    isfinite (H0 := backend_logical)
      (make 1 [3%nat] Float
         [HAS_d (double_of_Z 1); HAS_d infinity; HAS_d quiet_NaN])
    = mkM (Ok r) tr ∧
    data r = [HAS_b true; HAS_b false; HAS_b false].
Proof.
  destruct (@isfinite_elementwise type_properties backend_logical
              (λ _ _ _, eq_refl) (λ _ _, eq_refl) reference_result_type_bool
              (make 1 [3%nat] Float
                 [HAS_d (double_of_Z 1); HAS_d infinity; HAS_d quiet_NaN]))
    as (r & tr & Hr & _ & _ & Hd & _).
  - split; [reflexivity|]. by repeat constructor.
  - right. by left.
  - exists r, tr. split; [exact Hr | exact Hd].
Defined.

Lemma isinf_elementwise_witness :
  ∃ r tr,
    isinf (make 1 [3%nat] Float
             [HAS_d (double_of_Z 1); HAS_d (S754_infinity true); HAS_d quiet_NaN])
    = mkM (Ok r) tr ∧
    data r = [HAS_b false; HAS_b true; HAS_b false].
Proof.
  destruct (@isinf_elementwise backend (λ _ _ _, eq_refl)
              (make 1 [3%nat] Float
                 [HAS_d (double_of_Z 1); HAS_d (S754_infinity true);
                  HAS_d quiet_NaN]))
    as (r & tr & Hr & _ & _ & Hd & _).
  - split; [reflexivity|]. by repeat constructor.
  - right. by left.
  - exists r, tr. split; [exact Hr | exact Hd].
Defined.

Lemma isfinite_complements_isnan_isinf_witness :
  ∃ nan inf finite,
    outcome (isnan (H0 := backend_logical)
               (make 1 [2%nat] ComplexFloat
                  [HAS_z quiet_NaN infinity; HAS_z double_zero double_zero]))
    = Ok nan ∧
    outcome (isinf (H0 := backend_logical)
               (make 1 [2%nat] ComplexFloat
                  [HAS_z quiet_NaN infinity; HAS_z double_zero double_zero]))
    = Ok inf ∧
    outcome (isfinite (H0 := backend_logical)
               (make 1 [2%nat] ComplexFloat
                  [HAS_z quiet_NaN infinity; HAS_z double_zero double_zero]))
    = Ok finite ∧
    data nan = [HAS_b true; HAS_b false] ∧
    data inf = [HAS_b true; HAS_b false] ∧
    data finite = [HAS_b false; HAS_b true].
Proof.
  destruct (@isfinite_complements_isnan_isinf type_properties backend_logical
              (λ _ _ _, eq_refl) (λ _ _, eq_refl) reference_result_type_bool
              (make 1 [2%nat] ComplexFloat
                 [HAS_z quiet_NaN infinity; HAS_z double_zero double_zero]))
    as (nan & inf & finite & tn & ti & tf & Hn & Hi & Hf & Hd & _).
  - split; [reflexivity|]. by repeat constructor.
  - right. by right.
  - exists nan, inf, finite. rewrite Hn, Hi, Hf. split_and!; [done..| | |].
    + by injection Hn as <- _.
    + by injection Hi as <- _.
    + rewrite Hd. injection Hn as <- _. by injection Hi as <- _.
Defined.

Lemma isreal_elementwise_witness :
  ∃ r tr,
    isreal (make 1 [2%nat] ComplexFloat
              [HAS_z (double_of_Z 1) (S754_zero true);
               HAS_z double_zero (double_of_Z 1)])
    = mkM (Ok r) tr ∧
    data r = [HAS_b true; HAS_b false].
Proof.
  destruct (isreal_elementwise
              (make 1 [2%nat] ComplexFloat
                 [HAS_z (double_of_Z 1) (S754_zero true);
                  HAS_z double_zero (double_of_Z 1)]))
    as (r & tr & Hr & _ & _ & Hd & _).
  - split; [reflexivity|]. by repeat constructor.
  - right. by right.
  - exists r, tr. split; [exact Hr | exact Hd].
Defined.

End PredicateFacts.

(** ** [isposinf] and [isneginf] *)
Module SignedInfinityFacts.
Import c10 ATen native MonadFacts.

Section SignedInfinity.
Context `{TypeProperties} `{Backend} `{Kernels}.

(** What [isposinf] and [isneginf] share, for the entry point [op] and the
    stub [stub] it dispatches: a complex operand is refused; so is, next, a
    caller's buffer that is not boolean; on integers and booleans the output
    is filled with [false] and the kernel is not dispatched; on any other
    operand the kernel runs on the iterator of the meta step. *)
Definition signed_infinity_predicate
    (op : option Tensor → Tensor → M Tensor)
    (stub : TensorIteratorBase → M Tensor) : Prop :=
  ∀ (maybe_get_output : option Tensor) (self : Tensor),
    (is_complex self = true →
     op maybe_get_output self = mkM (Err UnsupportedType) []) ∧
    (is_complex self = false →
     (meta.output_is_boolean maybe_get_output = false →
      op maybe_get_output self = mkM (Err DtypeMismatch) []) ∧
     (meta.output_is_boolean maybe_get_output = true →
      ∀ it, build_borrowing_unary_force_boolean_op maybe_get_output self = Ok it →
        (isIntegralType (scalar_type self) true = true →
         op maybe_get_output self
         = mkM (Ok (with_data (output it) (replicate (numel self) (HAS_b false))))
             ["fill_"] ∧
         sizes (output it) = sizes self ∧ scalar_type (output it) = Bool) ∧
        (isIntegralType (scalar_type self) true = false →
         op maybe_get_output self = stub it))).

Lemma signed_infinity_predicate_holds op impl stub :
  (∀ out self,
     op out self =
       (TORCH_CHECK (negb (is_complex self)) UnsupportedType;;
        TORCH_CHECK (meta.output_is_boolean out) DtypeMismatch;;
        it ← lift (build_borrowing_unary_force_boolean_op out self);
        impl it self (output it))) →
  (∀ it self result,
     impl it self result =
       if isIntegralType (scalar_type self) true
       then at_fill_ result (HAS_b false) else stub it) →
  signed_infinity_predicate op stub.
Proof.
  intros Hop Himpl out self. rewrite Hop. split; [by intros ->|].
  intros ->. rewrite bind_check_true. split; [by intros ->|].
  intros -> it Hit. rewrite bind_check_true, Hit, bind_lift_Ok, Himpl.
  destruct (build_borrowing_unary_force_boolean_op_output _ _ _ Hit) as [Hs Ht].
  split; [|by intros ->].
  intros ->. split; [|done].
  unfold at_fill_, call, numel. rewrite Hs, Ht. simpl.
  unfold convert. by rewrite bool_decide_eq_true_2.
Qed.

(** [isposinf] and [isneginf] refuse a complex operand and then a caller's
    buffer that is not boolean, before anything is dispatched; on integers
    and booleans they fill the output, of the shape of the operand, with
    [false] and run no kernel; otherwise they run their kernel, once. *)
Theorem isposinf_isneginf_cases :
  signed_infinity_predicate at_isposinf_structured isposinf_stub ∧
  signed_infinity_predicate at_isneginf_structured isneginf_stub.
Proof.
  split.
  - apply (signed_infinity_predicate_holds _ isposinf_out); [|done].
    intros out self. unfold at_isposinf_structured, meta.isposinf.
    by rewrite !bind_assoc.
  - apply (signed_infinity_predicate_holds _ isneginf_out); [|done].
    intros out self. unfold at_isneginf_structured, meta.isneginf.
    by rewrite !bind_assoc.
Qed.

End SignedInfinity.

Import Reference.

Lemma isposinf_isneginf_cases_witness :
  at_isposinf_structured None (make 1 [2%nat] Long [HAS_i 3; HAS_i (-1)])
  = mkM (Ok (ref_empty [2%nat] Bool cpu)) ["fill_"] ∧
  (∃ r, at_isneginf_structured None
          (make 1 [2%nat] Float [HAS_d (S754_infinity true); HAS_d infinity])
        = mkM (Ok r) ["isneginf_stub"] ∧ data r = [HAS_b true; HAS_b false]).
Proof.
  destruct isposinf_isneginf_cases as [Hpos Hneg]. split.
  - destruct (Hpos None (make 1 [2%nat] Long [HAS_i 3; HAS_i (-1)])) as [_ Hreal].
    destruct (Hreal eq_refl) as [_ Hbool].
    destruct (Hbool eq_refl _ eq_refl) as [Hint _].
    destruct (Hint eq_refl) as [Hop _]. exact Hop.
  - destruct (Hneg None
                (make 1 [2%nat] Float [HAS_d (S754_infinity true); HAS_d infinity]))
      as [_ Hreal].
    destruct (Hreal eq_refl) as [_ Hbool].
    destruct (Hbool eq_refl _ eq_refl) as [_ Hfloat].
    rewrite (Hfloat eq_refl). by eexists.
Defined.

End SignedInfinityFacts.

(** ** [allclose] *)
Module AllcloseFacts.
Import c10 ATen native MonadFacts BroadcastFacts IscloseFacts PredicateFacts.

Lemma forallb_truth (l : list bool) : forallb truth (HAS_b <$> l) = forallb id l.
Proof. induction l as [|b l IH]; simpl; [done|]. by f_equal. Qed.

Section Allclose.
Context `{TypeProperties} `{Backend} `{Kernels}.

(** [all] and [item] on a boolean mask. *)
Lemma all_item_mask (close : Tensor) (mask : list bool) (tr : list string) :
  scalar_type close = Bool → data close = HAS_b <$> mask →
  (every ← at_all close; byte ← item_uint8 every; ret (negb (byte =? 0)))
  = mkM (Ok (forallb id mask)) ["all"; "item"].
Proof.
  intros Ht Hd. unfold at_all, item_uint8, call. rewrite bind_Ok. simpl.
  rewrite Ht, Hd, forallb_truth. simpl. by destruct (forallb id mask).
Qed.

(** With zero tolerances [allclose] is true exactly when every pair of
    broadcast elements is equal or, with [equal_nan], a pair of NaNs; it
    dispatches what [isclose] does, then [all] and [item].  The shape
    condition is the one the in-place combination of the NaN masks needs. *)
Theorem allclose_zero_tolerances (self other : Tensor) (rtol atol : double)
    (equal_nan : bool) shape da db :
  scalar_type self = scalar_type other →
  is_quantized self = false → is_quantized other = false →
  well_formed self → well_formed other →
  double_eq rtol double_zero = true → double_eq atol double_zero = true →
  broadcast2 (sizes self, data self) (sizes other, data other) = Ok (shape, da, db) →
  (equal_nan && (is_floating_point self || is_complex self) = true →
   shape = sizes self) →
  allclose self other rtol atol equal_nan =
  mkM (Ok (forallb id (zip_with (close_value equal_nan) da db)))
    ((if equal_nan && (is_floating_point self || is_complex self)
      then ["eq"; "ne"; "ne"; "__iand__"; "__ior__"] else ["eq"])
     ++ ["all"; "item"]).
Proof.
  intros Heq Hq1 Hq2 Hwf1 Hwf2 Hr Ha Hbc Hshape. unfold allclose.
  destruct (isclose_zero_tolerances self other rtol atol equal_nan shape da db
              Heq Hq1 Hq2 Hwf1 Hwf2 Hr Ha Hbc Hshape) as (r & -> & _ & Ht & Hd).
  rewrite bind_Ok. by rewrite (all_item_mask r _ [] Ht Hd).
Qed.

(** An array is close to itself everywhere when NaNs compare equal;
    otherwise exactly when it holds no NaN.  So is an empty array. *)
Theorem allclose_same (x : Tensor) (rtol atol : double) :
  is_quantized x = false → well_formed x →
  double_eq rtol double_zero = true → double_eq atol double_zero = true →
  (∃ tr, allclose x x rtol atol true = mkM (Ok true) tr) ∧
  (allclose x x rtol atol false
   = mkM (Ok (forallb (λ v, negb (is_nan_value v)) (data x))) ["eq"; "all"; "item"]).
Proof.
  intros Hq Hwf Hr Ha. pose proof (wf_numel _ Hwf) as Hn.
  pose proof (broadcast2_same (sizes x) (data x) (data x) Hn Hn) as Hbc.
  unfold allclose. split.
  - destruct (isclose_zero_tolerances x x rtol atol true _ _ _
                eq_refl Hq Hq Hwf Hwf Hr Ha Hbc (λ _, eq_refl))
      as (r & -> & _ & Ht & Hd).
    rewrite bind_Ok, (all_item_mask r _ [] Ht Hd). simpl.
    assert (forallb id (zip_with (close_value true) (data x) (data x)) = true)
      as ->; [|by eexists].
    rewrite zip_with_diag. apply forallb_forall. intros b Hb.
    apply list_elem_of_In, list_elem_of_fmap in Hb as (v & -> & _).
    unfold close_value, value_ne. simpl. by destruct (value_eq v v).
  - destruct (isclose_zero_tolerances x x rtol atol false _ _ _
                eq_refl Hq Hq Hwf Hwf Hr Ha Hbc)
      as (r & -> & _ & Ht & Hd); [done|].
    rewrite bind_Ok, (all_item_mask r _ [] Ht Hd). simpl. do 2 f_equal.
    rewrite zip_with_diag. clear. induction (data x) as [|v l IH]; simpl; [done|].
    f_equal; [|done]. unfold close_value. simpl.
    rewrite orb_false_r, <- value_ne_itself. unfold value_ne.
    by rewrite negb_involutive.
Qed.

End Allclose.

Import Reference.

Lemma allclose_zero_tolerances_witness :
  allclose (make 1 [2%nat] Long [HAS_i 1; HAS_i 2]) (make 2 [] Long [HAS_i 1])
    double_zero double_zero true
  = mkM (Ok false) ["eq"; "all"; "item"].
Proof.
  apply (allclose_zero_tolerances
           (make 1 [2%nat] Long [HAS_i 1; HAS_i 2]) (make 2 [] Long [HAS_i 1])
           double_zero double_zero true [2%nat] [HAS_i 1; HAS_i 2] [HAS_i 1; HAS_i 1]);
    try reflexivity.
  - split; [reflexivity|]. repeat constructor.
  - split; [reflexivity|]. repeat constructor.
Defined.

Lemma allclose_same_witness :
  (∃ tr, allclose (make 1 [2%nat] Float [HAS_d quiet_NaN; HAS_d (double_of_Z 1)])
           (make 1 [2%nat] Float [HAS_d quiet_NaN; HAS_d (double_of_Z 1)])
           double_zero double_zero true = mkM (Ok true) tr) ∧
  allclose (make 1 [2%nat] Float [HAS_d quiet_NaN; HAS_d (double_of_Z 1)])
    (make 1 [2%nat] Float [HAS_d quiet_NaN; HAS_d (double_of_Z 1)])
    double_zero double_zero false = mkM (Ok false) ["eq"; "all"; "item"].
Proof.
  apply (allclose_same
           (make 1 [2%nat] Float [HAS_d quiet_NaN; HAS_d (double_of_Z 1)])
           double_zero double_zero); try reflexivity.
  split; [reflexivity|]. by repeat constructor.
Defined.

End AllcloseFacts.

(** ** [where] *)
Module WhereFacts.
Import c10 ATen native MonadFacts.

Section Where.
Context `{TypeProperties} `{Backend} `{Kernels}.

(** [t.to(dtype)] never fails, returns an array of the element type asked
    for, and dispatches at most the conversion. *)
Lemma at_to_spec (t : Tensor) (dtype : ScalarType) :
  ∃ r tr, at_to t dtype = mkM (Ok r) tr ∧ scalar_type r = dtype ∧
          sizes r = sizes t ∧ Forall (eq "to") tr ∧
          (scalar_type t = dtype → r = t ∧ tr = []).
Proof.
  unfold at_to. case_bool_decide as Ht.
  - exists t, []. by split_and!.
  - eexists _, _. split; [reflexivity|]. simpl.
    rewrite empty_scalar_type, empty_sizes. split_and!; [done..|by repeat constructor|done].
Qed.

(** The operands [where_self_out] hands to the iterator: the condition as
    booleans, and the two arrays in one element type. *)
Record kernel_operands (condition self other cond_bool self_ other_ : Tensor)
  : Prop := {
  condition_boolean : scalar_type cond_bool = Bool;
  condition_kept : scalar_type condition = Bool → cond_bool = condition;
  operands_one_type : scalar_type self_ = scalar_type other_;
  operands_kept :
    scalar_type self = scalar_type other → self_ = self ∧ other_ = other;
  operands_promoted :
    scalar_type self ≠ scalar_type other →
    scalar_type self_ = result_type_Tensor_Tensor self other
}.

Lemma where_self_out_unfold (condition self other out : Tensor) :
  ∃ self_ other_ tr,
    Forall (eq "to") tr ∧
    (scalar_type self = scalar_type other → tr = []) ∧
    (scalar_type condition ≠ Bool → scalar_type condition ≠ Byte →
     where_self_out condition self other out = mkM (Err UnsupportedType) tr) ∧
    (scalar_type condition = Bool ∨ scalar_type condition = Byte →
     ∃ cond_bool tr',
       kernel_operands condition self other cond_bool self_ other_ ∧
       Forall (eq "to") tr' ∧
       (scalar_type condition = Bool → tr' = []) ∧
       where_self_out condition self other out =
         mkM (outcome (iter ← lift (build_where out cond_bool self_ other_);
                       where_stub iter))
           (tr ++ tr' ++
            trace (iter ← lift (build_where out cond_bool self_ other_);
                   where_stub iter))).
Proof.
  unfold where_self_out.
  set (t := result_type_Tensor_Tensor self other).
  assert (∃ self_ other_ tr,
            Forall (eq "to") tr ∧
            (scalar_type self = scalar_type other →
             tr = [] ∧ self_ = self ∧ other_ = other) ∧
            (scalar_type self ≠ scalar_type other → scalar_type self_ = t) ∧
            scalar_type self_ = scalar_type other_ ∧
            (if negb (bool_decide (scalar_type self = scalar_type other)) then
               self_ ← at_to self t; other_ ← at_to other t; ret (self_, other_)
             else ret (self, other)) = mkM (Ok (self_, other_)) tr)
    as (self_ & other_ & tr & Htr & Hsame & Hprom & Hone & ->).
  { case_bool_decide as Hst; simpl.
    - exists self, other, []. by split_and!.
    - destruct (at_to_spec self t) as (s' & tr1 & -> & Hs' & _ & Hk1 & _).
      destruct (at_to_spec other t) as (o' & tr2 & -> & Ho' & _ & Hk2 & _).
      exists s', o', (tr1 ++ tr2). rewrite !bind_Ok. simpl.
      rewrite app_nil_r.
      split_and!; [by apply Forall_app|done|done|congruence|done]. }
  exists self_, other_, tr.
  split_and!; [done|intros Hst; by destruct (Hsame Hst)| |].
  - intros Hb Hy. rewrite bind_Ok. simpl.
    rewrite (bool_decide_eq_false_2 _ Hy), (bool_decide_eq_false_2 _ Hb).
    simpl. by rewrite app_nil_r.
  - intros Hcond. rewrite bind_Ok. simpl.
    destruct (at_to_spec condition Bool) as (c' & tr' & Hto & Hc' & _ & Hk & Hkept).
    case_bool_decide as Hy.
    + assert (scalar_type condition ≠ Bool) as Hb by (by rewrite Hy).
      unfold TORCH_WARN_ONCE. rewrite bind_ret_l, Hto, bind_Ok.
      exists c', tr'. split_and!; [|done|done|done].
      split; [done|done|done|by apply Hsame|done].
    + destruct Hcond as [Hb|]; [|done].
      rewrite (bool_decide_eq_true_2 _ Hb), bind_check_true, bind_ret_l.
      exists condition, []. split_and!; [|done|done|done].
      split; [done|done|done|by apply Hsame|done].
Qed.

(** Nothing but conversions has been dispatched. *)
Definition conversions_only (tr : list string) : Prop :=
  Forall (λ name, name = "to" ∨ name = "scalar_tensor") tr.

Lemma to_conversions_only tr : Forall (eq "to") tr → conversions_only tr.
Proof. intros Htr. eapply Forall_impl; [done|]. intros ? <-. by left. Qed.

Lemma where_self_rejects (condition self other : Tensor) :
  scalar_type condition ≠ Bool → scalar_type condition ≠ Byte →
  ∃ tr, where_self condition self other = mkM (Err UnsupportedType) tr ∧
        Forall (eq "to") tr.
Proof.
  intros Hb Hy. unfold where_self.
  destruct (where_self_out_unfold condition self other
              (empty [0%nat] (result_type_Tensor_Tensor self other) (device self)))
    as (_ & _ & tr & Htr & _ & Herr & _).
  exists tr. split; [by apply Herr|done].
Qed.

(** A condition that is neither boolean nor of bytes is refused by
    [where_self_out] and by the four overloads of [where] that take three
    operands, with [where_kernel] never dispatched: what has run by then are
    the conversions of the operands, none when the two arrays given to
    [where_self_out] have one element type.  (The overload of one operand,
    [where(condition)], is not among them: it makes no such check.) *)
Theorem where_rejects_condition (condition self other out : Tensor) (a b : Scalar) :
  scalar_type condition ≠ Bool → scalar_type condition ≠ Byte →
  (∃ tr, where_self_out condition self other out = mkM (Err UnsupportedType) tr ∧
         Forall (eq "to") tr ∧
         (scalar_type self = scalar_type other → tr = [])) ∧
  (∃ tr, where_self condition self other = mkM (Err UnsupportedType) tr ∧
         conversions_only tr) ∧
  (∃ tr, where_ScalarSelf condition a other = mkM (Err UnsupportedType) tr ∧
         conversions_only tr) ∧
  (∃ tr, where_ScalarOther condition self b = mkM (Err UnsupportedType) tr ∧
         conversions_only tr) ∧
  (∃ tr, where_Scalar condition a b = mkM (Err UnsupportedType) tr ∧
         conversions_only tr).
Proof.
  intros Hb Hy. split_and!.
  - destruct (where_self_out_unfold condition self other out)
      as (_ & _ & tr & Htr & Hnil & Herr & _).
    exists tr. split_and!; [by apply Herr|done..].
  - destruct (where_self_rejects condition self other Hb Hy) as (tr & -> & Htr).
    exists tr. split; [done|by apply to_conversions_only].
  - unfold where_ScalarSelf, at_scalar_tensor, call. rewrite bind_Ok.
    destruct (at_to_spec other (result_type_Tensor_Scalar other a))
      as (o' & tr1 & -> & _ & _ & Htr1 & _).
    rewrite bind_Ok.
    match goal with |- context [where_self condition ?s ?o] =>
      destruct (where_self_rejects condition s o Hb Hy) as (tr & -> & Htr) end.
    eexists. split; [reflexivity|]. simpl.
    apply Forall_cons. split; [by right|].
    apply Forall_app. split; by apply to_conversions_only.
  - unfold where_ScalarOther, at_scalar_tensor, call. rewrite bind_Ok.
    destruct (at_to_spec self (result_type_Tensor_Scalar self b))
      as (s' & tr1 & -> & _ & _ & Htr1 & _).
    rewrite bind_Ok.
    match goal with |- context [where_self condition ?s ?o] =>
      destruct (where_self_rejects condition s o Hb Hy) as (tr & -> & Htr) end.
    eexists. split; [reflexivity|]. simpl.
    apply Forall_cons. split; [by right|].
    apply Forall_app. split; by apply to_conversions_only.
  - unfold where_Scalar, at_scalar_tensor, call. rewrite !bind_Ok.
    match goal with |- context [where_self condition ?s ?o] =>
      destruct (where_self_rejects condition s o Hb Hy) as (tr & -> & Htr) end.
    eexists. split; [reflexivity|]. simpl.
    do 2 (apply Forall_cons; split; [by right|]).
    by apply to_conversions_only.
Qed.

(** With a condition of booleans or of bytes, [where_self_out] builds its
    iterator on a boolean condition and on two operands of one element type:
    the operands themselves if their types agree, both converted to the
    promoted type otherwise; a condition of bytes is converted to booleans.
    Nothing but these conversions precedes the kernel, and nothing at all
    does for a boolean condition and operands of one type. *)
Theorem where_self_out_operands (condition self other out : Tensor) :
  scalar_type condition = Bool ∨ scalar_type condition = Byte →
  ∃ cond_bool self_ other_ tr,
    kernel_operands condition self other cond_bool self_ other_ ∧
    Forall (eq "to") tr ∧
    (scalar_type condition = Bool → scalar_type self = scalar_type other →
     tr = []) ∧
    where_self_out condition self other out =
      mkM (outcome (iter ← lift (build_where out cond_bool self_ other_);
                    where_stub iter))
        (tr ++ trace (iter ← lift (build_where out cond_bool self_ other_);
                      where_stub iter)).
Proof.
  intros Hcond.
  destruct (where_self_out_unfold condition self other out)
    as (self_ & other_ & tr & Htr & Hnil & _ & Hok).
  destruct (Hok Hcond) as (cond_bool & tr' & Hops & Htr' & Hnil' & ->).
  exists cond_bool, self_, other_, (tr ++ tr').
  split_and!; [done|by apply Forall_app| |by rewrite <- app_assoc].
  intros Hb Hst. by rewrite Hnil, Hnil'.
Qed.

End Where.

Import Reference.

Lemma where_rejects_condition_witness :
  where_self (make 1 [2%nat] Long [HAS_i 1; HAS_i 0])
    (make 2 [2%nat] Float [HAS_d (double_of_Z 1); HAS_d (double_of_Z 2)])
    (make 3 [2%nat] Long [HAS_i 5; HAS_i 6])
  = mkM (Err UnsupportedType) ["to"].
Proof.
  destruct (where_rejects_condition
              (make 1 [2%nat] Long [HAS_i 1; HAS_i 0])
              (make 2 [2%nat] Float [HAS_d (double_of_Z 1); HAS_d (double_of_Z 2)])
              (make 3 [2%nat] Long [HAS_i 5; HAS_i 6])
              (make 4 [] Float []) (HAS_i 0) (HAS_i 0))
    as (_ & (tr & Hw & _) & _); [done..|].
  rewrite Hw. by injection Hw as <-.
Defined.

Lemma where_self_out_operands_witness :
  ∃ cond_bool self_ other_ tr,
    kernel_operands
      (make 1 [2%nat] Byte [HAS_i 1; HAS_i 0])
      (make 2 [2%nat] Long [HAS_i 1; HAS_i 2])
      (make 3 [2%nat] Float [HAS_d (double_of_Z 5); HAS_d (double_of_Z 6)])
      cond_bool self_ other_ ∧
    Forall (eq "to") tr ∧
    outcome (where_self_out
               (make 1 [2%nat] Byte [HAS_i 1; HAS_i 0])
               (make 2 [2%nat] Long [HAS_i 1; HAS_i 2])
               (make 3 [2%nat] Float [HAS_d (double_of_Z 5); HAS_d (double_of_Z 6)])
               (make 4 [0%nat] Float []))
    = outcome (iter ← lift (build_where (make 4 [0%nat] Float [])
                              cond_bool self_ other_);
               where_stub iter).
Proof.
  destruct (where_self_out_operands
              (make 1 [2%nat] Byte [HAS_i 1; HAS_i 0])
              (make 2 [2%nat] Long [HAS_i 1; HAS_i 2])
              (make 3 [2%nat] Float [HAS_d (double_of_Z 5); HAS_d (double_of_Z 6)])
              (make 4 [0%nat] Float []))
    as (c & s & o & tr & Hops & Htr & _ & Hw); [by right|].
  exists c, s, o, tr. split_and!; [done..|]. by rewrite Hw.
Defined.

(** On the reference implementation: the condition of bytes and the
    narrower operand are converted, then the kernel selects. *)
Example where_scenario :
  ∃ r, where_self_out
         (make 1 [2%nat] Byte [HAS_i 1; HAS_i 0])
         (make 2 [2%nat] Int [HAS_i 1; HAS_i 2])
         (make 3 [2%nat] Long [HAS_i 5; HAS_i 6])
         (make 4 [0%nat] Long [])
       = mkM (Ok r) ["to"; "to"; "where_kernel"] ∧
       data r = [HAS_i 1; HAS_i 6].
Proof. vm_compute. eexists. split; reflexivity. Qed.

End WhereFacts.

(** ** [isin]: the meta step, and what the mask depends on *)
Module MembershipFacts.
Import c10 ATen MonadFacts Isin IsinFacts IsinPathFacts.

(** The element types [check_for_unsupported_isin_dtype] lets through. *)
Definition isin_supported (t : ScalarType) : bool :=
  match t with
  | Bool | BFloat16 | ComplexFloat | ComplexDouble => false
  | _ => true
  end.

Section Meta.
Context `{TypeProperties} `{Backend} `{Kernels}.

Lemma check_for_unsupported_isin_dtype_spec (t : ScalarType) :
  meta.check_for_unsupported_isin_dtype t = TORCH_CHECK (isin_supported t) UnsupportedType.
Proof. unfold meta.check_for_unsupported_isin_dtype. by destruct t. Qed.

(** The meta step of the three overloads of [isin]: booleans, bfloat16 and
    single or double precision complex numbers are refused for either
    operand, a scalar operand counting with the type of its tag; any other
    pair of types gives a boolean output on the device of the array operand,
    of the shape of the elements, or of shape [[0]] when the elements are a
    scalar. *)
Theorem isin_meta_cases (elements test_elements : Tensor) (e t : Scalar)
    (assume_unique invert : bool) (maybe_get_output : option Tensor) :
  meta.isin_Tensor_Tensor elements test_elements assume_unique invert maybe_get_output
  = (if isin_supported (scalar_type elements)
        && isin_supported (scalar_type test_elements)
     then meta.set_output maybe_get_output (sizes elements) Bool (device elements)
     else mkM (Err UnsupportedType) []) ∧
  meta.isin_Tensor_Scalar elements t assume_unique invert maybe_get_output
  = (if isin_supported (scalar_type elements) && isin_supported (Scalar_type t)
     then meta.set_output maybe_get_output (sizes elements) Bool (device elements)
     else mkM (Err UnsupportedType) []) ∧
  meta.isin_Scalar_Tensor e test_elements assume_unique invert maybe_get_output
  = (if isin_supported (Scalar_type e) && isin_supported (scalar_type test_elements)
     then meta.set_output maybe_get_output [0%nat] Bool (device test_elements)
     else mkM (Err UnsupportedType) []) ∧
  isin_supported (Scalar_type t)
  = match t with HAS_b _ | HAS_z _ _ => false | _ => true end ∧
  (∀ shape dev, ∃ out,
     meta.set_output None shape Bool dev = ret out ∧
     sizes out = shape ∧ scalar_type out = Bool ∧ device out = dev).
Proof.
  unfold meta.isin_Tensor_Tensor, meta.isin_Tensor_Scalar, meta.isin_Scalar_Tensor.
  rewrite !check_for_unsupported_isin_dtype_spec. split_and!.
  - destruct (isin_supported (scalar_type elements)); [|done].
    rewrite bind_check_true.
    destruct (isin_supported (scalar_type test_elements)); [|done].
    by rewrite bind_check_true.
  - destruct (isin_supported (scalar_type elements)); [|done].
    rewrite bind_check_true.
    destruct (isin_supported (Scalar_type t)); [|done].
    by rewrite bind_check_true.
  - destruct (isin_supported (Scalar_type e)); [|done].
    rewrite bind_check_true.
    destruct (isin_supported (scalar_type test_elements)); [|done].
    by rewrite bind_check_true.
  - by destruct t.
  - intros shape dev. eexists. split; [reflexivity|].
    by rewrite empty_sizes, empty_scalar_type, empty_device.
Qed.

End Meta.

Section Mask.
Context `{Primitives} `{Cmath}.

(** On operands of one element type, integral or floating-point (without
    NaN among the elements when [assume_unique] is false, without equal
    elements when it is true), the mask depends on the test elements only as
    a set, and neither on the previous content of the output nor on the
    branch the sizes select: test elements in another order, or repeated,
    give the same mask. *)
Theorem isin_test_elements_as_set
    (elements test_elements test_elements' : Array) (assume_unique invert : bool)
    (out out' : list bool) :
  agreeing_operands elements test_elements assume_unique out →
  agreeing_operands elements test_elements' assume_unique out' →
  (∀ x, x ∈ values test_elements ↔ x ∈ values test_elements') →
  isin_Tensor_Tensor_out elements test_elements assume_unique invert out =
  isin_Tensor_Tensor_out elements test_elements' assume_unique invert out'.
Proof.
  intros Hop Hop' Hset. unfold isin_Tensor_Tensor_out.
  rewrite !isin_mask by done. f_equal.
  apply list_fmap_ext. intros _ v _. apply verdict_ext.
  split; intros (t & Ht & Heq); exists t; (split; [by apply Hset|done]).
Qed.

(** On the same operands, [invert] complements the mask, cell by cell. *)
Theorem isin_invert_complements
    (elements test_elements : Array) (assume_unique : bool)
    (out out' : list bool) :
  agreeing_operands elements test_elements assume_unique out →
  agreeing_operands elements test_elements assume_unique out' →
  isin_Tensor_Tensor_out elements test_elements assume_unique true out =
  fmap (M := list) negb
    <$> isin_Tensor_Tensor_out elements test_elements assume_unique false out'.
Proof.
  intros Hop Hop'. unfold isin_Tensor_Tensor_out.
  rewrite !isin_mask by done. simpl. f_equal.
  rewrite <- list_fmap_compose. apply list_fmap_ext. intros _ v _.
  unfold verdict. simpl. by destruct (existsb _ _).
Qed.


End Mask.

Import IsinReference.

Lemma agreeing_longs (elements test_elements : list Z) assume_unique out :
  length out = length elements →
  (assume_unique = true → no_repetition (values (longs elements))) →
  agreeing_operands (longs elements) (longs test_elements) assume_unique out.
Proof.
  intros Hlen Hnd. split; try done.
  - apply longs_typed.
  - apply longs_typed.
  - simpl. by rewrite length_fmap.
  - intros _. apply longs_no_NaN.
Qed.


Lemma isin_test_elements_as_set_witness :
  isin_Tensor_Tensor_out (longs [3; 1; 2]) (longs [2; 3]) false false
    [true; true; true] =
  isin_Tensor_Tensor_out (longs [3; 1; 2]) (longs (replicate 20 3 ++ [2; 3; 2]))
    false false [false; false; false].
Proof.
  apply isin_test_elements_as_set.
  - apply agreeing_longs; [reflexivity|discriminate].
  - apply agreeing_longs; [reflexivity|discriminate].
  - intros x. unfold longs. cbn [values]. rewrite !list_elem_of_fmap.
    split; intros (z & -> & Hz); exists z; (split; [done|]); revert Hz;
      rewrite elem_of_app, elem_of_replicate, !elem_of_cons, elem_of_nil; lia.
Defined.

Lemma isin_invert_complements_witness :
  isin_Tensor_Tensor_out (longs [3; 1; 2]) (longs [2; 5]) true true
    [false; false; false] =
  fmap (M := list) negb
    <$> isin_Tensor_Tensor_out (longs [3; 1; 2]) (longs [2; 5]) true false
          [true; true; true].
Proof.
  apply isin_invert_complements;
    (apply agreeing_longs; [reflexivity|intros _; apply no_repetition_3_1_2]).
Defined.

End MembershipFacts.

(** ** [mode] *)
Module ModeFacts.
Import c10 ATen native MonadFacts.

Section Mode.
Context `{TypeProperties} `{Backend}.

(** The buffers [mode] allocates pass the checks [mode_out] makes on the
    buffers of a caller. *)
Lemma mode_unfold (self : Tensor) (dim : Z) (keepdim : bool) :
  is_cpu (device self) || is_cuda (device self) = true →
  layout self = Strided →
  let values := empty [0%nat] (scalar_type self) (device self) in
  let indices := empty [0%nat] Long (device self) in
  mode self dim keepdim =
    (dim ← meta.maybe_wrap_dim dim (ATen.dim self);
     if bool_decide (numel self = 0%nat) then
       sizes ← lift (get_zero_numel_tensor_size self dim keepdim);
       values ← lift (resize_output values sizes);
       indices ← lift (resize_output indices sizes);
       ret (values, indices)
     else
       '(trivial, values) ←
         lift (_dimreduce_return_trivial_no_ident values self dim keepdim);
       if trivial : bool then
         TORCH_CHECK (bool_decide (ATen.dim values = 0%nat)) InternalAssert;;
         indices ← lift (resize_output indices []);
         indices ← at_fill_ indices (HAS_i 0);
         ret (values, indices)
       else mode_stub values indices self dim keepdim).
Proof.
  intros Hdev Hlay values indices. unfold mode, mode_out.
  rewrite Hdev, bind_check_true.
  rewrite (bool_decide_eq_true_2 _ Hlay), bind_check_true.
  rewrite !empty_device, !empty_scalar_type.
  rewrite (bool_decide_eq_true_2 (device self = device self)) by done.
  rewrite (bool_decide_eq_true_2 (scalar_type self = scalar_type self)) by done.
  rewrite (bool_decide_eq_true_2 (Long = Long)) by done.
  by rewrite !bind_check_true.
Qed.

(** [mode] on a strided CPU or CUDA array never fails on the buffers it
    allocates.  A dimension out of range fails before anything is
    dispatched.  On an empty array no kernel runs and both results are the
    buffers resized to the shape the helper gives; on an array the
    trivial-reduction helper takes, the indices are a rank-0 array holding
    0, written by one fill; only on the remaining arrays is [mode_stub]
    dispatched. *)
Theorem mode_cases (self : Tensor) (dim : Z) (keepdim : bool) :
  is_cpu (device self) || is_cuda (device self) = true →
  layout self = Strided →
  let values := empty [0%nat] (scalar_type self) (device self) in
  let indices := empty [0%nat] Long (device self) in
  (∀ e, meta.maybe_wrap_dim dim (ATen.dim self) = mkM (Err e) [] →
        mode self dim keepdim = mkM (Err e) []) ∧
  (∀ d, meta.maybe_wrap_dim dim (ATen.dim self) = ret d →
     (numel self = 0%nat →
      ∀ shape v i,
        get_zero_numel_tensor_size self d keepdim = Ok shape →
        resize_output values shape = Ok v → resize_output indices shape = Ok i →
        mode self dim keepdim = mkM (Ok (v, i)) [] ∧
        sizes v = shape ∧ sizes i = shape) ∧
     (numel self ≠ 0%nat →
      ∀ v, _dimreduce_return_trivial_no_ident values self d keepdim = Ok (true, v) →
        (ATen.dim v ≠ 0%nat →
         mode self dim keepdim = mkM (Err InternalAssert) []) ∧
        (ATen.dim v = 0%nat →
         ∀ i, resize_output indices [] = Ok i →
           mode self dim keepdim = mkM (Ok (v, with_data i [HAS_i 0])) ["fill_"])) ∧
     (numel self ≠ 0%nat →
      ∀ v, _dimreduce_return_trivial_no_ident values self d keepdim = Ok (false, v) →
        mode self dim keepdim = mode_stub v indices self d keepdim)).
Proof.
  intros Hdev Hlay values indices.
  rewrite (mode_unfold self dim keepdim Hdev Hlay). fold values indices.
  split; [by intros e ->|].
  intros d ->. rewrite bind_ret_l. split_and!.
  - intros Hn shape v i Hshape Hrv Hri.
    rewrite (bool_decide_eq_true_2 _ Hn), Hshape, bind_lift_Ok, Hrv, bind_lift_Ok,
      Hri, bind_lift_Ok.
    split_and!; [done|by eapply resize_output_sizes..].
  - intros Hn v Htriv. rewrite (bool_decide_eq_false_2 _ Hn), Htriv, bind_lift_Ok.
    split.
    + intros Hd. by rewrite (bool_decide_eq_false_2 _ Hd).
    + intros Hd i Hri.
      rewrite (bool_decide_eq_true_2 _ Hd), bind_check_true, Hri, bind_lift_Ok.
      unfold at_fill_, call, numel. rewrite bind_Ok. simpl.
      rewrite (resize_output_sizes _ _ _ Hri),
        (resize_output_scalar_type _ _ _ Hri).
      unfold indices. rewrite empty_scalar_type. simpl.
      unfold convert. by rewrite bool_decide_eq_true_2.
  - intros Hn v Htriv. by rewrite (bool_decide_eq_false_2 _ Hn), Htriv, bind_lift_Ok.
Qed.

End Mode.

Import Reference.

Lemma mode_cases_witness :
  (∃ v i, mode (make 1 [0; 3]%nat Float []) 1 false = mkM (Ok (v, i)) [] ∧
          sizes v = [0%nat] ∧ sizes i = [0%nat]) ∧
  mode (make 1 [2%nat] Long [HAS_i 4; HAS_i 4]) 1 false
  = mkM (Err IndexOutOfRange) [].
Proof.
  split.
  - destruct (mode_cases (make 1 [0; 3]%nat Float []) 1 false eq_refl eq_refl)
      as [_ Hin].
    destruct (Hin 1 eq_refl) as (Hempty & _).
    eexists _, _. apply (Hempty eq_refl [0%nat]); reflexivity.
  - by apply (mode_cases (make 1 [2%nat] Long [HAS_i 4; HAS_i 4]) 1 false eq_refl eq_refl).
Defined.

End ModeFacts.

(** ** [clamp]: refusals and promotion *)
Module ClampEdgeFacts.
Import c10 ATen native MonadFacts ClampFacts.

Section ClampEdges.
Context `{TypeProperties} `{Backend}.

(** Without a bound every entry point of [clamp] and of [clip] fails with
    [InvalidArgument] before anything else is looked at or dispatched. *)
Theorem clamp_needs_a_bound (self result : Tensor) :
  at_clamp self None None = mkM (Err InvalidArgument) [] ∧
  at_clamp_ self None None = mkM (Err InvalidArgument) [] ∧
  at_clamp_outf self None None result = mkM (Err InvalidArgument) [] ∧
  at_clamp_Tensor self None None = mkM (Err InvalidArgument) [] ∧
  at_clamp__Tensor self None None = mkM (Err InvalidArgument) [] ∧
  at_clamp_outf_Tensor self None None result = mkM (Err InvalidArgument) [] ∧
  clip self None None = mkM (Err InvalidArgument) [] ∧
  clip_ self None None = mkM (Err InvalidArgument) [] ∧
  clip_out self None None result = mkM (Err InvalidArgument) [] ∧
  clip_Tensor self None None = mkM (Err InvalidArgument) [] ∧
  clip__Tensor self None None = mkM (Err InvalidArgument) [] ∧
  clip_out_Tensor self None None result = mkM (Err InvalidArgument) [].
Proof. by split_and!. Qed.

(** A complex [self] is refused with [UnsupportedType], nothing dispatched,
    by [clamp] with scalar or array bounds (given at least one bound) and by
    [clamp_min] and [clamp_max] with a scalar bound, whatever the output. *)
Theorem clamp_refuses_complex_self (self : Tensor)
    (maybe_get_output : option Tensor) :
  isComplexType (scalar_type self) = true →
  (∀ min max, is_Some min ∨ is_Some max →
     at_clamp_structured maybe_get_output self min max
     = mkM (Err UnsupportedType) []) ∧
  (∀ min max, is_Some min ∨ is_Some max →
     at_clamp_Tensor_structured maybe_get_output self min max
     = mkM (Err UnsupportedType) []) ∧
  (∀ bound,
     at_clamp_min_structured maybe_get_output self bound
     = mkM (Err UnsupportedType) [] ∧
     at_clamp_max_structured maybe_get_output self bound
     = mkM (Err UnsupportedType) []).
Proof.
  intros Hc. split_and!.
  - intros min max Hb. unfold at_clamp_structured.
    by rewrite meta_clamp_complex.
  - intros min max Hb. unfold at_clamp_Tensor_structured, meta.clamp_Tensor.
    assert (bool_decide (is_Some min) || bool_decide (is_Some max) = true) as ->.
    { destruct Hb as [Hb|Hb]; rewrite (bool_decide_eq_true_2 _ Hb); simpl;
        [done|by rewrite orb_true_r]. }
    by rewrite bind_check_true, Hc.
  - intros bound.
    unfold at_clamp_min_structured, at_clamp_max_structured,
      meta.clamp_min, meta.clamp_max.
    by rewrite Hc.
Qed.


(** On a floating-point [self] the meta step of the scalar-bound [clamp]
    does not look at the bounds, so a complex bound is not refused there as
    [clamp_min] and [clamp_max] refuse it: alone it reaches the kernel, and
    as the lower of two bounds, with an imaginary part that is not zero, it
    fails in the impl step, when it is converted to a double. *)
Theorem clamp_complex_bound_on_floating (self : Tensor) (re im : double)
    (max : Scalar) (maybe_get_output : option Tensor) :
  isFloatingType (scalar_type self) = true →
  at_clamp_min_structured maybe_get_output self (HAS_z re im)
  = mkM (Err UnsupportedType) [] ∧
  at_clamp_max_structured maybe_get_output self (HAS_z re im)
  = mkM (Err UnsupportedType) [] ∧
  at_clamp_structured maybe_get_output self (Some (HAS_z re im)) None
  = (it ← lift (build_unary_op maybe_get_output self);
     clamp_min_scalar_stub it (HAS_z re im)) ∧
  (double_eq im double_zero = false →
   ∀ it, build_unary_op maybe_get_output self = Ok it →
     at_clamp_structured maybe_get_output self (Some (HAS_z re im)) (Some max)
     = mkM (Err ConversionOverflow) []).
Proof.
  intros Hf. split_and!.
  - unfold at_clamp_min_structured. by rewrite meta_clamp_min_floating.
  - unfold at_clamp_max_structured. by rewrite meta_clamp_max_floating.
  - unfold at_clamp_structured. by rewrite meta_clamp_floating by (done || by left).
  - intros Him it Hit. unfold at_clamp_structured.
    rewrite meta_clamp_floating by (done || by left).
    rewrite Hit, bind_lift_Ok. unfold clamp_out, toDouble_ne_itself. simpl.
    by rewrite Him.
Qed.

End ClampEdges.

Import Reference.

Lemma clamp_refuses_complex_self_witness :
  at_clamp (make 1 [1%nat] ComplexFloat [HAS_z double_zero double_zero])
    (Some (HAS_i 0)) None
  = mkM (Err UnsupportedType) [].
Proof.
  destruct (clamp_refuses_complex_self
              (make 1 [1%nat] ComplexFloat [HAS_z double_zero double_zero]) None
              eq_refl) as [Hclamp _].
  apply Hclamp. left. by eexists.
Defined.


Lemma clamp_complex_bound_on_floating_witness :
  at_clamp (make 1 [1%nat] Float [HAS_d (double_of_Z 1)])
    (Some (HAS_z double_zero (double_of_Z 1))) (Some (HAS_i 3))
  = mkM (Err ConversionOverflow) [] ∧
  at_clamp_min_structured None (make 1 [1%nat] Float [HAS_d (double_of_Z 1)])
    (HAS_z double_zero (double_of_Z 1))
  = mkM (Err UnsupportedType) [].
Proof.
  destruct (clamp_complex_bound_on_floating
              (make 1 [1%nat] Float [HAS_d (double_of_Z 1)])
              double_zero (double_of_Z 1) (HAS_i 3) None eq_refl)
    as (Hmin & _ & _ & Hboth).
  split; [|exact Hmin]. by eapply Hboth.
Defined.

End ClampEdgeFacts.

(** ** [isclose] with tolerances *)
Module ClosenessFacts.
Import c10 ATen native MonadFacts BroadcastFacts IscloseFacts PredicateFacts.

(** [m] after the operations of [tr]. *)
Definition prepend {A} (tr : list string) (m : M A) : M A :=
  mkM (outcome m) (tr ++ trace m).

Lemma bind_Ok_prepend {A B} (a : A) tr (f : A → M B) :
  mkM (Ok a) tr ≫= f = prepend tr (f a).
Proof. done. Qed.

Ltac norm :=
  cbn [with_data sizes scalar_type device data];
  rewrite ?empty_sizes, ?empty_scalar_type, ?empty_device.

Section Closeness.
Context `{TypeProperties} `{Backend}.

(** Note [closeness] of the source, on two elements of the floating-point
    type [t]: equal, with NaNs comparing equal on request, or an error
    [abs (a - b)] that is finite and at most [atol + abs (rtol * b)]. *)
Definition closeness (t : ScalarType) (rtol atol : double) (equal_nan : bool)
    (a b : Scalar) : bool :=
  let actual_error := abs_value t (sub_value t a b) in
  let allowed_error :=
    add_value t (HAS_d atol) (abs_value t (mul_value t (HAS_d rtol) b)) in
  close_value equal_nan a b
  || (is_finite_value actual_error && le_value t actual_error allowed_error).

(** What is assumed of the collaborators: the absolute value of a double
    clears its sign, the difference of two doubles is a double, the product
    of two booleans is their conjunction; a floating-point array and a
    double scalar, and two arrays of one shape and one type that is floating
    point or boolean, promote to the type of the array. *)
Hypothesis abs_double :
  ∀ t d, isFloatingType t = true → abs_value t (HAS_d d) = HAS_d (SFabs d).
Hypothesis sub_double :
  ∀ t x y, isFloatingType t = true → is_double (sub_value t (HAS_d x) (HAS_d y)).
Hypothesis mul_bool :
  ∀ a b, mul_value Bool (HAS_b a) (HAS_b b) = HAS_b (a && b).
Hypothesis result_type_bool :
  ∀ a b, scalar_type a = Bool → scalar_type b = Bool → sizes a = sizes b →
         result_type_Tensor_Tensor a b = Bool.
Hypothesis result_type_floating :
  ∀ a b, isFloatingType (scalar_type a) = true → scalar_type b = scalar_type a →
         sizes a = sizes b → result_type_Tensor_Tensor a b = scalar_type a.
Hypothesis result_type_double_scalar :
  ∀ a d, isFloatingType (scalar_type a) = true →
         result_type_Tensor_Scalar a (HAS_d d) = scalar_type a.

Lemma closeness_masks t rtol atol equal_nan (da db : list Scalar) :
  zip_with (λ x y, HAS_b (truth x || truth y))
    (HAS_b <$> zip_with (close_value equal_nan) da db)
    (zip_with (λ x y, HAS_b (truth x && truth y))
       ((λ v, HAS_b (is_finite_value v))
          <$> (abs_value t <$> zip_with (sub_value t) da db))
       (zip_with (λ x y, HAS_b (le_value t x y))
          (abs_value t <$> zip_with (sub_value t) da db)
          (add_value t (HAS_d atol)
             <$> (abs_value t <$> (mul_value t (HAS_d rtol) <$> db)))))
  = HAS_b <$> zip_with (closeness t rtol atol equal_nan) da db.
Proof.
  revert db. induction da as [|x da IH]; intros [|y db]; simpl; [done..|].
  by f_equal.
Qed.

Lemma at_abs_eq (a : Tensor) :
  at_abs a =
  mkM (Ok (with_data (empty (sizes a) (scalar_type a) (device a))
             (abs_value (scalar_type a) <$> data a))) ["abs"].
Proof. done. Qed.

(** On two floating-point arrays of one type and one shape, with tolerances
    that are not both zero, [isclose] returns the boolean array of the
    closeness of each pair of elements. *)
Theorem isclose_elementwise (self other : Tensor) (rtol atol : double)
    (equal_nan : bool) :
  scalar_type self = scalar_type other →
  isFloatingType (scalar_type self) = true →
  is_quantized self = false → is_quantized other = false →
  well_formed self → well_formed other →
  sizes self = sizes other →
  double_ge rtol double_zero = true → double_ge atol double_zero = true →
  double_eq rtol double_zero && double_eq atol double_zero = false →
  ∃ r tr,
    isclose self other rtol atol equal_nan = mkM (Ok r) tr ∧
    sizes r = sizes self ∧ scalar_type r = Bool ∧
    data r = HAS_b <$> zip_with (closeness (scalar_type self) rtol atol equal_nan)
                         (data self) (data other).
Proof.
  intros Heq Hf Hq1 Hq2 [Hn1 Ht1] [Hn2 Ht2] Hs Hr Ha Hzero.
  pose proof (floating_values _ _ Hf Ht1) as Hd1.
  assert (isFloatingType (scalar_type other) = true) as Hf2 by (by rewrite <- Heq).
  pose proof (floating_values _ _ Hf2 Ht2) as Hd2.
  assert (length (data other) = numel self) as Hn2' by (by unfold numel; rewrite Hs).
  unfold isclose.
  rewrite (bool_decide_eq_true_2 _ Heq), bind_check_true, Hq1, Hq2.
  simpl negb. rewrite bind_check_true, Hr, Ha, !bind_check_true, Hzero.
  unfold at_eq at 1, binary_op, call. rewrite <- Hs.
  rewrite broadcast2_same by done. rewrite bind_Ok.
  (* the masks of equality and of NaNs *)
  assert (∃ close tr,
            (if equal_nan && (is_floating_point self || is_complex self) then
               self_nan ← isnan self; other_nan ← isnan other;
               both_nan ← __iand__ self_nan other_nan;
               __ior__
                 (with_data (empty (sizes self) Bool (device self))
                    (zip_with (λ x y, HAS_b (value_eq x y)) (data self) (data other)))
                 both_nan
             else ret (with_data (empty (sizes self) Bool (device self))
                         (zip_with (λ x y, HAS_b (value_eq x y))
                            (data self) (data other))))
            = mkM (Ok close) tr ∧
            sizes close = sizes self ∧ scalar_type close = Bool ∧
            data close = HAS_b <$> zip_with (close_value equal_nan)
                                     (data self) (data other))
    as (close & tr & -> & Hcs & Hct & Hcd).
  { unfold is_floating_point. rewrite Hf, orb_true_l, andb_true_r.
    destruct equal_nan.
    - rewrite (isnan_spec self), (isnan_spec other) by (done || by rewrite Hn2').
      rewrite !bind_Ok.
      unfold __iand__, binary_op_, call. simpl sizes. rewrite <- Hs, !empty_sizes.
      simpl data.
      rewrite broadcast2_same by (by rewrite length_fmap).
      rewrite bool_decide_eq_true_2 by done. rewrite !bind_Ok.
      unfold __ior__, binary_op_, call. simpl sizes. rewrite !empty_sizes. simpl data.
      rewrite broadcast2_same
        by (rewrite length_zip_with, ?length_fmap; unfold numel in *; lia).
      rewrite bool_decide_eq_true_2 by done. simpl.
      eexists _, _. split; [reflexivity|]. simpl.
      rewrite empty_sizes, empty_scalar_type. split_and!; [done..|].
      apply nan_masks_combine.
    - eexists _, _. split; [reflexivity|]. simpl.
      rewrite empty_sizes, empty_scalar_type. split_and!; [done..|].
      clear. generalize (data other). induction (data self) as [|x da IH];
        intros [|y db]; simpl; [done..|].
      unfold close_value at 1. simpl. rewrite orb_false_r. by f_equal. }
  rewrite bind_Ok_prepend. cbv beta.
  set (t := scalar_type self) in *.
  match goal with |- context [prepend tr ?X] =>
    assert (∃ r tr', X = mkM (Ok r) tr' ∧ sizes r = sizes self ∧
                     scalar_type r = Bool ∧
                     data r = HAS_b <$> zip_with (closeness t rtol atol equal_nan)
                                          (data self) (data other))
      as (r & tr' & -> & Hrs & Hrt & Hrd) end.
  2: { exists r. eexists. by split_and!. }
  clear tr.
  rewrite bool_decide_eq_false_2 by (intros Hb; by rewrite Hb in Hf).
  rewrite bind_ret_l.
  assert (isIntegralType t true = false) as -> by (by destruct t).
  rewrite bind_ret_l.
  (* the allowed error *)
  unfold at_mul_Scalar, unary_op, call.
  rewrite result_type_double_scalar, <- Heq by done.
  rewrite bind_Ok_prepend. cbv beta.
  rewrite at_abs_eq. norm.
  rewrite bind_Ok_prepend. cbv beta.
  unfold at_add_Scalar, unary_op, call.
  rewrite result_type_double_scalar by (by norm). norm.
  rewrite bind_Ok_prepend. cbv beta.
  (* the actual error *)
  unfold at_sub, binary_op, call.
  rewrite result_type_floating by done. fold t.
  rewrite <- Hs, broadcast2_same by done.
  rewrite bind_Ok_prepend. cbv beta.
  rewrite at_abs_eq. norm.
  rewrite bind_Ok_prepend. cbv beta.
  set (D := zip_with (sub_value t) (data self) (data other)).
  set (A := add_value t (HAS_d atol)
              <$> (abs_value t <$> (mul_value t (HAS_d rtol) <$> data other))).
  assert (length D = numel_of (sizes self)) as HlD.
  { unfold D. rewrite length_zip_with. unfold numel in *. lia. }
  assert (length A = numel_of (sizes self)) as HlA.
  { unfold A. rewrite !length_fmap. by unfold numel in *. }
  assert (Forall is_double (abs_value t <$> D)) as HdE.
  { apply Forall_fmap. unfold D. clear -Hd1 Hd2 Hf abs_double sub_double.
    revert Hd2. generalize (data other).
    induction Hd1 as [|x l [dx ->] _ IH]; intros [|y k] Hk; simpl;
      [by constructor..|].
    apply Forall_cons in Hk as [[dy ->] Hk]. constructor; [|by apply IH].
    simpl. destruct (sub_double t dx dy Hf) as [d ->].
    rewrite abs_double by done. by eexists. }
  (* is it finite, and within the allowed error *)
  unfold isfinite. norm.
  assert (isIntegralType t true = false) as -> by (by destruct t).
  assert (is_complex (with_data (empty (sizes self) t (device self))
                        (abs_value t <$> D)) = false) as ->.
  { unfold is_complex. norm. by destruct t. }
  rewrite (isfinite_floating_unfold abs_double mul_bool result_type_bool)
    by (norm; done || (unfold numel; norm; by rewrite length_fmap)).
  norm. rewrite bind_Ok_prepend. cbv beta.
  unfold at_le, binary_op, call. norm.
  rewrite result_type_floating by (by norm). norm. fold t.
  rewrite broadcast2_same by (by rewrite ?length_fmap).
  rewrite bind_Ok_prepend. cbv beta.
  unfold __iand__, binary_op_, call. norm.
  rewrite broadcast2_same
    by (rewrite ?length_zip_with, ?length_fmap; lia).
  rewrite bool_decide_eq_true_2 by done.
  rewrite bind_Ok_prepend. cbv beta.
  unfold __ior__, binary_op_, call. norm. rewrite Hcs, Hcd.
  rewrite broadcast2_same
    by (rewrite ?length_zip_with, ?length_fmap, ?length_zip_with; unfold numel in *; lia).
  rewrite bool_decide_eq_true_2 by done.
  eexists _, _. split; [unfold prepend; simpl; reflexivity|]. norm.
  split_and!; [done..|]. apply closeness_masks.
Qed.

End Closeness.

Import Reference.

Lemma reference_sub_double t x y :
  isFloatingType t = true → is_double (arith Sub t (HAS_d x) (HAS_d y)).
Proof. intros Ht. unfold arith. rewrite Ht. by eexists. Qed.

Lemma reference_result_type_floating (a b : Tensor) :
  isFloatingType (scalar_type a) = true → scalar_type b = scalar_type a →
  sizes a = sizes b → result_type_Tensor_Tensor a b = scalar_type a.
Proof.
  intros Hf Hb Hs. unfold result_type_Tensor_Tensor. simpl.
  unfold update_Tensor, dim. rewrite Hb, Hs.
  destruct (bool_decide (0 < length (sizes b))%nat);
    by destruct (scalar_type a).
Qed.

Lemma reference_result_type_double_scalar (a : Tensor) (d : double) :
  isFloatingType (scalar_type a) = true →
  result_type_Tensor_Scalar a (HAS_d d) = scalar_type a.
Proof.
  intros Hf. unfold result_type_Tensor_Scalar. simpl.
  unfold update_Tensor, update_Scalar, dim.
  destruct (bool_decide (0 < length (sizes a))%nat);
    by destruct (scalar_type a).
Qed.

Lemma isclose_elementwise_witness :
  ∃ r tr,
    isclose (H0 := backend_logical)
      (make 1 [3%nat] Float
         [HAS_d (double_of_Z 1); HAS_d quiet_NaN; HAS_d (double_of_Z 5)])
      (make 2 [3%nat] Float
         [HAS_d (double_of_Z 2); HAS_d quiet_NaN; HAS_d (double_of_Z 7)])
      double_zero (double_of_Z 1) true
    = mkM (Ok r) tr ∧
    data r = [HAS_b true; HAS_b true; HAS_b false].
Proof.
  destruct (@isclose_elementwise type_properties backend_logical
              (λ _ _ _, eq_refl) reference_sub_double (λ _ _, eq_refl)
              reference_result_type_bool reference_result_type_floating
              reference_result_type_double_scalar
              (make 1 [3%nat] Float
                 [HAS_d (double_of_Z 1); HAS_d quiet_NaN; HAS_d (double_of_Z 5)])
              (make 2 [3%nat] Float
                 [HAS_d (double_of_Z 2); HAS_d quiet_NaN; HAS_d (double_of_Z 7)])
              double_zero (double_of_Z 1) true)
    as (r & tr & Hr & _ & _ & Hd); try reflexivity.
  - split; [reflexivity|]. by repeat constructor.
  - split; [reflexivity|]. by repeat constructor.
  - exists r, tr. split; [exact Hr|]. rewrite Hd. by vm_compute.
Defined.

End ClosenessFacts.


(** ** [max] and [min] along a dimension: refusal and dispatch *)
Module ReductionDispatchFacts.
Import c10 ATen native MonadFacts ReductionFacts.

Section Dispatch.
Context `{Backend}.

Lemma maybe_wrap_dim_range dim rank d tr :
  meta.maybe_wrap_dim dim rank = mkM (Ok d) tr →
  0 ≤ d < Z.max 1 (Z.of_nat rank).
Proof.
  unfold meta.maybe_wrap_dim. intros Hm.
  apply bind_Ok_inv in Hm as (? & ? & ? & Hc & Hm & _).
  apply check_Ok_inv in Hc as [Hc _]. apply ret_Ok_inv in Hm as [<- _].
  apply andb_true_iff in Hc as [Hlo Hhi].
  apply Z.leb_le in Hlo. apply Z.leb_le in Hhi.
  repeat case_match;
    repeat match goal with
           | E : (_ <? _) = true |- _ => apply Z.ltb_lt in E
           | E : (_ <? _) = false |- _ => apply Z.ltb_ge in E
           | E : (_ <=? _) = true |- _ => apply Z.leb_le in E
           | E : (_ <=? _) = false |- _ => apply Z.leb_gt in E
           end; lia.
Qed.

(** For the reduction [op] with the meta step [meta_op] and the stub [stub]:
    a complex array is refused once the dimension is normalised and the
    check of the reduced dimension has passed, before any output is
    allocated or resized; an array that is neither empty nor a single
    element of rank 0 goes to the kernel, once, with the outputs of the meta
    step and the dimension normalised into the rank. *)
Definition dispatches
    (meta_op : Tensor → Z → bool → option Tensor * option Tensor →
               M (Z * (Tensor * Tensor)))
    (op : option Tensor * option Tensor → Tensor → Z → bool → M (Tensor * Tensor))
    (stub : Tensor → Tensor → Tensor → Z → bool → M (Tensor * Tensor)) : Prop :=
  ∀ self dim keepdim outputs,
    (∀ d, meta.maybe_wrap_dim dim (ATen.dim self) = ret d →
          zero_numel_check_dims self d = Ok () →
          is_complex self = true →
          op outputs self dim keepdim = mkM (Err UnsupportedType) []) ∧
    (∀ d values indices tr,
       meta_op self dim keepdim outputs = mkM (Ok (d, (values, indices))) tr →
       numel self ≠ 0%nat →
       ¬ (numel self = 1%nat ∧ ATen.dim self = 0%nat) →
       op outputs self dim keepdim = stub values indices self d keepdim ∧
       0 ≤ d < Z.max 1 (Z.of_nat (ATen.dim self))).

Lemma meta_max_dim_range self dim keepdim outputs d out tr :
  meta.max_dim self dim keepdim outputs = mkM (Ok (d, out)) tr →
  0 ≤ d < Z.max 1 (Z.of_nat (ATen.dim self)).
Proof.
  unfold meta.max_dim. intros Hm.
  apply bind_Ok_inv in Hm as (d0 & ? & ? & _ & Hm & _).
  apply bind_Ok_inv in Hm as (? & ? & ? & _ & Hm & _).
  apply bind_Ok_inv in Hm as (? & ? & ? & _ & Hm & _).
  apply bind_Ok_inv in Hm as (? & ? & ? & _ & Hm & _).
  apply bind_Ok_inv in Hm as (d' & ? & ? & Hw & Hm & _).
  apply ret_Ok_inv in Hm as [[= <- _] _].
  by eapply maybe_wrap_dim_range.
Qed.

(** [max] and [min] along a dimension refuse a complex array with
    [UnsupportedType], once the dimension is normalised and the reduced
    dimension checked, and before any output exists; an array that is
    neither empty nor a single element of rank 0 is handed to the kernel,
    once, together with the outputs of the meta step and a dimension between
    0 and the rank. *)
Theorem minmax_dispatch :
  dispatches meta.max_dim at_max_dim_structured max_stub ∧
  dispatches meta.min_dim at_min_dim_structured min_stub.
Proof.
  split; intros self dim keepdim outputs; split.
  - intros d Hw Hz Hc. unfold at_max_dim_structured, meta.max_dim.
    rewrite Hw, bind_ret_l, Hz, bind_lift_Ok.
    unfold meta.check_unsupported_complex. by rewrite Hc.
  - intros d values indices tr Hmeta Hn Hnot.
    pose proof (meta_max_dim_spec _ _ _ _ _ _ _ _ Hmeta) as [-> _ _ _ _ _ _].
    split; [|by eapply meta_max_dim_range].
    unfold at_max_dim_structured. rewrite Hmeta, bind_Ok. simpl.
    unfold max_out. rewrite minmax_out_impl_general by done. apply M_eta.
  - intros d Hw Hz Hc. unfold at_min_dim_structured, meta.min_dim.
    rewrite Hw, bind_ret_l, Hz, bind_lift_Ok.
    unfold meta.check_unsupported_complex. by rewrite Hc.
  - intros d values indices tr Hmeta Hn Hnot.
    pose proof (meta_min_dim_spec _ _ _ _ _ _ _ _ Hmeta) as [-> _ _ _ _ _ _].
    split; [|by eapply (meta_max_dim_range self dim keepdim outputs)].
    unfold at_min_dim_structured. rewrite Hmeta, bind_Ok. simpl.
    unfold min_out. rewrite minmax_out_impl_general by done. apply M_eta.
Qed.

End Dispatch.

Import Reference.

Lemma minmax_dispatch_witness :
  at_max_dim_structured (None, None)
    (make 1 [1%nat] ComplexFloat [HAS_z double_zero double_zero]) 0 false
  = mkM (Err UnsupportedType) [] ∧
  (∃ values indices,
     at_min_dim_structured (None, None)
       (make 1 [2; 2]%nat Long [HAS_i 3; HAS_i 1; HAS_i 2; HAS_i 2]) (-1) false
     = mkM (Ok (values, indices)) ["min_stub"] ∧
     data values = [HAS_i 1; HAS_i 2] ∧ data indices = [HAS_i 1; HAS_i 0]).
Proof.
  destruct minmax_dispatch as [Hmax Hmin]. split.
  - destruct (Hmax (make 1 [1%nat] ComplexFloat [HAS_z double_zero double_zero])
                0 false (None, None)) as [Hcomplex _].
    by apply (Hcomplex 0).
  - destruct (Hmin (make 1 [2; 2]%nat Long [HAS_i 3; HAS_i 1; HAS_i 2; HAS_i 2])
                (-1) false (None, None)) as [_ Hkernel].
    edestruct Hkernel as [Hop _]; [reflexivity|done|by intros [? _]|].
    rewrite Hop. by eexists _, _.
Defined.

End ReductionDispatchFacts.
